(** * YOLOv11-pt: the training / evaluation orchestration of [main.py]

    A shallow embedding of the control flow of [train], [plot_mAP],
    [test] and [main], and of [file_directory.py]: Python integers are
    [Z], the mAP and loss values are rationals, written to the log with
    three decimals, the weight decay is a binary64 float with the
    rounding and the overflow of line 44, the files under [./weights]
    are a small record, the calls to collaborators (optimizer, gradient
    scaler, EMA tracker, sampler, process group) are events appended to a
    trace, and Python exceptions are the left summand of the result.
    Console output ([print], the progress bar) is not part of the model
    of [main.py]. *)

From Stdlib Require Import ZArith QArith Qround Qabs Qminmax Lqa List Bool String Ascii DecimalString
  SpecFloat Lia.
Import ListNotations.

Local Open Scope Z_scope.

(** ** Python values used by the orchestration *)

Module Py.

(** The exceptions [main.py] can meet in the modelled paths. *)
Inductive exn : Type :=
| ValueError
| ZeroDivisionError
| FileNotFoundError
| RuntimeError
| KeyError
| OverflowError
| NotADirectoryError.

(** The builtin [round(x)] with one argument: the nearest integer, a
    tie going to the even neighbour. *)
Definition round (q : Q) : Z :=
  let f := Qfloor q in
  match Qcompare (q - inject_Z f) (1 # 2) with
  | Lt => f
  | Gt => f + 1
  | Eq => if Z.even f then f else f + 1
  end.

(** What the language reference says of [round]: [z] is at distance at
    most one half of [q], and is even when the distance is exactly one
    half. *)
Definition nearest_ties_even (q : Q) (z : Z) : Prop :=
  (Qabs (q - inject_Z z) <= 1 # 2)%Q /\
  (Qabs (q - inject_Z z) == 1 # 2 -> Z.even z = true)%Q.

(** A [float] where its rounding matters: an IEEE 754 binary64 value. *)
Definition float : Type := spec_float.
Definition prec : Z := 53.
Definition emax : Z := 1024.

(** [n / 64] on an [int] [n]: the double nearest to the exact quotient,
    a tie going to the even mantissa; [OverflowError] when the quotient is
    too large for a double. *)
Definition int_div_64 (n : Z) : exn + float :=
  match binary_normalize prec emax n (-6) false with
  | S754_infinity _ => inl OverflowError
  | x => inr x
  end.

(** [x * y] on two floats. *)
Definition fmul (x y : float) : float := SFmul prec emax x y.

(** [a > b] and [a == b] on finite numbers. *)
Definition gt (a b : Q) : bool := negb (Qle_bool a b).
Definition eq (a b : Q) : bool := Qeq_bool a b.

(** [float(f'{x:.3f}')]: the text has the multiple of 1/1000 nearest to
    [x], a tie going to the even one, and that is the number read back. *)
Definition round3 (x : Q) : Q := (inject_Z (round (x * 1000)) / 1000)%Q.

(** The value of an environment variable as [int(...)] sees it: the
    text of an integer, or a text [int] rejects. *)
Inductive env_text : Type :=
| IntText (z : Z)
| BadText.

(** [int(os.getenv(name, default))]: the default is already an [int]. *)
Definition int_getenv (v : option env_text) (default : Z) : exn + Z :=
  match v with
  | None => inr default
  | Some (IntText z) => inr z
  | Some BadText => inl ValueError
  end.

End Py.

Export Py(exn(..), env_text(..)).

(** ** Line 43-44: accumulation count and weight-decay scaling *)

(** [max(round(64 / (args.batch_size * args.world_size)), 1)]; the true
    division raises on a zero product. The quotient is a double in the
    code; [round] gives the same integer on it as on the exact quotient,
    which is either a half-integer, hence a double itself, or further from
    every half-integer than the rounding of the division moves it. *)
Definition accumulate_of (batch_size world_size : Z) : exn + Z :=
  if batch_size * world_size =? 0 then inl ZeroDivisionError
  else inr (Z.max (Py.round (inject_Z 64 / inject_Z (batch_size * world_size))) 1).

(** [params['weight_decay'] *= args.batch_size * args.world_size * accumulate / 64]:
    the product of the three [int]s is exact, its division by 64 gives a
    float or raises, and the float read from [utils/args.yaml] is
    multiplied by it. *)
Definition scale_weight_decay (weight_decay : Py.float) (batch_size world_size accumulate : Z)
  : exn + Py.float :=
  match Py.int_div_64 (batch_size * world_size * accumulate) with
  | inl e => inl e
  | inr factor => inr (Py.fmul weight_decay factor)
  end.


(** ** Run configuration *)

(** The namespace [parser.parse_args()] returns. The two spellings
    [--local-rank] and [--local_rank] fill the same attribute. *)
Record Cli : Type := {
  cli_input_size : Z;
  cli_batch_size : Z;
  cli_local_rank : Z;
  cli_epochs : Z;
  cli_train : bool;
  cli_test : bool;
  cli_version : string;
  cli_zip : bool
}.

(** The two environment variables [main] reads. *)
Record OsEnv : Type := {
  LOCAL_RANK : option env_text;
  WORLD_SIZE : option env_text
}.

(** [args] once lines 416-418 have run. *)
Record Args : Type := {
  input_size : Z;
  batch_size : Z;
  local_rank : Z;
  epochs : Z;
  do_train : bool;
  do_test : bool;
  version : string;
  do_zip : bool;
  world_size : Z;
  distributed : bool
}.

(** The tuple [test] returns: [mean_ap, map50, m_rec, m_pre]. *)
Record Metrics : Type := {
  mean_ap : Q;
  map50 : Q;
  m_rec : Q;
  m_pre : Q
}.

(** ** Files under [./weights] of one run configuration

    Every path [main.py] builds carries the same [version] and [epochs],
    so one run sees four files. *)
Inductive artifact : Type :=
| StepCsv   (* step_<version>_<epochs>.csv *)
| LastPt    (* last_<version>_<epochs>.pt *)
| BestPt    (* best_<version>_<epochs>.pt *)
| MapPng.   (* mAP_vs_epochs_<version>_<epochs>.png *)

(** A line of the metric log: the header [writeheader] writes or the row
    of an epoch, with the numbers its text holds. *)
Inductive csv_line : Type :=
| Header
| Row (epoch : Z) (box cls dfl : Q) (m : Metrics).

(** [{'epoch': epoch + 1, 'model': deepcopy(ema.ema)}] as saved. *)
Record Ckpt : Type := {
  ck_epoch : Z;
  ck_stripped : bool
}.

Record FS : Type := {
  weights_dir : bool;                    (* os.path.exists('weights') *)
  step_csv : option (list csv_line);     (* lines on disk *)
  last_pt : option Ckpt;
  best_pt : option Ckpt;
  map_png : option (list (Z * Q))        (* the plotted series *)
}.

(** What a process holds besides its local variables: the files, the
    unflushed lines of the open [log], [loader.dataset.mosaic] and
    [params['weight_decay']]. *)
Record World : Type := {
  fs : FS;
  log_buf : list csv_line;
  mosaic : bool;
  weight_decay : Py.float
}.

(** ** Calls to collaborators, in program order *)
Inductive event : Type :=
| SetDevice (r : Z)
| InitProcessGroup
| DestroyProcessGroup
| EmptyCache
| Makedirs
| Profile
| Zip
| MakeSGD (weight_decay : Py.float)        (* torch.optim.SGD(util.set_params(model, weight_decay), ...) *)
| OpenWrite (a : artifact)          (* open(..., 'w'): create or truncate *)
| WriteHeader
| WriteRow (epoch : Z)
| Flush
| CloseLog
| SamplerSetEpoch (epoch : Z)
| MosaicOff (epoch : Z)             (* loader.dataset.mosaic = False *)
| ZeroGrad
| SchedulerStep (step : Z)
| Backward (step : Z)
| ScalerStep (step : Z)             (* amp_scale.step(optimizer) *)
| OptimizerStep (step : Z)          (* the optimizer.step() inside it *)
| ScalerUpdate
| EmaUpdate (step : Z)              (* ema.update(model) *)
| Evaluate (epoch : Z)              (* test(args, params, ema.ema) *)
| TorchSave (a : artifact) (epoch : Z)
| StripOptimizer (a : artifact).

(** What the collaborators answer during a run. *)
Record Env : Type := {
  num_steps : Z;                    (* len(loader) *)
  dataset_mosaic : bool;            (* Dataset(..., augment=True).mosaic *)
  overflow : Z -> bool;             (* non-finite gradients at this step's amp_scale.step *)
  avg_losses : Z -> Q * Q * Q;      (* the three AverageMeter.avg of an epoch *)
  ap_result : Z -> Metrics;         (* inference + NMS + AP on the EMA model after an epoch *)
  ap_best : Metrics;                (* the same on the loaded best checkpoint *)
  plt_raises : bool;                (* matplotlib fails *)
  yaml_weight_decay : Py.float      (* utils/args.yaml *)
}.

(** ** Effects: events written, world threaded, exceptions returned *)

Definition M (A : Type) : Type := World -> list event * World * (exn + A).

Definition ret {A} (a : A) : M A := fun w => ([], w, inr a).

Definition bind {A B} (m : M A) (f : A -> M B) : M B := fun w =>
  match m w with
  | (ev, w1, inl e) => (ev, w1, inl e)
  | (ev, w1, inr a) =>
      match f a w1 with
      | (ev', w2, r) => (ev ++ ev', w2, r)
      end
  end.

Definition raise {A} (e : exn) : M A := fun w => ([], w, inl e).
Definition emit (e : event) : M unit := fun w => ([e], w, inr tt).
Definition emits (l : list event) : M unit := fun w => (l, w, inr tt).
Definition lift {A} (r : exn + A) : M A := fun w => ([], w, r).
Definition modify (f : World -> World) : M unit := fun w => ([], f w, inr tt).

Definition events_of {A} (o : list event * World * (exn + A)) : list event := fst (fst o).
Definition world_of {A} (o : list event * World * (exn + A)) : World := snd (fst o).
Definition result_of {A} (o : list event * World * (exn + A)) : exn + A := snd o.

Declare Scope m_scope.
Delimit Scope m_scope with M.
Notation "x <- c ;; k" := (bind c (fun x => k))
  (at level 61, c at next level, right associativity) : m_scope.
Notation "c ;; k" := (bind c (fun _ => k))
  (at level 61, right associativity) : m_scope.
Local Open Scope m_scope.

Definition when (b : bool) (m : M unit) : M unit := if b then m else ret tt.

(** [for x in l: s = body(x, s)] *)
Fixpoint for_fold {A St} (l : list A) (s : St) (body : A -> St -> M St) : M St :=
  match l with
  | [] => ret s
  | x :: l' => s' <- body x s ;; for_fold l' s' body
  end.

(** [range(n)] *)
Definition range (n : Z) : list Z := map Z.of_nat (seq 0 (Z.to_nat n)).

(** Record updates. *)
Definition set_fs (f : FS -> FS) (w : World) : World :=
  {| fs := f (fs w); log_buf := log_buf w; mosaic := mosaic w; weight_decay := weight_decay w |}.
Definition set_log_buf (b : list csv_line) (w : World) : World :=
  {| fs := fs w; log_buf := b; mosaic := mosaic w; weight_decay := weight_decay w |}.
Definition set_mosaic (b : bool) (w : World) : World :=
  {| fs := fs w; log_buf := log_buf w; mosaic := b; weight_decay := weight_decay w |}.
Definition set_weight_decay (q : Py.float) (w : World) : World :=
  {| fs := fs w; log_buf := log_buf w; mosaic := mosaic w; weight_decay := q |}.

Definition with_weights_dir (b : bool) (f : FS) : FS :=
  {| weights_dir := b; step_csv := step_csv f; last_pt := last_pt f;
     best_pt := best_pt f; map_png := map_png f |}.
Definition with_step_csv (c : option (list csv_line)) (f : FS) : FS :=
  {| weights_dir := weights_dir f; step_csv := c; last_pt := last_pt f;
     best_pt := best_pt f; map_png := map_png f |}.
Definition with_last_pt (c : option Ckpt) (f : FS) : FS :=
  {| weights_dir := weights_dir f; step_csv := step_csv f; last_pt := c;
     best_pt := best_pt f; map_png := map_png f |}.
Definition with_best_pt (c : option Ckpt) (f : FS) : FS :=
  {| weights_dir := weights_dir f; step_csv := step_csv f; last_pt := last_pt f;
     best_pt := c; map_png := map_png f |}.
Definition with_map_png (c : option (list (Z * Q))) (f : FS) : FS :=
  {| weights_dir := weights_dir f; step_csv := step_csv f; last_pt := last_pt f;
     best_pt := best_pt f; map_png := c |}.

(** ** [plot_mAP] (lines 221-271) and [test] (lines 274-351)

    Both only read and write files, so they are functions on [FS]. The
    data set lists under [data_dir] are taken as present. *)

(** [int(row["epoch"])], [float(row["mAP"])] of one line after the
    first; a repeated header line has no number in it. *)
Definition row_point (l : csv_line) : exn + Z * Q :=
  match l with
  | Header => inl ValueError
  | Row e _ _ _ m => inr (e, mean_ap m)
  end.

Fixpoint read_rows (ls : list csv_line) : exn + list (Z * Q) :=
  match ls with
  | [] => inr []
  | l :: ls' =>
      match row_point l with
      | inl e => inl e
      | inr p =>
          match read_rows ls' with
          | inl e => inl e
          | inr ps => inr (p :: ps)
          end
      end
  end.

(** Lines 224-228. [csv.DictReader] takes the first line as the field
    names, whatever it holds. After the header [writeheader] wrote, each
    further line is read by these names; after a row, the names are that
    row's numbers, and [row["epoch"]] raises [KeyError] on the first
    further line. *)
Definition read_log (lines : list csv_line) : exn + list (Z * Q) :=
  match lines with
  | [] => inr []
  | Header :: rest => read_rows rest
  | Row _ _ _ _ _ :: [] => inr []
  | Row _ _ _ _ _ :: _ :: _ => inl KeyError
  end.

(** The [max(mAP_list)] of line 231 raises [ValueError] on an empty
    list; the figure is saved last. *)
Definition plot_mAP (env : Env) (f : FS) : FS * (exn + unit) :=
  match step_csv f with
  | None => (f, inl FileNotFoundError)
  | Some lines =>
      match read_log lines with
      | inl e => (f, inl e)
      | inr [] => (f, inl ValueError)
      | inr series =>
          if plt_raises env then (f, inl RuntimeError)
          else (with_map_png (Some series) f, inr tt)
      end
  end.

(** [test(args, params, model)]: without a model the best checkpoint is
    loaded; [ap] is what inference, NMS and AP give on the model (all
    zero when nothing matched); [plot_mAP(args)] is called on line 341
    with no handler around it. *)
Definition test (env : Env) (model_given : bool) (ap : Metrics) (f : FS)
  : FS * (exn + Metrics) :=
  match (if model_given then inr tt
         else match best_pt f with
              | None => inl FileNotFoundError
              | Some _ => inr tt
              end) with
  | inl e => (f, inl e)
  | inr _ =>
      match plot_mAP env f with
      | (f', inl e) => (f', inl e)
      | (f', inr _) => (f', inr ap)
      end
  end.

(** ** [train] (lines 24-218) *)

(** Lines 27-38. *)
Definition supported (v : string) : bool :=
  existsb (String.eqb v) ["n"; "s"; "m"; "l"; "x"]%string.

(** [amp_scale.step(optimizer)]: the scaler calls [optimizer.step()]
    unless it found non-finite gradients. *)
Definition scaler_step (env : Env) (step : Z) : list event :=
  ScalerStep step :: (if overflow env step then [] else [OptimizerStep step]).

(** Lines 134-166 for one batch; [ema] tells whether [ema] is an [EMA]
    object (true) or [None]. *)
Definition micro_step (env : Env) (accumulate : Z) (ema : bool) (step : Z) : list event :=
  [SchedulerStep step; Backward step] ++
  (if step mod accumulate =? 0
   then scaler_step env step ++ [ScalerUpdate; ZeroGrad] ++
        (if ema then [EmaUpdate step] else [])
   else []).

(** Lines 132-175: [for i, (samples, targets) in p_bar] with
    [step = i + num_steps * epoch]. *)
Definition epoch_steps (env : Env) (accumulate : Z) (ema : bool) (epoch : Z) : list event :=
  flat_map (fun i => micro_step env accumulate ema (i + num_steps env * epoch))
           (range (num_steps env)).

(** Line 107: [open(csv_file, 'w', newline='')]. *)
Definition open_log : M unit := fun w =>
  if weights_dir (fs w)
  then ([OpenWrite StepCsv], set_log_buf [] (set_fs (with_step_csv (Some [])) w), inr tt)
  else ([], w, inl FileNotFoundError).

(** The buffered lines reach the disk. *)
Definition flush_world (w : World) : World :=
  set_log_buf []
    (set_fs (fun f => with_step_csv
                        (Some (match step_csv f with Some d => d | None => [] end
                               ++ log_buf w)) f) w).

(** [with open(...) as log: body]: the file is closed on the way out,
    also when [body] raises. *)
Definition with_log {A} (body : M A) : M A := fun w =>
  match open_log w with
  | (ev, w1, inl e) => (ev, w1, inl e)
  | (ev, w1, inr _) =>
      match body w1 with
      | (ev', w2, r) => (ev ++ ev' ++ [CloseLog], flush_world w2, r)
      end
  end.

Definition write_header : M unit := fun w =>
  ([WriteHeader], set_log_buf (log_buf w ++ [Header]) w, inr tt).

(** The four metrics as [f'{x:.3f}'] writes them. *)
Definition logged (m : Metrics) : Metrics :=
  {| mean_ap := Py.round3 (mean_ap m);
     map50 := Py.round3 (map50 m);
     m_rec := Py.round3 (m_rec m);
     m_pre := Py.round3 (m_pre m) |}.

(** Lines 184-191; the row carries [epoch + 1] and every number with
    three decimals. *)
Definition write_row (env : Env) (epoch : Z) (m : Metrics) : M unit := fun w =>
  let '(box, cls, dfl) := avg_losses env epoch in
  ([WriteRow (epoch + 1)],
   set_log_buf (log_buf w ++ [Row (epoch + 1) (Py.round3 box) (Py.round3 cls) (Py.round3 dfl)
                                  (logged m)]) w, inr tt).

(** Line 192. *)
Definition flush : M unit := fun w => ([Flush], flush_world w, inr tt).

Definition with_ckpt (a : artifact) (c : option Ckpt) (f : FS) : FS :=
  match a with
  | LastPt => with_last_pt c f
  | BestPt => with_best_pt c f
  | _ => f
  end.

Definition ckpt_of (a : artifact) (f : FS) : option Ckpt :=
  match a with
  | LastPt => last_pt f
  | BestPt => best_pt f
  | _ => None
  end.

(** [torch.save(save, f=...)] with [save['epoch'] = epoch]. *)
Definition torch_save (a : artifact) (epoch : Z) : M unit := fun w =>
  ([TorchSave a epoch],
   set_fs (with_ckpt a (Some {| ck_epoch := epoch; ck_stripped := false |})) w, inr tt).

(** Modelled from the spec: [util.strip_optimizer], of [utils/util.py],
    removes the training-only state from a persisted artifact and is
    idempotent. *)
Definition strip_optimizer (a : artifact) : M unit := fun w =>
  ([StripOptimizer a],
   set_fs (fun f => match ckpt_of a f with
                    | Some c => with_ckpt a (Some {| ck_epoch := ck_epoch c; ck_stripped := true |}) f
                    | None => f
                    end) w, inr tt).

(** Lines 197-198. *)
Definition update_best (best current_mAP : Q) : Q :=
  if Py.gt current_mAP best then current_mAP else best.

(** Lines 194-212: the new [best], then [last] saved, then [best] saved
    when [best == current_mAP]. *)
Definition save_checkpoints (epoch : Z) (best current_mAP : Q) : M Q :=
  let best := update_best best current_mAP in
  torch_save LastPt (epoch + 1) ;;
  when (Py.eq best current_mAP) (torch_save BestPt (epoch + 1)) ;;
  ret best.

Section Train.

Variable env : Env.
Variable args : Args.

(** The call [test(args, params, ema.ema)] of line 179, as a function
    of the epoch and of the files. *)
Variable evaluate : Z -> FS -> FS * (exn + Metrics).

Definition run_eval (epoch : Z) : M Metrics := fun w =>
  match evaluate epoch (fs w) with
  | (f', r) => ([Evaluate epoch], set_fs (fun _ => f') w, r)
  end.

(** Lines 177-212. *)
Definition epoch_end (epoch : Z) (best : Q) : M Q :=
  last <- run_eval epoch ;;
  let current_mAP := mean_ap last in
  write_row env epoch last ;;
  flush ;;
  save_checkpoints epoch best current_mAP.

(** Lines 119-120. *)
Definition mosaic_switch (epoch : Z) : M unit :=
  if epochs args - epoch =? 10
  then (modify (set_mosaic false) ;; emit (MosaicOff epoch))
  else ret tt.

(** Lines 116-212, one turn of [for epoch in range(args.epochs)]. *)
Definition epoch_body (accumulate : Z) (ema : bool) (epoch : Z) (best : Q) : M Q :=
  when (distributed args) (emit (SamplerSetEpoch epoch)) ;;
  mosaic_switch epoch ;;
  emit ZeroGrad ;;
  emits (epoch_steps env accumulate ema epoch) ;;
  if local_rank args =? 0 then epoch_end epoch best else ret best.

(** Line 115 with [best = 0] of line 98: the first [n] turns of the
    loop, and the whole loop. *)
Definition first_epochs (n : Z) (accumulate : Z) (ema : bool) : M Q :=
  for_fold (range n) 0%Q (epoch_body accumulate ema).

Definition epoch_loop (accumulate : Z) (ema : bool) : M Q :=
  first_epochs (epochs args) accumulate ema.

(** Lines 24-218. The model, optimizer, loader and scheduler are built
    by collaborators; [ema] exists on local rank 0 only (line 50). *)
Definition train_with : M unit :=
  if negb (supported (version args)) then raise ValueError
  else
    accumulate <- lift (accumulate_of (batch_size args) (world_size args)) ;;
    (fun w => (wd <- lift (scale_weight_decay (weight_decay w) (batch_size args)
                             (world_size args) accumulate) ;;
               modify (set_weight_decay wd)) w) ;;
    (fun w => emit (MakeSGD (weight_decay w)) w) ;;
    let ema := local_rank args =? 0 in
    modify (set_mosaic (dataset_mosaic env)) ;;
    with_log (when (local_rank args =? 0) write_header ;;
              epoch_loop accumulate ema) ;;
    when (local_rank args =? 0)
         (strip_optimizer LastPt ;; strip_optimizer BestPt).

End Train.

(** [train(args, params)] as written: the evaluation is [test] on the
    EMA model. *)
Definition train (env : Env) (args : Args) : M unit :=
  train_with env args (fun epoch => test env true (ap_result env epoch)).

(** ** [main] (lines 398-463) *)

(** Lines 413-418. *)
Definition resolve (cli : Cli) (os : OsEnv) : exn + Args :=
  match Py.int_getenv (LOCAL_RANK os) 0 with
  | inl e => inl e
  | inr lr =>
      match Py.int_getenv (WORLD_SIZE os) 1 with
      | inl e => inl e
      | inr ws =>
          inr {| input_size := cli_input_size cli;
                 batch_size := cli_batch_size cli;
                 local_rank := lr;
                 epochs := cli_epochs cli;
                 do_train := cli_train cli;
                 do_test := cli_test cli;
                 version := cli_version cli;
                 do_zip := cli_zip cli;
                 world_size := ws;
                 distributed := 1 <? ws |}
      end
  end.

(** Lines 424-426. *)
Definition makedirs : M unit := fun w =>
  if weights_dir (fs w) then ([], w, inr tt)
  else ([Makedirs], set_fs (with_weights_dir true) w, inr tt).

(** [test(args, params)] of line 442, through the monad. *)
Definition run_test (env : Env) : M Metrics := fun w =>
  match test env false (ap_best env) (fs w) with
  | (f', r) => ([], set_fs (fun _ => f') w, r)
  end.

Definition main (env : Env) (cli : Cli) (os : OsEnv) : M unit :=
  args <- lift (resolve cli os) ;;
  when (distributed args) (emit (SetDevice (local_rank args)) ;; emit InitProcessGroup) ;;
  when (local_rank args =? 0) makedirs ;;
  modify (set_weight_decay (yaml_weight_decay env)) ;;
  emit Profile ;;
  when (do_train args) (train env args) ;;
  when (do_test args) (_ <- run_test env ;; ret tt) ;;
  when (distributed args) (emit DestroyProcessGroup) ;;
  emit EmptyCache ;;
  when (do_zip args) (emit Zip).

(** ** Reading a trace *)

Definition is_backward (e : event) : bool :=
  match e with Backward _ => true | _ => false end.
Definition is_scaler_step (e : event) : bool :=
  match e with ScalerStep _ => true | _ => false end.
Definition is_optimizer_step (e : event) : bool :=
  match e with OptimizerStep _ => true | _ => false end.
Definition is_ema_update (e : event) : bool :=
  match e with EmaUpdate _ => true | _ => false end.
Definition is_mosaic_off (e : event) : bool :=
  match e with MosaicOff _ => true | _ => false end.
Definition is_best_save (e : event) : bool :=
  match e with TorchSave BestPt _ => true | _ => false end.
Definition is_epoch_record (e : event) : bool :=
  match e with WriteRow _ | TorchSave _ _ => true | _ => false end.

(** The calls only [main] itself makes. *)
Definition main_only (e : event) : bool :=
  match e with
  | SetDevice _ | InitProcessGroup | DestroyProcessGroup
  | EmptyCache | Makedirs | Profile | Zip => true
  | _ => false
  end.

(** The calls [train] makes outside its epoch loop. *)
Definition around_loop (e : event) : bool :=
  match e with
  | MakeSGD _ | OpenWrite _ | WriteHeader | CloseLog | StripOptimizer _ => true
  | _ => false
  end.

(** The calls of one batch that no other part of [train] makes. *)
Definition batch_call (e : event) : bool :=
  match e with
  | SchedulerStep _ | Backward _ | ScalerStep _ | OptimizerStep _
  | ScalerUpdate | EmaUpdate _ => true
  | _ => false
  end.

Definition count (P : event -> bool) (tr : list event) : Z :=
  Z.of_nat (List.length (filter P tr)).

(** The batches of the first [n] epochs, in order. *)
Definition run_steps (env : Env) (accumulate : Z) (ema : bool) (n : Z) : list event :=
  flat_map (epoch_steps env accumulate ema) (range n).

(** What an epoch's turn writes besides its batches: before them, and
    after them on local rank 0. *)
Definition end_events (epoch : Z) (best : Q) (r : exn + Metrics) : list event :=
  Evaluate epoch ::
  match r with
  | inl _ => []
  | inr m =>
      [WriteRow (epoch + 1); Flush; TorchSave LastPt (epoch + 1)] ++
      (if Py.eq (update_best best (mean_ap m)) (mean_ap m)
       then [TorchSave BestPt (epoch + 1)] else [])
  end.

Definition put_csv (c : option (list csv_line)) (w : World) : World :=
  set_fs (with_step_csv c) w.

Definition with_cli_local_rank (r : Z) (cli : Cli) : Cli :=
  {| cli_input_size := cli_input_size cli;
     cli_batch_size := cli_batch_size cli;
     cli_local_rank := r;
     cli_epochs := cli_epochs cli;
     cli_train := cli_train cli;
     cli_test := cli_test cli;
     cli_version := cli_version cli;
     cli_zip := cli_zip cli |}.

(** The world in which the epoch loop of [train] starts: weight decay
    scaled (the loop is not reached when the scaling raises), data set
    built, log truncated, header buffered on rank 0. *)
Definition start_world (env : Env) (args : Args) (accumulate : Z) (w : World) : World :=
  let w1 := set_weight_decay
              (match scale_weight_decay (weight_decay w) (batch_size args) (world_size args)
                       accumulate with
               | inr wd => wd
               | inl _ => weight_decay w
               end) w in
  let w2 := set_mosaic (dataset_mosaic env) w1 in
  let w3 := set_log_buf [] (set_fs (with_step_csv (Some [])) w2) in
  if local_rank args =? 0 then set_log_buf (log_buf w3 ++ [Header]) w3 else w3.

(** Whether the turn with ten epochs left is among the first [n] turns
    of a loop of [total] epochs. *)
Definition fired (total n : Z) : bool := (0 <=? total - 10) && (total - 10 <? n).

(** ** Sample runs *)

Module Sample.

(** The double [0.0005]. *)
Definition wd : Py.float := S754_finite false 4611686018427388 (-63).

Definition flat (q : Q) : Metrics :=
  {| mean_ap := q; map50 := q; m_rec := q; m_pre := q |}.

(** Three batches per epoch, no overflow, mAP 0.3 at every epoch. *)
Definition env : Env :=
  {| num_steps := 3;
     dataset_mosaic := true;
     overflow := fun _ => false;
     avg_losses := fun _ => (1, 1, 1)%Q;
     ap_result := fun _ => flat (3 # 10);
     ap_best := flat (3 # 10);
     plt_raises := false;
     yaml_weight_decay := wd |}.

(** The same with matplotlib failing. *)
Definition env_plt_fails : Env :=
  {| num_steps := 3;
     dataset_mosaic := true;
     overflow := fun _ => false;
     avg_losses := fun _ => (1, 1, 1)%Q;
     ap_result := fun _ => flat (3 # 10);
     ap_best := flat (3 # 10);
     plt_raises := true;
     yaml_weight_decay := wd |}.

(** The same with non-finite gradients at every step. *)
Definition env_overflow : Env :=
  {| num_steps := 3;
     dataset_mosaic := true;
     overflow := fun _ => true;
     avg_losses := fun _ => (1, 1, 1)%Q;
     ap_result := fun _ => flat (3 # 10);
     ap_best := flat (3 # 10);
     plt_raises := false;
     yaml_weight_decay := wd |}.

Definition args (rank size batch n : Z) (v : string) : Args :=
  {| input_size := 640;
     batch_size := batch;
     local_rank := rank;
     epochs := n;
     do_train := true;
     do_test := false;
     version := v;
     do_zip := false;
     world_size := size;
     distributed := 1 <? size |}.

Definition cli (batch n : Z) (v : string) (with_train with_test : bool) : Cli :=
  {| cli_input_size := 640;
     cli_batch_size := batch;
     cli_local_rank := 0;
     cli_epochs := n;
     cli_train := with_train;
     cli_test := with_test;
     cli_version := v;
     cli_zip := false |}.

Definition os (rank size : Z) : OsEnv :=
  {| LOCAL_RANK := Some (IntText rank); WORLD_SIZE := Some (IntText size) |}.

(** An existing, empty [weights] directory. *)
Definition files : FS :=
  {| weights_dir := true; step_csv := None; last_pt := None;
     best_pt := None; map_png := None |}.

Definition world : World :=
  {| fs := files; log_buf := []; mosaic := true; weight_decay := wd |}.

(** The log a finished epoch of an earlier run left behind. *)
Definition old_log : list csv_line := [Header; Row 1 1 1 1 (flat (3 # 10))].

(** An evaluation that returns the mAP of a given list, epoch by
    epoch, and touches no file. *)
Definition eval_of (ms : list Q) (epoch : Z) (f : FS) : FS * (exn + Metrics) :=
  (f, inr (flat (nth (Z.to_nat epoch) ms 0%Q))).

End Sample.

(** ** Text as [main.py] and [file_directory.py] handle it

    Strings are ASCII text; [os.path] is [posixpath]. *)

Module Text.

(** [str(n)] and [f"{n}"] of an integer. *)
Definition str (z : Z) : string := NilZero.string_of_int (Z.to_int z).

(** [f"{n:02}"]: zero-padded to two characters; longer texts, a minus
    sign included, are left as they are. *)
Definition pad2 (z : Z) : string :=
  let s := str z in
  if (String.length s <? 2)%nat then ("0" ++ s)%string else s.

(** [pat in s]. *)
Fixpoint contains (pat s : string) : bool :=
  prefix pat s ||
  match s with
  | EmptyString => false
  | String _ s' => contains pat s'
  end.

(** [s.endswith(suf)]. *)
Fixpoint endswith (s suf : string) : bool :=
  String.eqb s suf ||
  match s with
  | EmptyString => false
  | String _ s' => endswith s' suf
  end.

(** [c.isspace()] on ASCII. *)
Definition is_space (c : ascii) : bool :=
  let n := nat_of_ascii c in
  (((9 <=? n) && (n <=? 13)) || ((28 <=? n) && (n <=? 32)))%nat.

(** [s.rstrip()]. *)
Fixpoint rstrip (s : string) : string :=
  match s with
  | EmptyString => EmptyString
  | String c s' =>
      match rstrip s' with
      | EmptyString => if is_space c then EmptyString else String c EmptyString
      | r => String c r
      end
  end.

(** [os.path.basename(p)]: what follows the last slash. *)
Fixpoint basename (p : string) : string :=
  match p with
  | EmptyString => EmptyString
  | String c p' =>
      if contains "/" p' then basename p'
      else if Ascii.eqb c "/" then p' else p
  end.

(** [os.path.join(a, b)]. *)
Definition path_join (a b : string) : string :=
  if prefix "/" b then b
  else if String.eqb a "" || endswith a "/" then (a ++ b)%string
  else (a ++ "/" ++ b)%string.

(** [s.replace(old, new)] for an [old] that is not empty: the
    occurrences of [old] from the left, without overlap; [skip] counts
    the characters of an occurrence still to drop. *)
Fixpoint replace_from (old new s : string) (skip : nat) : string :=
  match s with
  | EmptyString => EmptyString
  | String c s' =>
      match skip with
      | S k => replace_from old new s' k
      | O =>
          if prefix old s
          then (new ++ replace_from old new s' (String.length old - 1))%string
          else String c (replace_from old new s' 0)
      end
  end.

(** [s.replace('', new)]: [new] before every character and at the end. *)
Fixpoint replace_empty (new s : string) : string :=
  match s with
  | EmptyString => new
  | String c s' => (new ++ String c (replace_empty new s'))%string
  end.

(** [s.replace(old, new)]. *)
Definition replace (old new s : string) : string :=
  match old with
  | EmptyString => replace_empty new s
  | _ => replace_from old new s 0
  end.

(** [sep.join(l)]. *)
Fixpoint join (sep : string) (l : list string) : string :=
  match l with
  | [] => EmptyString
  | [x] => x
  | x :: l' => (x ++ sep ++ join sep l')%string
  end.

End Text.

(** ** Lines 452-462: the elapsed time *)

(** [time_end - time_start] of two naive datetimes given in
    microseconds: the normalised [days], [seconds], [microseconds] of
    the [timedelta]. *)
Definition timedelta (time_start time_end : Z) : Z * Z * Z :=
  let us := time_end - time_start in
  (us / 86400000000, (us / 1000000) mod 86400, us mod 1000000).

(** Lines 458-459: the two [divmod]. *)
Definition clock (seconds : Z) : Z * Z * Z :=
  let hours := seconds / 3600 in
  let remainder := seconds mod 3600 in
  let minutes := remainder / 60 in
  let seconds := remainder mod 60 in
  (hours, minutes, seconds).

(** Line 461. *)
Definition formatted_duration (time_start time_end : Z) : string :=
  let '(days, seconds, _) := timedelta time_start time_end in
  let '(hours, minutes, seconds) := clock seconds in
  (Text.str days ++ " Days " ++ Text.pad2 hours ++ ":" ++ Text.pad2 minutes ++ ":"
   ++ Text.pad2 seconds)%string.

(** ** Lines 230-234: what [plot_mAP] labels *)

(** [max(l)] keeps the first of the largest values. *)
Fixpoint max_from (cur : Q) (l : list Q) : Q :=
  match l with
  | [] => cur
  | x :: l' => max_from (if Py.gt x cur then x else cur) l'
  end.

Definition py_max (l : list Q) : exn + Q :=
  match l with
  | [] => inl ValueError
  | x :: l' => inr (max_from x l')
  end.

(** [l.index(v)]. *)
Fixpoint py_index (v : Q) (l : list Q) : exn + nat :=
  match l with
  | [] => inl ValueError
  | x :: l' =>
      if Py.eq x v then inr O
      else match py_index v l' with
           | inl e => inl e
           | inr i => inr (S i)
           end
  end.

Record PlotLabels : Type := {
  best_mAP : Q;
  best_epoch : Z;
  last_mAP : Q;
  last_epoch : Z
}.

(** Lines 231-234 on the rows read from the log. *)
Definition plot_labels (series : list (Z * Q)) : exn + PlotLabels :=
  let epoch_list := map fst series in
  let mAP_list := map snd series in
  match py_max mAP_list with
  | inl e => inl e
  | inr best =>
      match py_index best mAP_list with
      | inl e => inl e
      | inr i =>
          match nth_error epoch_list i, List.last (map Some series) None with
          | Some be, Some (le, lm) =>
              inr {| best_mAP := best; best_epoch := be; last_mAP := lm; last_epoch := le |}
          | _, _ => inl RuntimeError
          end
      end
  end.

(** ** Lines 302-351: the metrics [test] collects *)

(** One detection after NMS: confidence and class (columns 4 and 5). *)
Record Detection : Type := {
  det_conf : Q;
  det_cls : Z
}.

(** One image of a batch: [output], the classes of its targets, and what
    [util.compute_metric(output[:, :6], target, iou_v)] answers for it. *)
Record Image : Type := {
  output : list Detection;
  target_cls : list Z;
  computed_metric : list (list bool)
}.

(** The tuple appended to [metrics]. *)
Record Entry : Type := {
  e_metric : list (list bool);
  e_conf : list Q;
  e_pred : list Z;
  e_target : list Z
}.

(** [iou_v.numel()]. *)
Definition n_iou : nat := 10.

(** Lines 319-338 for one image. *)
Definition image_entry (im : Image) : option Entry :=
  let metric := repeat (repeat false n_iou) (List.length (output im)) in
  match output im with
  | [] =>
      match target_cls im with
      | [] => None
      | _ => Some {| e_metric := metric; e_conf := []; e_pred := [];
                     e_target := target_cls im |}
      end
  | _ =>
      Some {| e_metric := (match target_cls im with
                           | [] => metric
                           | _ => computed_metric im
                           end);
              e_conf := map det_conf (output im);
              e_pred := map det_cls (output im);
              e_target := target_cls im |}
  end.

Fixpoint collect (images : list Image) : list Entry :=
  match images with
  | [] => []
  | im :: images' =>
      match image_entry im with
      | Some e => e :: collect images'
      | None => collect images'
      end
  end.

(** Line 344: [torch.cat] column by column; nothing when [metrics] is
    empty. *)
Definition cat_metrics (es : list Entry) : option Entry :=
  match es with
  | [] => None
  | _ => Some {| e_metric := List.concat (map e_metric es);
                 e_conf := List.concat (map e_conf es);
                 e_pred := List.concat (map e_pred es);
                 e_target := List.concat (map e_target es) |}
  end.

Definition zero_metrics : Metrics :=
  {| mean_ap := 0; map50 := 0; m_rec := 0; m_pre := 0 |}.

(** Lines 302-351: [util.compute_ap] is asked only when some match is
    true. *)
Definition test_metrics (compute_ap : Entry -> Metrics) (images : list Image) : Metrics :=
  match cat_metrics (collect images) with
  | None => zero_metrics
  | Some all =>
      if existsb (existsb (fun b : bool => b)) (e_metric all)
      then compute_ap all else zero_metrics
  end.

(** ** Lines 52-71 and 277-282: the file lists *)

(** [image_dir] is [f'{data_dir}/images/train2017/']; [lines] is
    [f.readlines()]. *)
Definition list_filenames (image_dir : string) (lines : list string) : list string :=
  map (fun filename => (image_dir ++ Text.basename (Text.rstrip filename))%string) lines.

(** Lines 61-68: [(existing_count, nonexisting_count)]. *)
Fixpoint count_files (exists_ : string -> bool) (filenames : list string) : Z * Z :=
  match filenames with
  | [] => (0, 0)
  | filepath :: rest =>
      let '(existing_count, nonexisting_count) := count_files exists_ rest in
      if exists_ filepath then (existing_count + 1, nonexisting_count)
      else (existing_count, nonexisting_count + 1)
  end.

(** ** [file_directory.py] *)

(** What the script meets outside itself. It asks about each path once,
    so a platform is given by what each call answers: [os.path.join],
    [os.path.exists], [os.listdir], the exception of [open(path, "w")]
    when it raises, and the exception of writing a text to the opened
    file, or of closing it, when that raises. *)
Record Platform : Type := {
  os_path_join : string -> string -> string;
  os_path_exists : string -> bool;
  os_listdir : string -> exn + list string;
  open_w : string -> option exn;
  write_text : string -> string -> option exn
}.

(** What the script does to the disk and prints, in order: a file
    opened for writing (created, or emptied), a text written to it,
    a line printed. The progress display of [tqdm] is left out. *)
Inductive script_event : Type :=
| Opened (file : string)
| Wrote (file text : string)
| Printed (text : string).

(** Line 5. *)
Definition base_dir : string := "D:/dataset_d/mscoco_yolo".

(** Line 8. *)
Definition subdirs : list string :=
  ["images/train2017"; "images/val2017"; "images/test2017"]%string.

(** Line 11. *)
Definition full_path (P : Platform) (subdir : string) : string :=
  os_path_join P base_dir subdir.

(** Line 12. *)
Definition output_file (P : Platform) (subdir : string) : string :=
  os_path_join P base_dir (Text.replace "images/" EmptyString subdir ++ "_paths.txt")%string.

(** Line 18. *)
Definition is_image_name (filename : string) : bool :=
  Text.endswith filename ".jpg" || Text.endswith filename ".png" ||
  Text.endswith filename ".jpeg".

(** Lines 16-17: the names the loop of line 17 goes through, none when
    the directory does not exist; [os.listdir] may raise. *)
Definition listed (P : Platform) (subdir : string) : exn + list string :=
  if os_path_exists P (full_path P subdir) then os_listdir P (full_path P subdir)
  else inr [].

(** Lines 14-19, from the names listed. *)
Definition relative_paths (subdir : string) (names : list string) : list string :=
  map (fun filename => ("./" ++ subdir ++ "/" ++ filename)%string)
      (filter is_image_name names).

(** Line 23: the text written. *)
Definition paths_text (subdir : string) (names : list string) : string :=
  Text.join (String "010"%char EmptyString) (relative_paths subdir names).

(** Lines 11-25: one turn of the loop. *)
Definition one_subdir (P : Platform) (subdir : string) : list script_event * option exn :=
  match listed P subdir with
  | inl e => ([], Some e)
  | inr names =>
      match open_w P (output_file P subdir) with
      | Some e => ([], Some e)
      | None =>
          match write_text P (output_file P subdir) (paths_text subdir names) with
          | Some e => ([Opened (output_file P subdir)], Some e)
          | None =>
              ([Opened (output_file P subdir);
                Wrote (output_file P subdir) (paths_text subdir names);
                Printed ("Saved " ++
                         Text.str (Z.of_nat (List.length (relative_paths subdir names))) ++
                         " image paths to " ++ output_file P subdir)%string],
               None)
          end
      end
  end.

(** Line 10: the loop, which an exception leaves. *)
Fixpoint for_subdirs (P : Platform) (l : list string) : list script_event * option exn :=
  match l with
  | [] => ([], None)
  | subdir :: rest =>
      match one_subdir P subdir with
      | (events, Some e) => (events, Some e)
      | (events, None) =>
          let '(events', r) := for_subdirs P rest in ((events ++ events')%list, r)
      end
  end.

(** The script. *)
Definition file_directory (P : Platform) : list script_event * option exn :=
  for_subdirs P subdirs.

(** The texts written, with their files. *)
Fixpoint texts_written (events : list script_event) : list (string * string) :=
  match events with
  | [] => []
  | Wrote file text :: rest => (file, text) :: texts_written rest
  | _ :: rest => texts_written rest
  end.

(** The file and the text of a subdirectory whose listing is [names],
    or has raised. *)
Definition text_of (P : Platform) (subdir : string) : string * string :=
  (output_file P subdir,
   paths_text subdir (match listed P subdir with inr names => names | inl _ => [] end)).

(** ** [zip_weights_directory] (lines 371-396) *)

(** The names lines 102, 208, 211 and 270 build. *)
Definition artifact_name (a : artifact) (version : string) (epochs : Z) : string :=
  (match a with
   | StepCsv => "step_" ++ version ++ "_" ++ Text.str epochs ++ ".csv"
   | LastPt => "last_" ++ version ++ "_" ++ Text.str epochs ++ ".pt"
   | BestPt => "best_" ++ version ++ "_" ++ Text.str epochs ++ ".pt"
   | MapPng => "mAP_vs_epochs_" ++ version ++ "_" ++ Text.str epochs ++ ".png"
   end)%string.

(** Line 382. *)
Definition zip_match (version : string) (epochs : Z) (filename : string) : bool :=
  Text.contains ("_" ++ version ++ "_" ++ Text.str epochs ++ ".") filename ||
  Text.contains ("_" ++ version ++ "_" ++ Text.str epochs ++ "_state_dict.") filename.

(** What the function meets in the working directory: whether
    [./weights/] exists, what [os.listdir] answers there (names of files
    and of directories alike), which paths are directories, the exception
    of opening the archive for writing when it raises, and the exception
    [ZipFile.write] raises on a path, before anything of it is stored,
    when it does (a file that is gone or cannot be opened, a time stamp
    before 1980). *)
Record Weights : Type := {
  weights_exists : bool;
  weights_listdir : exn + list string;
  isdir : string -> bool;
  zip_open : string -> option exn;
  zip_write : string -> option exn
}.

(** A member of the archive: the path read, the name stored and whether
    contents are stored with it. *)
Record member : Type := {
  read_from : string;
  stored_as : string;
  has_contents : bool
}.

(** Line 394, [zipf.write(file, os.path.basename(file))]: a regular file
    is stored with its contents under the name given; a directory is
    stored as the name followed by a slash, without contents and without
    what it holds. *)
Definition member_of (W : Weights) (file : string) : member :=
  if isdir W file
  then {| read_from := file; stored_as := (Text.basename file ++ "/")%string;
          has_contents := false |}
  else {| read_from := file; stored_as := Text.basename file; has_contents := true |}.

(** Lines 393-394: the loop, which an exception leaves. *)
Fixpoint zip_members (W : Weights) (files : list string) : list member * option exn :=
  match files with
  | [] => ([], None)
  | file :: rest =>
      match zip_write W file with
      | Some e => ([], Some e)
      | None => let '(members, r) := zip_members W rest in (member_of W file :: members, r)
      end
  end.

(** The archive left on the disk, with its name and members, if one is
    created, and the exception raised, if any. The lines printed are left
    out. *)
Definition zip_weights_directory (W : Weights) (version : string) (epochs : Z)
  : option (string * list member) * option exn :=
  if weights_exists W then
    match weights_listdir W with
    | inl e => (None, Some e)
    | inr names =>
        let files_to_zip :=
          map (Text.path_join "./weights/") (filter (zip_match version epochs) names) in
        match files_to_zip with
        | [] => (None, None)
        | _ =>
            let output_zip := ("result_" ++ version ++ "_" ++ Text.str epochs ++ ".zip")%string in
            match zip_open W output_zip with
            | Some e => (None, Some e)
            | None =>
                let '(members, r) := zip_members W files_to_zip in
                (Some (output_zip, members), r)
            end
        end
    end
  else (None, None).

(** Whether an image has detections and targets with a true match. *)
Definition has_match (im : Image) : bool :=
  match output im, target_cls im with
  | _ :: _, _ :: _ => existsb (existsb (fun b : bool => b)) (computed_metric im)
  | _, _ => false
  end.

(** ** Reading the files and the trace of a run *)

(** What the log holds once the buffer is flushed. *)
Definition log_view (w : World) : list csv_line :=
  match step_csv (fs w) with Some d => d | None => [] end ++ log_buf w.

Definition line_epoch (l : csv_line) : option Z :=
  match l with
  | Header => None
  | Row e _ _ _ _ => Some e
  end.

(** The row lines 184-191 write for an epoch evaluated to [m]. *)
Definition epoch_row (env : Env) (p : Z * Metrics) : csv_line :=
  let '(box, cls, dfl) := avg_losses env (fst p) in
  Row (fst p + 1) (Py.round3 box) (Py.round3 cls) (Py.round3 dfl) (logged (snd p)).

(** The log on disk when line 179 evaluates an epoch, the epochs of
    [evals] being done: nothing before the first flush, then the header
    and a row per epoch. *)
Definition log_at (env : Env) (evals : list (Z * Metrics)) : list csv_line :=
  match evals with
  | [] => []
  | _ => Header :: map (epoch_row env) evals
  end.

(** The epoch and the mAP of an evaluation as line 197 compares it. *)
Definition exact_point (p : Z * Metrics) : Z * Q := (fst p + 1, mean_ap (snd p)).

(** An evaluation that leaves the log and the checkpoints alone. *)
Definition keeps_records (evaluate : Z -> FS -> FS * (exn + Metrics)) : Prop :=
  forall epoch f,
    weights_dir (fst (evaluate epoch f)) = weights_dir f /\
    step_csv (fst (evaluate epoch f)) = step_csv f /\
    last_pt (fst (evaluate epoch f)) = last_pt f /\
    best_pt (fst (evaluate epoch f)) = best_pt f.

(** The calls only the process of local rank 0 makes in [train]. *)
Definition primary_call (e : event) : bool :=
  match e with
  | WriteHeader | WriteRow _ | Flush | EmaUpdate _ | Evaluate _
  | TorchSave _ _ | StripOptimizer _ => true
  | _ => false
  end.

(** What the checkpoints hold after the epochs of [series] (epoch and
    mAP, in order) with [best] the running best of line 197: [last.pt]
    is of the last epoch, [best.pt] of an epoch that reached [best] with
    only lower values after it. *)
Definition checkpoints_track (series : list (Z * Q)) (best : Q) (f : FS) : Prop :=
  (series = [] -> (best == 0)%Q) /\
  (forall e x, In (e, x) series -> (x <= best)%Q) /\
  (series <> [] ->
   (exists pre k v post,
       series = pre ++ (k, v) :: post /\ (v == best)%Q /\
       option_map ck_epoch (best_pt f) = Some k /\
       (forall e x, In (e, x) post -> (x < best)%Q)) /\
   (exists init p,
       series = init ++ [p] /\ option_map ck_epoch (last_pt f) = Some (fst p))).

(** ** Which batches an update uses *)

(** The gradients of PyTorch as the calls of [train] drive them:
    [backward] adds the batch to what the parameters hold, [zero_grad]
    clears it, and [optimizer.step] uses what is there. [grads] is what
    is held after a trace, newest first; [feeds] lists each optimizer step
    with the batches it used. *)
Fixpoint grads (pending : list Z) (tr : list event) : list Z :=
  match tr with
  | [] => pending
  | Backward k :: t => grads (k :: pending) t
  | ZeroGrad :: t => grads [] t
  | _ :: t => grads pending t
  end.

Fixpoint feeds (pending : list Z) (tr : list event) : list (Z * list Z) :=
  match tr with
  | [] => []
  | Backward k :: t => feeds (k :: pending) t
  | ZeroGrad :: t => feeds [] t
  | OptimizerStep j :: t => (j, pending) :: feeds pending t
  | _ :: t => feeds pending t
  end.

(** [hi - 1], ..., [lo]. *)
Definition descending (lo hi : Z) : list Z :=
  rev (map (fun d => lo + d) (range (hi - lo))).

(** The first step after the last multiple of [accumulate] below [hi],
    not before [base]. *)
Definition since (accumulate base hi : Z) : Z :=
  Z.max base ((hi - 1) / accumulate * accumulate + 1).

(** * Properties *)

(** ** The monad and the loops *)

Ltac out_simpl := cbn [events_of world_of result_of fst snd] in *.

Lemma bind_run {A B} (m : M A) (f : A -> M B) w :
  bind m f w =
  match result_of (m w) with
  | inl e => (events_of (m w), world_of (m w), inl e)
  | inr a => (events_of (m w) ++ events_of (f a (world_of (m w))),
              world_of (f a (world_of (m w))),
              result_of (f a (world_of (m w))))
  end.
Proof.
  unfold bind, events_of, world_of, result_of.
  destruct (m w) as [[ev w1] [e | a]]; simpl; [reflexivity |].
  destruct (f a w1) as [[ev' w2] r]; reflexivity.
Qed.

Lemma out_eta {A} (o : list event * World * (exn + A)) :
  o = (events_of o, world_of o, result_of o).
Proof. destruct o as [[ev w] r]; reflexivity. Qed.

Lemma for_fold_app {A St} (l1 l2 : list A) (s : St) (body : A -> St -> M St) w :
  for_fold (l1 ++ l2) s body w =
  bind (for_fold l1 s body) (fun s' => for_fold l2 s' body) w.
Proof.
  revert s w. induction l1 as [| x l1 IH]; intros s w; simpl.
  - unfold bind, ret.
    destruct (for_fold l2 s body w) as [[ev w'] r]; reflexivity.
  - unfold bind at 1 2 3.
    destruct (body x s w) as [[ev w1] [e | s1]]; [reflexivity |].
    rewrite IH. unfold bind.
    destruct (for_fold l1 s1 body w1) as [[ev2 w2] [e | s2]]; [reflexivity |].
    destruct (for_fold l2 s2 body w2) as [[ev3 w3] r].
    rewrite app_assoc. reflexivity.
Qed.

(** The turns of a loop that were started are a prefix of its list; a
    projection of the trace that does not depend on how a turn ends is
    the projection of those turns. *)
Lemma for_fold_prefix {A St} (P : event -> bool) (g : A -> list event)
      (body : A -> St -> M St) :
  (forall x s w, filter P (events_of (body x s w)) = g x) ->
  forall l s w, exists l1 l2,
    l = l1 ++ l2 /\
    filter P (events_of (for_fold l s body w)) = flat_map g l1 /\
    (forall s', result_of (for_fold l s body w) = inr s' -> l2 = []).
Proof.
  intros Hg. induction l as [| x l IH]; intros s w.
  - exists [], []. simpl. repeat split; reflexivity.
  - simpl. rewrite bind_run.
    destruct (result_of (body x s w)) as [e | s1] eqn:E.
    + exists [x], l. out_simpl. simpl. rewrite Hg, app_nil_r.
      repeat split; try reflexivity. intros s' H. discriminate H.
    + destruct (IH s1 (world_of (body x s w))) as (l1 & l2 & Hl & Hf & Hr).
      exists (x :: l1), l2. out_simpl. simpl. rewrite filter_app, Hg, Hf.
      split; [rewrite Hl; reflexivity |]. split; [reflexivity | exact Hr].
Qed.

(** ** [range] *)

Lemma range_nonpos n : n <= 0 -> range n = [].
Proof.
  intros H. unfold range. replace (Z.to_nat n) with 0%nat by lia. reflexivity.
Qed.

Lemma range_succ n : 0 <= n -> range (n + 1) = range n ++ [n].
Proof.
  intros H. unfold range.
  replace (Z.to_nat (n + 1)) with (Z.to_nat n + 1)%nat by lia.
  rewrite seq_app, map_app. simpl. rewrite Z2Nat.id by lia. reflexivity.
Qed.

Lemma in_range n k : In k (range n) <-> 0 <= k < n.
Proof.
  unfold range. rewrite in_map_iff. split.
  - intros (i & <- & Hi). apply in_seq in Hi. lia.
  - intros H. exists (Z.to_nat k). split; [lia |]. apply in_seq. lia.
Qed.

Lemma range_prefix n l1 l2 :
  range n = l1 ++ l2 -> exists m, 0 <= m <= Z.max 0 n /\ l1 = range m /\ (l2 = [] -> m = Z.max 0 n).
Proof.
  unfold range. intros H.
  exists (Z.of_nat (List.length l1)).
  assert (Hlen : (List.length l1 + List.length l2 = Z.to_nat n)%nat).
  { rewrite <- length_app, <- H, length_map, length_seq. reflexivity. }
  split; [lia |]. split.
  - rewrite Nat2Z.id.
    assert (Hf : firstn (List.length l1) (map Z.of_nat (seq 0 (Z.to_nat n))) = l1).
    { rewrite H. rewrite firstn_app, Nat.sub_diag, firstn_all. simpl. apply app_nil_r. }
    rewrite <- Hf at 1. rewrite <- Hlen, seq_app, map_app, firstn_app.
    rewrite length_map, length_seq, Nat.sub_diag. simpl. rewrite app_nil_r.
    rewrite <- (length_seq (List.length l1) 0) at 1.
    rewrite <- (length_map Z.of_nat). apply firstn_all.
  - intros ->. simpl in Hlen. lia.
Qed.

Lemma round_nearest q : Py.nearest_ties_even q (Py.round q).
Proof.
  unfold Py.nearest_ties_even, Py.round.
  pose proof (Qfloor_le q) as Hlo. pose proof (Qlt_floor q) as Hhi.
  set (f := Qfloor q) in *.
  assert (Hf1 : (inject_Z (f + 1) == inject_Z f + 1)%Q) by (rewrite inject_Z_plus; reflexivity).
  rewrite Hf1 in Hhi.
  destruct (Qcompare (q - inject_Z f) (1 # 2)) eqn:E.
  - apply Qeq_alt in E.
    destruct (Z.even f) eqn:Ev.
    + split.
      * rewrite E. simpl. apply Qle_refl.
      * intros _. exact Ev.
    + split.
      * rewrite Hf1.
        assert (Hd : (q - (inject_Z f + 1) == - (1 # 2))%Q) by lra.
        rewrite Hd. simpl. apply Qle_refl.
      * intros _. rewrite Z.even_add, Ev. reflexivity.
  - apply Qlt_alt in E.
    assert (Habs : (Qabs (q - inject_Z f) == q - inject_Z f)%Q).
    { apply Qabs_pos. lra. }
    split.
    + rewrite Habs. lra.
    + intros Heq. rewrite Habs in Heq. lra.
  - apply Qgt_alt in E. rewrite Hf1.
    assert (Habs : (Qabs (q - (inject_Z f + 1)) == inject_Z f + 1 - q)%Q).
    { rewrite Qabs_neg by lra. lra. }
    split.
    + rewrite Habs. lra.
    + intros Heq. rewrite Habs in Heq. lra.
Qed.

Lemma nearest_unique q z1 z2 :
  Py.nearest_ties_even q z1 -> Py.nearest_ties_even q z2 -> z1 = z2.
Proof.
  intros [H1 E1] [H2 E2].
  apply Qabs_Qle_condition in H1. apply Qabs_Qle_condition in H2.
  destruct H1 as [H1a H1b], H2 as [H2a H2b].
  assert (Hd : -1 <= z1 - z2 <= 1).
  { split; rewrite Zle_Qle; unfold Z.sub; rewrite inject_Z_plus, inject_Z_opp;
      [change (inject_Z (-1)) with (- (1))%Q | change (inject_Z 1) with 1%Q]; lra. }
  assert (Hcase : z1 = z2 \/ z1 = z2 + 1 \/ z2 = z1 + 1) by lia.
  destruct Hcase as [H | [H | H]]; [exact H | exfalso | exfalso].
  - assert (Hz : (inject_Z z1 == inject_Z z2 + 1)%Q) by (subst z1; rewrite inject_Z_plus; reflexivity).
    assert (Ha : (q - inject_Z z2 == 1 # 2)%Q) by lra.
    assert (Hb : (q - inject_Z z1 == - (1 # 2))%Q) by lra.
    assert (Ev2 : Z.even z2 = true) by (apply E2; rewrite Ha; reflexivity).
    assert (Ev1 : Z.even z1 = true) by (apply E1; rewrite Hb; reflexivity).
    subst z1. rewrite Z.even_add, Ev2 in Ev1. discriminate Ev1.
  - assert (Hz : (inject_Z z2 == inject_Z z1 + 1)%Q) by (subst z2; rewrite inject_Z_plus; reflexivity).
    assert (Ha : (q - inject_Z z1 == 1 # 2)%Q) by lra.
    assert (Hb : (q - inject_Z z2 == - (1 # 2))%Q) by lra.
    assert (Ev1 : Z.even z1 = true) by (apply E1; rewrite Ha; reflexivity).
    assert (Ev2 : Z.even z2 = true) by (apply E2; rewrite Hb; reflexivity).
    subst z2. rewrite Z.even_add, Ev1 in Ev2. discriminate Ev2.
Qed.

(** ** Counting the accumulation boundaries *)

Lemma range_add a b :
  0 <= a -> 0 <= b -> range (a + b) = range a ++ map (fun i => i + a) (range b).
Proof.
  intros Ha Hb. unfold range.
  replace (Z.to_nat (a + b)) with (Z.to_nat a + Z.to_nat b)%nat by lia.
  rewrite seq_app, map_app. f_equal.
  rewrite map_map. simpl.
  rewrite <- (Nat.add_0_r (Z.to_nat a)) at 1.
  generalize 0%nat as s. generalize (Z.to_nat b) as n.
  induction n as [| n IH]; intros s; simpl; [reflexivity |].
  f_equal; [lia |]. rewrite <- IH. f_equal. f_equal. lia.
Qed.

Lemma flat_map_map {A B C} (f : B -> list C) (g : A -> B) l :
  flat_map f (map g l) = flat_map (fun x => f (g x)) l.
Proof. induction l as [| x l IH]; simpl; [reflexivity | rewrite IH; reflexivity]. Qed.

(** The two nested loops visit the global steps [0 .. n * s - 1] in
    order. *)
Lemma nested_range {B} (f : Z -> list B) s n :
  0 <= s -> 0 <= n ->
  flat_map (fun e => flat_map (fun i => f (i + s * e)) (range s)) (range n) =
  flat_map f (range (n * s)).
Proof.
  intros Hs Hn. revert n Hn.
  apply natlike_ind.
  - reflexivity.
  - intros n Hn IH.
    change (Z.succ n) with (n + 1). rewrite range_succ by lia.
    rewrite flat_map_app, IH. simpl. rewrite app_nil_r.
    replace ((n + 1) * s) with (n * s + s) by lia.
    rewrite range_add by nia. rewrite flat_map_app, flat_map_map.
    f_equal. apply flat_map_ext. intros i. f_equal. lia.
Qed.

Lemma boundaries_count a n :
  1 <= a -> 0 <= n ->
  Z.of_nat (List.length (filter (fun k => k mod a =? 0) (range n))) = (n + a - 1) / a.
Proof.
  intros Ha. revert n. apply natlike_ind.
  - simpl. symmetry. apply Z.div_small. lia.
  - intros n Hn IH. change (Z.succ n) with (n + 1). rewrite range_succ by lia.
    rewrite filter_app, length_app, Nat2Z.inj_add, IH. simpl.
    pose proof (Z.div_mod n a ltac:(lia)) as Hdm.
    pose proof (Z.mod_pos_bound n a ltac:(lia)) as Hb.
    destruct (Z.eqb_spec (n mod a) 0) as [E | E]; simpl.
    + replace (n + a - 1) with (a * (n / a) + (a - 1)) by lia.
      replace (n + 1 + a - 1) with (a * (n / a + 1) + 0) by lia.
      rewrite !(Z.mul_comm a), !Z.div_add_l by lia.
      rewrite (Z.div_small (a - 1)), (Z.div_small 0) by lia. lia.
    + replace (n + a - 1) with (a * (n / a + 1) + (n mod a - 1)) by lia.
      replace (n + 1 + a - 1) with (a * (n / a + 1) + n mod a) by lia.
      rewrite !(Z.mul_comm a), !Z.div_add_l by lia.
      rewrite (Z.div_small (n mod a - 1)), (Z.div_small (n mod a)) by lia. lia.
Qed.

Lemma filter_sub {A} (P R : A -> bool) l :
  (forall e, P e = true -> R e = true) -> filter P (filter R l) = filter P l.
Proof.
  intros H. induction l as [| x l IH]; simpl; [reflexivity |].
  destruct (R x) eqn:ER; simpl.
  - rewrite IH. reflexivity.
  - destruct (P x) eqn:EP; [| exact IH].
    apply H in EP. congruence.
Qed.

Lemma filter_none {A} (P : A -> bool) l :
  Forall (fun e => P e = false) l -> filter P l = [].
Proof.
  induction 1 as [| x l Hx _ IH]; simpl; [reflexivity |].
  rewrite Hx. exact IH.
Qed.

Lemma in_filter_count (P : event -> bool) e tr :
  P e = true -> (In e tr <-> In e (filter P tr)).
Proof. intros H. rewrite filter_In. tauto. Qed.

(** ** One batch, one epoch of batches *)

Section Batches.

Variable env : Env.
Variable accumulate : Z.
Variable ema : bool.

Lemma micro_step_backward k :
  filter is_backward (micro_step env accumulate ema k) = [Backward k].
Proof.
  unfold micro_step, scaler_step.
  destruct (k mod accumulate =? 0), (overflow env k), ema; reflexivity.
Qed.

Lemma micro_step_scaler k :
  filter is_scaler_step (micro_step env accumulate ema k) =
  if k mod accumulate =? 0 then [ScalerStep k] else [].
Proof.
  unfold micro_step, scaler_step.
  destruct (k mod accumulate =? 0), (overflow env k), ema; reflexivity.
Qed.

Lemma micro_step_ema k :
  filter is_ema_update (micro_step env accumulate ema k) =
  if (k mod accumulate =? 0) && ema then [EmaUpdate k] else [].
Proof.
  unfold micro_step, scaler_step.
  destruct (k mod accumulate =? 0), (overflow env k), ema; reflexivity.
Qed.

Lemma micro_step_optimizer k :
  filter is_optimizer_step (micro_step env accumulate ema k) =
  if (k mod accumulate =? 0) && negb (overflow env k) then [OptimizerStep k] else [].
Proof.
  unfold micro_step, scaler_step.
  destruct (k mod accumulate =? 0), (overflow env k), ema; reflexivity.
Qed.

Lemma micro_step_kinds k :
  Forall (fun e => batch_call e = true \/ e = ZeroGrad) (micro_step env accumulate ema k).
Proof.
  unfold micro_step, scaler_step.
  destruct (k mod accumulate =? 0), (overflow env k), ema; simpl;
    repeat (apply Forall_cons; [first [left; reflexivity | right; reflexivity] |]);
    apply Forall_nil.
Qed.

Lemma epoch_steps_kinds epoch :
  Forall (fun e => batch_call e = true \/ e = ZeroGrad) (epoch_steps env accumulate ema epoch).
Proof.
  unfold epoch_steps. apply Forall_flat_map. apply Forall_forall.
  intros i _. apply micro_step_kinds.
Qed.

(** The batches of [n] epochs are the global steps below
    [n * num_steps], each once and in order. *)
Lemma run_steps_flat n :
  run_steps env accumulate ema n =
  flat_map (micro_step env accumulate ema) (range (Z.max 0 n * Z.max 0 (num_steps env))).
Proof.
  unfold run_steps, epoch_steps.
  destruct (Z.le_gt_cases 0 n) as [Hn | Hn].
  - destruct (Z.le_gt_cases 0 (num_steps env)) as [Hs | Hs].
    + rewrite !Z.max_r by lia. apply nested_range; assumption.
    + rewrite (Z.max_l 0 (num_steps env)) by lia.
      rewrite Z.mul_0_r. simpl.
      rewrite (range_nonpos (num_steps env)) by lia. simpl.
      induction (range n) as [| x l IH]; simpl; [reflexivity | exact IH].
  - rewrite (range_nonpos n) by lia. rewrite (Z.max_l 0 n) by lia. reflexivity.
Qed.

Lemma flat_steps_backward l :
  filter is_backward (flat_map (micro_step env accumulate ema) l) = map Backward l.
Proof.
  induction l as [| k l IH]; [reflexivity |].
  cbn [flat_map map]. rewrite filter_app, micro_step_backward, IH. reflexivity.
Qed.

Lemma flat_steps_scaler l :
  filter is_scaler_step (flat_map (micro_step env accumulate ema) l) =
  map ScalerStep (filter (fun k => k mod accumulate =? 0) l).
Proof.
  induction l as [| k l IH]; [reflexivity |].
  cbn [flat_map map filter]. rewrite filter_app, micro_step_scaler, IH.
  destruct (k mod accumulate =? 0); reflexivity.
Qed.

Lemma flat_steps_ema l :
  filter is_ema_update (flat_map (micro_step env accumulate ema) l) =
  if ema then map EmaUpdate (filter (fun k => k mod accumulate =? 0) l) else [].
Proof.
  induction l as [| k l IH]; [destruct ema; reflexivity |].
  cbn [flat_map map filter]. rewrite filter_app, micro_step_ema, IH.
  destruct (k mod accumulate =? 0), ema; reflexivity.
Qed.

Lemma flat_steps_optimizer l :
  filter is_optimizer_step (flat_map (micro_step env accumulate ema) l) =
  map OptimizerStep
      (filter (fun k => (k mod accumulate =? 0) && negb (overflow env k)) l).
Proof.
  induction l as [| k l IH]; [reflexivity |].
  cbn [flat_map map filter]. rewrite filter_app, micro_step_optimizer, IH.
  destruct ((k mod accumulate =? 0) && negb (overflow env k)); reflexivity.
Qed.

End Batches.

(** ** One turn of the epoch loop *)

Section EpochFacts.

Variable env : Env.
Variable args : Args.
Variable evaluate : Z -> FS -> FS * (exn + Metrics).


Lemma epoch_end_events epoch best w :
  events_of (epoch_end env evaluate epoch best w) =
  end_events epoch best (snd (evaluate epoch (fs w))).
Proof.
  unfold epoch_end, end_events, run_eval, write_row, flush, save_checkpoints,
    when, bind, torch_save, ret.
  destruct (evaluate epoch (fs w)) as [f' [e | m]]; [reflexivity |].
  destruct (avg_losses env epoch) as [[box cls] dfl]. cbn [snd].
  destruct (Py.eq (update_best best (mean_ap m)) (mean_ap m)); reflexivity.
Qed.

Lemma epoch_end_mosaic epoch best w :
  mosaic (world_of (epoch_end env evaluate epoch best w)) = mosaic w.
Proof.
  unfold epoch_end, run_eval, write_row, flush, save_checkpoints,
    when, bind, torch_save, ret.
  destruct (evaluate epoch (fs w)) as [f' [e | m]]; [reflexivity |].
  destruct (avg_losses env epoch) as [[box cls] dfl].
  destruct (Py.eq (update_best best (mean_ap m)) (mean_ap m)); reflexivity.
Qed.

Lemma end_events_no_batch epoch best r :
  Forall (fun e => batch_call e = false /\ is_mosaic_off e = false /\
                   main_only e = false /\ e <> ZeroGrad)
         (end_events epoch best r).
Proof.
  unfold end_events. destruct r as [e | m].
  - repeat constructor; discriminate.
  - destruct (Py.eq (update_best best (mean_ap m)) (mean_ap m)); simpl;
      repeat constructor; discriminate.
Qed.

(** What one turn of the loop writes, however it ends. *)
Lemma epoch_body_events accumulate ema epoch best w :
  events_of (epoch_body env args evaluate accumulate ema epoch best w) =
  (if distributed args then [SamplerSetEpoch epoch] else []) ++
  (if epochs args - epoch =? 10 then [MosaicOff epoch] else []) ++
  ZeroGrad :: epoch_steps env accumulate ema epoch ++
  (if local_rank args =? 0
   then end_events epoch best (snd (evaluate epoch (fs w))) else []).
Proof.
  unfold epoch_body, mosaic_switch, when.
  rewrite !bind_run.
  destruct (distributed args), (epochs args - epoch =? 10);
    unfold emit, emits, modify, ret, bind; out_simpl;
    (destruct (local_rank args =? 0);
     [ rewrite epoch_end_events; reflexivity
     | out_simpl; rewrite ?app_nil_r; reflexivity ]).
Qed.

(** The flag after a turn: switched off when ten epochs remain, left
    as it was otherwise. *)
Lemma epoch_body_mosaic accumulate ema epoch best w :
  mosaic (world_of (epoch_body env args evaluate accumulate ema epoch best w)) =
  if epochs args - epoch =? 10 then false else mosaic w.
Proof.
  unfold epoch_body, mosaic_switch, when.
  rewrite !bind_run.
  destruct (distributed args), (epochs args - epoch =? 10);
    unfold emit, emits, modify, ret, bind; out_simpl;
    (destruct (local_rank args =? 0);
     [ rewrite epoch_end_mosaic; reflexivity | reflexivity ]).
Qed.

Lemma epoch_end_result epoch best w :
  result_of (epoch_end env evaluate epoch best w) =
  match snd (evaluate epoch (fs w)) with
  | inl e => inl e
  | inr m => inr (update_best best (mean_ap m))
  end.
Proof.
  unfold epoch_end, run_eval, write_row, flush, save_checkpoints,
    when, bind, torch_save, ret.
  destruct (evaluate epoch (fs w)) as [f' [e | m]]; [reflexivity |].
  destruct (avg_losses env epoch) as [[box cls] dfl]. cbn [snd].
  destruct (Py.eq (update_best best (mean_ap m)) (mean_ap m)); reflexivity.
Qed.

(** How a turn ends: as the evaluation does on local rank 0, and
    normally elsewhere. *)
Lemma epoch_body_result accumulate ema epoch best w :
  result_of (epoch_body env args evaluate accumulate ema epoch best w) =
  if local_rank args =? 0
  then match snd (evaluate epoch (fs w)) with
       | inl e => inl e
       | inr m => inr (update_best best (mean_ap m))
       end
  else inr best.
Proof.
  unfold epoch_body, mosaic_switch, when.
  rewrite !bind_run.
  destruct (distributed args), (epochs args - epoch =? 10);
    unfold emit, emits, modify, ret, bind; out_simpl;
    (destruct (local_rank args =? 0);
     [ rewrite epoch_end_result; reflexivity | reflexivity ]).
Qed.

Lemma epoch_body_batches accumulate ema epoch best w :
  filter batch_call (events_of (epoch_body env args evaluate accumulate ema epoch best w)) =
  filter batch_call (epoch_steps env accumulate ema epoch).
Proof.
  rewrite epoch_body_events, !filter_app.
  replace (filter batch_call (if distributed args then [SamplerSetEpoch epoch] else []))
    with (@nil event) by (destruct (distributed args); reflexivity).
  replace (filter batch_call (if epochs args - epoch =? 10 then [MosaicOff epoch] else []))
    with (@nil event) by (destruct (epochs args - epoch =? 10); reflexivity).
  cbn [app filter batch_call]. rewrite filter_app.
  rewrite (filter_none batch_call (if local_rank args =? 0 then _ else _)).
  - apply app_nil_r.
  - destruct (local_rank args =? 0); [| constructor].
    eapply Forall_impl; [| apply end_events_no_batch]. intros e H; apply H.
Qed.

Lemma epoch_body_mosaic_off accumulate ema epoch best w :
  filter is_mosaic_off (events_of (epoch_body env args evaluate accumulate ema epoch best w)) =
  if epochs args - epoch =? 10 then [MosaicOff epoch] else [].
Proof.
  rewrite epoch_body_events, !filter_app.
  replace (filter is_mosaic_off (if distributed args then [SamplerSetEpoch epoch] else []))
    with (@nil event) by (destruct (distributed args); reflexivity).
  cbn [app filter is_mosaic_off]. rewrite filter_app.
  rewrite (filter_none is_mosaic_off (epoch_steps _ _ _ _)).
  - rewrite (filter_none is_mosaic_off (if local_rank args =? 0 then _ else _)).
    + destruct (epochs args - epoch =? 10); reflexivity.
    + destruct (local_rank args =? 0); [| constructor].
      eapply Forall_impl; [| apply end_events_no_batch]. intros e H; apply H.
  - eapply Forall_impl; [| apply epoch_steps_kinds].
    intros e [H | ->]; [destruct e; simpl in *; congruence | reflexivity].
Qed.

End EpochFacts.

(** ** The whole of [train] *)

Section TrainFacts.

Variable env : Env.
Variable args : Args.
Variable evaluate : Z -> FS -> FS * (exn + Metrics).

(** [train] once it has passed its preamble, in terms of its epoch
    loop. *)
Lemma train_with_eq accumulate wd w :
  supported (version args) = true ->
  accumulate_of (batch_size args) (world_size args) = inr accumulate ->
  scale_weight_decay (weight_decay w) (batch_size args) (world_size args) accumulate = inr wd ->
  weights_dir (fs w) = true ->
  train_with env args evaluate w =
  let pre := MakeSGD wd ::
             OpenWrite StepCsv :: (if (local_rank args =? 0) then [WriteHeader] else []) in
  match epoch_loop env args evaluate accumulate (local_rank args =? 0) (start_world env args accumulate w) with
  | (ev, w2, inl e) => (pre ++ ev ++ [CloseLog], flush_world w2, inl e)
  | (ev, w2, inr _) =>
      if (local_rank args =? 0)
      then (pre ++ ev ++ [CloseLog; StripOptimizer LastPt; StripOptimizer BestPt],
            world_of ((strip_optimizer LastPt ;; strip_optimizer BestPt) (flush_world w2)),
            inr tt)
      else (pre ++ ev ++ [CloseLog], flush_world w2, inr tt)
  end.
Proof.
  intros Hsup Hacc Hscale Hdir.
  unfold train_with. rewrite Hsup. cbn [negb].
  unfold bind at 1. unfold lift at 1. rewrite Hacc.
  unfold bind at 1. cbv beta. rewrite Hscale.
  unfold bind at 1. unfold lift at 1. unfold modify at 1.
  unfold bind at 1. unfold emit at 1.
  unfold bind at 1. unfold modify at 1.
  unfold bind at 1. unfold with_log, open_log.
  cbn [fs set_mosaic set_weight_decay set_fs weight_decay]. rewrite Hdir.
  unfold start_world. rewrite Hscale.
  destruct (local_rank args =? 0) eqn:Er.
  - unfold when at 1. unfold bind at 1. unfold write_header at 1.
    cbn [log_buf set_log_buf app].
    match goal with |- context [epoch_loop _ _ _ _ _ ?w1] => set (w' := w1) end.
    destruct (epoch_loop env args evaluate accumulate true w') as [[ev w2] [e | b]];
      cbn [app]; [reflexivity |].
    unfold when, bind, strip_optimizer. out_simpl.
    rewrite <- !app_assoc. reflexivity.
  - unfold when at 1. unfold bind at 1. unfold ret at 1.
    cbn [log_buf set_log_buf app].
    match goal with |- context [epoch_loop _ _ _ _ _ ?w1] => set (w' := w1) end.
    destruct (epoch_loop env args evaluate accumulate false w') as [[ev w2] [e | b]];
      cbn [app]; [reflexivity |].
    unfold when, ret. rewrite !app_nil_r. reflexivity.
Qed.

Lemma train_with_run accumulate wd w :
  supported (version args) = true ->
  accumulate_of (batch_size args) (world_size args) = inr accumulate ->
  scale_weight_decay (weight_decay w) (batch_size args) (world_size args) accumulate = inr wd ->
  weights_dir (fs w) = true ->
  let o := epoch_loop env args evaluate accumulate (local_rank args =? 0) (start_world env args accumulate w) in
  events_of (train_with env args evaluate w) =
    (MakeSGD wd ::
     OpenWrite StepCsv :: (if (local_rank args =? 0) then [WriteHeader] else [])) ++
    events_of o ++
    CloseLog :: (match result_of o with
                 | inr _ => if (local_rank args =? 0) then [StripOptimizer LastPt; StripOptimizer BestPt] else []
                 | inl _ => []
                 end) /\
  result_of (train_with env args evaluate w) =
    match result_of o with inl e => inl e | inr _ => inr tt end /\
  mosaic (world_of (train_with env args evaluate w)) = mosaic (world_of o).
Proof.
  intros Hsup Hacc Hscale Hdir o. subst o.
  rewrite (train_with_eq accumulate wd w Hsup Hacc Hscale Hdir). cbv zeta.
  destruct (epoch_loop env args evaluate accumulate (local_rank args =? 0) (start_world env args accumulate w))
    as [[ev w2] [e | b]]; out_simpl.
  - repeat split; reflexivity.
  - destruct (local_rank args =? 0); out_simpl; repeat split; reflexivity.
Qed.

(** When the weight decay cannot be scaled, [train] ends there: no
    optimizer, no file touched, the weight decay as it was. *)
Lemma train_with_overflow accumulate e w :
  supported (version args) = true ->
  accumulate_of (batch_size args) (world_size args) = inr accumulate ->
  scale_weight_decay (weight_decay w) (batch_size args) (world_size args) accumulate = inl e ->
  train_with env args evaluate w = ([], w, inl e).
Proof.
  intros Hsup Hacc Hscale.
  unfold train_with. rewrite Hsup. cbn [negb].
  unfold bind at 1. unfold lift at 1. rewrite Hacc.
  unfold bind at 1. cbv beta. rewrite Hscale.
  unfold bind at 1. unfold lift at 1. reflexivity.
Qed.

(** Before the epoch loop is reached [train] writes at most the
    optimizer's construction. *)
Lemma train_with_early w :
  supported (version args) = false \/
  (exists e, accumulate_of (batch_size args) (world_size args) = inl e) \/
  (exists a e, accumulate_of (batch_size args) (world_size args) = inr a /\
               scale_weight_decay (weight_decay w) (batch_size args) (world_size args) a = inl e) \/
  weights_dir (fs w) = false ->
  (exists e, result_of (train_with env args evaluate w) = inl e) /\
  Forall (fun e => around_loop e = true) (events_of (train_with env args evaluate w)).
Proof.
  destruct (supported (version args)) eqn:Hsup.
  - destruct (accumulate_of (batch_size args) (world_size args)) as [e | a] eqn:Hacc.
    + intros _. unfold train_with. rewrite Hsup, Hacc. cbn [negb].
      unfold bind, lift. out_simpl. split; [eauto | constructor].
    + destruct (scale_weight_decay (weight_decay w) (batch_size args) (world_size args) a)
        as [e | wd] eqn:Hscale.
      * intros _. rewrite (train_with_overflow a e w Hsup Hacc Hscale). out_simpl.
        split; [eauto | constructor].
      * intros [H | [[e H] | [(a' & e & Ha & H) | H]]]; try discriminate.
        { injection Ha as <-. congruence. }
        match goal with
        | |- (exists e, result_of ?t = inl e) /\ _ =>
            enough (Heq : exists w1, t = ([MakeSGD wd], w1, inl FileNotFoundError))
        end.
        { destruct Heq as (w1 & ->). out_simpl.
          split; [eauto | repeat constructor]. }
        eexists.
        unfold train_with. rewrite Hsup. cbn [negb].
        unfold bind at 1. unfold lift at 1. rewrite Hacc.
        unfold bind at 1. cbv beta. rewrite Hscale.
        unfold bind at 1. unfold lift at 1. unfold modify at 1.
        unfold bind at 1. unfold emit at 1.
        unfold bind at 1. unfold modify at 1.
        unfold bind at 1. unfold with_log, open_log.
        cbn [fs set_mosaic set_weight_decay set_fs weight_decay]. rewrite H.
        reflexivity.
  - intros _. unfold train_with. rewrite Hsup. cbn [negb].
    unfold raise. out_simpl. split; [eauto | constructor].
Qed.

(** A projection of the trace that the calls around the loop do not
    meet, and that does not depend on how an epoch ends, is the
    projection of the epochs that were started. *)
Lemma train_with_proj (P : event -> bool) (g : Z -> list event) accumulate w :
  (forall e, around_loop e = true -> P e = false) ->
  accumulate_of (batch_size args) (world_size args) = inr accumulate ->
  (forall x s w', filter P (events_of (epoch_body env args evaluate accumulate (local_rank args =? 0) x s w')) = g x) ->
  exists n, 0 <= n <= Z.max 0 (epochs args) /\
    filter P (events_of (train_with env args evaluate w)) = flat_map g (range n) /\
    (forall u, result_of (train_with env args evaluate w) = inr u -> n = Z.max 0 (epochs args)).
Proof.
  intros HP Hacc Hg.
  assert (Hearly : (exists e, result_of (train_with env args evaluate w) = inl e) /\
                   Forall (fun e => around_loop e = true)
                          (events_of (train_with env args evaluate w)) ->
                   exists n, 0 <= n <= Z.max 0 (epochs args) /\
                     filter P (events_of (train_with env args evaluate w)) = flat_map g (range n) /\
                     (forall u, result_of (train_with env args evaluate w) = inr u ->
                                n = Z.max 0 (epochs args))).
  { intros [[e He] Hall]. exists 0. split; [lia |]. split.
    - apply filter_none. eapply Forall_impl; [| exact Hall]. exact HP.
    - intros u Hu. congruence. }
  destruct (supported (version args)) eqn:Hsup;
    [destruct (scale_weight_decay (weight_decay w) (batch_size args) (world_size args)
                 accumulate) as [e | wd] eqn:Hscale;
     [| destruct (weights_dir (fs w)) eqn:Hdir] |];
    try (apply Hearly, train_with_early; eauto 7; fail).
  - clear Hearly.
    destruct (train_with_run accumulate wd w Hsup Hacc Hscale Hdir) as (Hev & Hres & _).
    cbv zeta in Hev, Hres.
    unfold epoch_loop, first_epochs in Hev, Hres.
    destruct (for_fold_prefix P g (epoch_body env args evaluate accumulate (local_rank args =? 0)) Hg
                (range (epochs args)) 0%Q (start_world env args accumulate w))
      as (l1 & l2 & Hl & Hf & Hdone).
    destruct (range_prefix _ _ _ Hl) as (n & Hn & -> & Hfull).
    exists n. split; [exact Hn |]. split.
    + rewrite Hev, !filter_app, Hf.
      rewrite (filter_none P (MakeSGD _ :: _)).
      * cbn [app filter]. rewrite (HP CloseLog eq_refl).
        rewrite (filter_none P (match _ with inl _ => _ | inr _ => _ end)).
        -- apply app_nil_r.
        -- destruct (result_of _); [constructor |].
           destruct (local_rank args =? 0); repeat constructor; apply HP; reflexivity.
      * destruct (local_rank args =? 0); repeat constructor; apply HP; reflexivity.
    + intros u Hu. rewrite Hu in Hres. apply Hfull.
      destruct (result_of (for_fold _ _ _ _)) as [e | b] eqn:Er; [discriminate |].
      eapply Hdone. reflexivity.
Qed.

Lemma filter_flat_map {A} (P : event -> bool) (f : A -> list event) l :
  filter P (flat_map f l) = flat_map (fun x => filter P (f x)) l.
Proof.
  induction l as [| x l IH]; simpl; [reflexivity |].
  rewrite filter_app, IH. reflexivity.
Qed.

(** The batch calls of a run of [train] are those of the global steps
    [0 .. n * num_steps - 1], for the [n] epochs that were started. *)
Lemma train_batches accumulate w :
  accumulate_of (batch_size args) (world_size args) = inr accumulate ->
  exists n, 0 <= n <= Z.max 0 (epochs args) /\
    (forall u, result_of (train_with env args evaluate w) = inr u -> n = Z.max 0 (epochs args)) /\
    forall P, (forall e, P e = true -> batch_call e = true) ->
      filter P (events_of (train_with env args evaluate w)) =
      filter P (flat_map (micro_step env accumulate (local_rank args =? 0))
                         (range (n * Z.max 0 (num_steps env)))).
Proof.
  intros Hacc.
  destruct (train_with_proj batch_call
              (fun x => filter batch_call (epoch_steps env accumulate (local_rank args =? 0) x))
              accumulate w) as (n & Hn & Hev & Hdone).
  - intros e He. destruct e; simpl in *; congruence.
  - exact Hacc.
  - intros x s w'. apply epoch_body_batches.
  - exists n. split; [exact Hn |]. split; [exact Hdone |].
    intros P HP.
    rewrite <- (filter_sub P batch_call _ HP), Hev.
    rewrite <- filter_flat_map.
    change (flat_map (epoch_steps env accumulate (local_rank args =? 0)) (range n))
      with (run_steps env accumulate (local_rank args =? 0) n).
    rewrite run_steps_flat, (Z.max_r 0 n) by lia.
    apply filter_sub. exact HP.
Qed.

End TrainFacts.

(** * The properties of the specification *)

Lemma accumulate_of_ge_1 b ws a : accumulate_of b ws = inr a -> 1 <= a.
Proof.
  unfold accumulate_of. destruct (b * ws =? 0); [discriminate |].
  intros H. injection H as <-. lia.
Qed.

Lemma train_with_first_event env args evaluate w a wd :
  supported (version args) = true ->
  accumulate_of (batch_size args) (world_size args) = inr a ->
  scale_weight_decay (weight_decay w) (batch_size args) (world_size args) a = inr wd ->
  exists rest, events_of (train_with env args evaluate w) = MakeSGD wd :: rest.
Proof.
  intros Hsup Hacc Hscale.
  destruct (weights_dir (fs w)) eqn:Hdir.
  - destruct (train_with_run env args evaluate a wd w Hsup Hacc Hscale Hdir) as (Hev & _).
    cbv zeta in Hev. rewrite Hev. cbn [app]. eexists. reflexivity.
  - unfold train_with. rewrite Hsup. cbn [negb].
    unfold bind at 1. unfold lift at 1. rewrite Hacc.
    unfold bind at 1. cbv beta. rewrite Hscale.
    unfold bind at 1. unfold lift at 1. unfold modify at 1.
    unfold bind at 1. unfold emit at 1.
    unfold bind at 1. unfold modify at 1.
    unfold bind at 1. unfold with_log, open_log.
    cbn [fs set_mosaic set_weight_decay set_fs weight_decay]. rewrite Hdir.
    out_simpl. eexists. reflexivity.
Qed.

Lemma int_div_64_error n e : Py.int_div_64 n = inl e -> e = OverflowError.
Proof.
  unfold Py.int_div_64.
  destruct (binary_normalize Py.prec Py.emax n (-6) false); congruence.
Qed.

(** C8 (amended). For batch size and world size at least 1 the
    accumulation count of [train] is [max(r, 1)] for the integer [r]
    nearest to [64 / (batch_size * world_size)] (ties to even), so it is
    at least 1. The weight decay is then multiplied, in double precision,
    by [batch_size * world_size * accumulate / 64]: when that quotient is
    a double the optimizer is constructed, first of all, with the rounded
    product; when it is too large for a double, [train] raises
    [OverflowError] there, with no optimizer constructed and the weight
    decay as it was. *)
Theorem C8_accumulate_and_weight_decay env args evaluate w :
  1 <= batch_size args -> 1 <= world_size args ->
  supported (version args) = true ->
  exists acc,
    accumulate_of (batch_size args) (world_size args) = inr acc /\
    Py.nearest_ties_even
      (inject_Z 64 / inject_Z (batch_size args * world_size args))
      (Py.round (inject_Z 64 / inject_Z (batch_size args * world_size args))) /\
    (forall r,
        Py.nearest_ties_even (inject_Z 64 / inject_Z (batch_size args * world_size args)) r ->
        acc = Z.max r 1) /\
    1 <= acc /\
    match Py.int_div_64 (batch_size args * world_size args * acc) with
    | inr factor =>
        exists rest,
          events_of (train_with env args evaluate w) =
            MakeSGD (Py.fmul (weight_decay w) factor) :: rest
    | inl e =>
        e = OverflowError /\
        train_with env args evaluate w = ([], w, inl OverflowError)
    end.
Proof.
  intros Hb Hw Hsup.
  assert (Hacc : accumulate_of (batch_size args) (world_size args) =
                 inr (Z.max (Py.round (inject_Z 64 / inject_Z (batch_size args * world_size args))) 1)).
  { unfold accumulate_of.
    destruct (Z.eqb_spec (batch_size args * world_size args) 0) as [E | E]; [nia | reflexivity]. }
  eexists. split; [exact Hacc |].
  split; [apply round_nearest |].
  split.
  { intros r Hr. f_equal. eapply nearest_unique; [apply round_nearest | exact Hr]. }
  split; [lia |].
  destruct (Py.int_div_64 _) as [e | factor] eqn:Hdiv.
  - pose proof (int_div_64_error _ _ Hdiv) as ->.
    split; [reflexivity |].
    apply (train_with_overflow env args evaluate _ OverflowError w Hsup Hacc).
    unfold scale_weight_decay. rewrite Hdiv. reflexivity.
  - apply (train_with_first_event env args evaluate w _ _ Hsup Hacc).
    unfold scale_weight_decay. rewrite Hdiv. reflexivity.
Qed.

Lemma C8_accumulate_and_weight_decay_witness :
  1 <= batch_size (Sample.args 0 1 24 2 "n") /\
  1 <= world_size (Sample.args 0 1 24 2 "n") /\
  supported (version (Sample.args 0 1 24 2 "n")) = true /\
  exists acc,
    accumulate_of (batch_size (Sample.args 0 1 24 2 "n")) (world_size (Sample.args 0 1 24 2 "n"))
      = inr acc /\
    1 <= acc /\
    match Py.int_div_64 (batch_size (Sample.args 0 1 24 2 "n") *
                         world_size (Sample.args 0 1 24 2 "n") * acc) with
    | inr factor =>
        exists rest,
          events_of (train Sample.env (Sample.args 0 1 24 2 "n") Sample.world) =
            MakeSGD (Py.fmul (weight_decay Sample.world) factor) :: rest
    | inl e =>
        e = OverflowError /\
        train Sample.env (Sample.args 0 1 24 2 "n") Sample.world = ([], Sample.world, inl OverflowError)
    end.
Proof.
  assert (Hb : 1 <= batch_size (Sample.args 0 1 24 2 "n")) by (simpl; lia).
  assert (Hw : 1 <= world_size (Sample.args 0 1 24 2 "n")) by (simpl; lia).
  split; [exact Hb |]. split; [exact Hw |]. split; [reflexivity |].
  destruct (C8_accumulate_and_weight_decay Sample.env (Sample.args 0 1 24 2 "n")
              (fun ep => test Sample.env true (ap_result Sample.env ep)) Sample.world Hb Hw eq_refl)
    as (acc & Hacc & _ & _ & Hge & Hscale).
  exists acc. split; [exact Hacc |]. split; [exact Hge | exact Hscale].
Defined.

(** C8, against the exact product and the optimizer being reached for
    every batch size. With batch size 24 the accumulation count is 3 and
    the factor 1.125: the product with the double 0.0005 is rounded, to
    0.0005625000000000001 (mantissa 5188146770730812), which is not the
    double of 0.0005625 (mantissa 5188146770730811). With batch size
    [10 ^ 400] the accumulation count is 1 and the quotient by 64 is too
    large for a double: [train] raises [OverflowError] and constructs no
    optimizer. *)
Lemma C8_product_rounds_or_overflows :
  accumulate_of 24 1 = inr 3 /\
  events_of (train Sample.env (Sample.args 0 1 24 1 "n") Sample.world) =
    MakeSGD (S754_finite false 5188146770730812 (-63)) ::
    tl (events_of (train Sample.env (Sample.args 0 1 24 1 "n") Sample.world)) /\
  SFdiv Py.prec Py.emax (binary_normalize Py.prec Py.emax 5625 0 false)
        (binary_normalize Py.prec Py.emax 10000000 0 false) =
    S754_finite false 5188146770730811 (-63) /\
  accumulate_of (10 ^ 400) 1 = inr 1 /\
  train Sample.env (Sample.args 0 1 (10 ^ 400) 1 "n") Sample.world =
    ([], Sample.world, inl OverflowError).
Proof. repeat split; vm_compute; reflexivity. Qed.

Lemma in_map_inj {A B} (f : A -> B) (Hf : forall x y, f x = f y -> x = y) k l :
  In (f k) (map f l) <-> In k l.
Proof.
  rewrite in_map_iff. split.
  - intros (x & Hx & Hin). apply Hf in Hx. subst x. exact Hin.
  - intros H. exists k. split; [reflexivity | exact H].
Qed.

Lemma length_range n : Z.of_nat (List.length (range n)) = Z.max 0 n.
Proof. unfold range. rewrite length_map, length_seq. lia. Qed.

(** The batch calls in a run of [train], kind by kind. *)
Lemma train_steps_shape env args evaluate w accumulate :
  accumulate_of (batch_size args) (world_size args) = inr accumulate ->
  let tr := events_of (train_with env args evaluate w) in
  exists M, 0 <= M /\
    filter is_backward tr = map Backward (range M) /\
    filter is_scaler_step tr =
      map ScalerStep (filter (fun k => k mod accumulate =? 0) (range M)) /\
    filter is_ema_update tr =
      (if local_rank args =? 0
       then map EmaUpdate (filter (fun k => k mod accumulate =? 0) (range M)) else []) /\
    filter is_optimizer_step tr =
      map OptimizerStep
          (filter (fun k => (k mod accumulate =? 0) && negb (overflow env k)) (range M)) /\
    (forall u, result_of (train_with env args evaluate w) = inr u ->
               M = Z.max 0 (epochs args) * Z.max 0 (num_steps env)).
Proof.
  intros Hacc tr.
  destruct (train_batches env args evaluate accumulate w Hacc) as (n & Hn & Hdone & Hproj).
  exists (n * Z.max 0 (num_steps env)).
  split; [nia |].
  subst tr.
  repeat split.
  - rewrite Hproj by (intros e He; destruct e; simpl in *; congruence).
    apply flat_steps_backward.
  - rewrite Hproj by (intros e He; destruct e; simpl in *; congruence).
    apply flat_steps_scaler.
  - rewrite Hproj by (intros e He; destruct e; simpl in *; congruence).
    apply flat_steps_ema.
  - rewrite Hproj by (intros e He; destruct e; simpl in *; congruence).
    apply flat_steps_optimizer.
  - intros u Hu. rewrite (Hdone u Hu). reflexivity.
Qed.

(** The batch calls of the first [n] epochs, kind by kind. *)
Lemma run_steps_shape env accumulate ema n :
  let tr := run_steps env accumulate ema n in
  let M := Z.max 0 n * Z.max 0 (num_steps env) in
  filter is_backward tr = map Backward (range M) /\
  filter is_scaler_step tr =
    map ScalerStep (filter (fun k => k mod accumulate =? 0) (range M)) /\
  filter is_ema_update tr =
    (if ema then map EmaUpdate (filter (fun k => k mod accumulate =? 0) (range M)) else []) /\
  filter is_optimizer_step tr =
    map OptimizerStep
        (filter (fun k => (k mod accumulate =? 0) && negb (overflow env k)) (range M)).
Proof.
  cbv zeta. rewrite run_steps_flat. repeat split.
  - apply flat_steps_backward.
  - apply flat_steps_scaler.
  - apply flat_steps_ema.
  - apply flat_steps_optimizer.
Qed.

(** What the kinds say of a trace whose steps are [0 .. M-1]. *)
Lemma boundary_facts (tr : list event) accumulate M :
  1 <= accumulate -> 0 <= M ->
  filter is_backward tr = map Backward (range M) ->
  filter is_scaler_step tr =
    map ScalerStep (filter (fun k => k mod accumulate =? 0) (range M)) ->
  count is_backward tr = M /\
  (forall k, In (Backward k) tr <-> 0 <= k < M) /\
  (forall k, In (ScalerStep k) tr <-> 0 <= k < M /\ k mod accumulate = 0) /\
  count is_scaler_step tr = (M + accumulate - 1) / accumulate.
Proof.
  intros Ha HM Hb Hs. split; [| split; [| split]].
  - unfold count. rewrite Hb, length_map, length_range. lia.
  - intros k. rewrite (in_filter_count is_backward) by reflexivity.
    rewrite Hb, in_map_inj by (intros x y H; injection H; auto).
    apply in_range.
  - intros k. rewrite (in_filter_count is_scaler_step) by reflexivity.
    rewrite Hs, in_map_inj by (intros x y H; injection H; auto).
    rewrite filter_In, in_range, Z.eqb_eq. reflexivity.
  - unfold count. rewrite Hs, length_map. apply boundaries_count; lia.
Qed.

Lemma tracker_facts env (tr : list event) accumulate M :
  filter is_scaler_step tr =
    map ScalerStep (filter (fun k => k mod accumulate =? 0) (range M)) ->
  filter is_ema_update tr =
    map EmaUpdate (filter (fun k => k mod accumulate =? 0) (range M)) ->
  filter is_optimizer_step tr =
    map OptimizerStep
        (filter (fun k => (k mod accumulate =? 0) && negb (overflow env k)) (range M)) ->
  (forall k, In (EmaUpdate k) tr <-> In (ScalerStep k) tr) /\
  count is_ema_update tr = count is_scaler_step tr /\
  (forall k, In (OptimizerStep k) tr <-> In (ScalerStep k) tr /\ overflow env k = false).
Proof.
  intros Hs He Ho. split; [| split].
  - intros k.
    rewrite (in_filter_count is_ema_update) by reflexivity.
    rewrite (in_filter_count is_scaler_step (ScalerStep k)) by reflexivity.
    rewrite He, Hs, !in_map_inj by (intros x y H; injection H; auto).
    reflexivity.
  - unfold count. rewrite He, Hs, !length_map. reflexivity.
  - intros k.
    rewrite (in_filter_count is_optimizer_step) by reflexivity.
    rewrite (in_filter_count is_scaler_step (ScalerStep k)) by reflexivity.
    rewrite Ho, Hs, !in_map_inj by (intros x y H; injection H; auto).
    rewrite !filter_In, andb_true_iff, negb_true_iff. tauto.
Qed.

(** C2 (amended). For every accumulation count of at least 1: in the
    batches of [n] epochs, whose global steps [i + num_steps * epoch] are
    [0 .. N-1] with [N = n * num_steps], the scaler's optimizer step is
    attempted at step [k] exactly when [k mod accumulate = 0]; it is
    attempted [ceil(N / accumulate)] times, that is
    [(N + accumulate - 1) / accumulate], and at every step when
    [accumulate = 1]. The same holds of the trace of a run of [train],
    whatever its outcome, for the [N] steps that ran; a run that returns
    has [N = epochs * num_steps]. *)
Theorem C2_update_at_multiples env args evaluate w accumulate ema n :
  1 <= accumulate ->
  (let tr := run_steps env accumulate ema n in
   let N := Z.max 0 n * Z.max 0 (num_steps env) in
   count is_backward tr = N /\
   (forall k, In (Backward k) tr <-> 0 <= k < N) /\
   (forall k, In (ScalerStep k) tr <-> 0 <= k < N /\ k mod accumulate = 0) /\
   count is_scaler_step tr = (N + accumulate - 1) / accumulate /\
   (accumulate = 1 -> count is_scaler_step tr = N)) /\
  (accumulate_of (batch_size args) (world_size args) = inr accumulate ->
   let tr := events_of (train_with env args evaluate w) in
   let N := count is_backward tr in
   (forall k, In (Backward k) tr <-> 0 <= k < N) /\
   (forall k, In (ScalerStep k) tr <-> 0 <= k < N /\ k mod accumulate = 0) /\
   count is_scaler_step tr = (N + accumulate - 1) / accumulate /\
   (accumulate = 1 -> count is_scaler_step tr = N) /\
   (forall u, result_of (train_with env args evaluate w) = inr u ->
              N = Z.max 0 (epochs args) * Z.max 0 (num_steps env))).
Proof.
  intros Ha. split.
  - cbv zeta.
    destruct (run_steps_shape env accumulate ema n) as (Hb & Hs & _ & _).
    cbv zeta in Hb, Hs.
    assert (H0 : 0 <= Z.max 0 n * Z.max 0 (num_steps env)) by nia.
    destruct (boundary_facts _ accumulate _ Ha H0 Hb Hs) as (HN & HinB & HinS & Hc).
    split; [exact HN |]. split; [exact HinB |]. split; [exact HinS |].
    split; [exact Hc |].
    intros ->. rewrite Hc.
    {
      replace (Z.max 0 n * Z.max 0 (num_steps env) + 1 - 1)
        with (Z.max 0 n * Z.max 0 (num_steps env)) by lia.
      apply Z.div_1_r. }
  - intros Hacc tr N.
    destruct (train_steps_shape env args evaluate w accumulate Hacc)
      as (M & HM & Hb & Hs & _ & _ & Hdone).
    fold tr in Hb, Hs.
    destruct (boundary_facts tr accumulate M Ha HM Hb Hs) as (HN & HinB & HinS & Hc).
    fold N in HN. rewrite HN.
    split; [exact HinB |]. split; [exact HinS |]. split; [exact Hc |]. split.
    + intros ->. rewrite Hc. replace (M + 1 - 1) with M by lia. apply Z.div_1_r.
    + exact Hdone.
Qed.

Lemma C2_update_at_multiples_witness :
  1 <= 2 /\
  accumulate_of (batch_size (Sample.args 1 2 16 2 "n")) (world_size (Sample.args 1 2 16 2 "n")) = inr 2 /\
  count is_scaler_step (events_of (train Sample.env (Sample.args 1 2 16 2 "n") Sample.world)) =
  (count is_backward (events_of (train Sample.env (Sample.args 1 2 16 2 "n") Sample.world)) + 2 - 1) / 2.
Proof.
  assert (H : 1 <= 2) by lia.
  split; [exact H |]. split; [reflexivity |].
  destruct (C2_update_at_multiples Sample.env (Sample.args 1 2 16 2 "n")
              (fun epoch => test Sample.env true (ap_result Sample.env epoch))
              Sample.world 2 false 2 H) as [_ Htrain].
  destruct (Htrain eq_refl) as (_ & _ & Hc & _).
  exact Hc.
Defined.

(** C2, against the count as specified, [N / accumulate] with one more when
    step 0 counts, fails both ways it can be read. On local rank 1 of two
    processes with batch size 16 ([accumulate = 2]) and three batches per
    epoch: one epoch has 3 steps and 2 updates, not [3 / 2]; two epochs
    have 6 steps and 3 updates, not [6 / 2 + 1]. *)
Lemma C2_floor_count_fails :
  accumulate_of 16 2 = inr 2 /\
  count is_backward (events_of (train Sample.env (Sample.args 1 2 16 1 "n") Sample.world)) = 3 /\
  count is_scaler_step (events_of (train Sample.env (Sample.args 1 2 16 1 "n") Sample.world)) = 2 /\
  2 <> 3 / 2 /\
  count is_backward (events_of (train Sample.env (Sample.args 1 2 16 2 "n") Sample.world)) = 6 /\
  count is_scaler_step (events_of (train Sample.env (Sample.args 1 2 16 2 "n") Sample.world)) = 3 /\
  3 <> 6 / 2 + 1.
Proof. repeat split; vm_compute; congruence. Qed.

(** C3 (amended). Where a tracker exists ([ema] is an [EMA] object, as
    on local rank 0) it is updated at exactly the steps where the
    scaler's optimizer step is attempted, that is at the steps with
    [k mod accumulate = 0] and at no step inside an accumulation window,
    whether or not the scaler then skipped [optimizer.step()] for
    non-finite gradients; over [N] steps it is updated
    [ceil(N / accumulate)] times. Where [ema] is [None], as on every
    other local rank, nothing is updated. This holds of the batches of
    [n] epochs and of the trace of a run of [train], whatever its
    outcome. *)
Theorem C3_ema_update_at_every_attempt env args evaluate w accumulate n :
  1 <= accumulate ->
  (let tr := run_steps env accumulate true n in
   let N := Z.max 0 n * Z.max 0 (num_steps env) in
   (forall k, In (EmaUpdate k) tr <-> In (ScalerStep k) tr) /\
   (forall k, In (EmaUpdate k) tr <-> 0 <= k < N /\ k mod accumulate = 0) /\
   count is_ema_update tr = (N + accumulate - 1) / accumulate /\
   (forall k, In (OptimizerStep k) tr <-> In (ScalerStep k) tr /\ overflow env k = false)) /\
  count is_ema_update (run_steps env accumulate false n) = 0 /\
  (accumulate_of (batch_size args) (world_size args) = inr accumulate ->
   let tr := events_of (train_with env args evaluate w) in
   let N := count is_backward tr in
   (local_rank args = 0 ->
      (forall k, In (EmaUpdate k) tr <-> In (ScalerStep k) tr) /\
      (forall k, In (EmaUpdate k) tr <-> 0 <= k < N /\ k mod accumulate = 0) /\
      count is_ema_update tr = count is_scaler_step tr /\
      count is_ema_update tr = (N + accumulate - 1) / accumulate) /\
   (local_rank args <> 0 -> count is_ema_update tr = 0) /\
   (forall k, In (OptimizerStep k) tr <-> In (ScalerStep k) tr /\ overflow env k = false)).
Proof.
  intros Ha. split; [| split].
  - cbv zeta.
    destruct (run_steps_shape env accumulate true n) as (Hb & Hs & He & Ho).
    cbv zeta in Hb, Hs, He, Ho.
    assert (H0 : 0 <= Z.max 0 n * Z.max 0 (num_steps env)) by nia.
    destruct (boundary_facts _ accumulate _ Ha H0 Hb Hs) as (HN & _ & HinS & Hc).
    destruct (tracker_facts env _ accumulate _ Hs He Ho) as (Hes & Hce & Hos).
    split; [exact Hes |]. split; [| split; [| exact Hos]].
    + intros k. rewrite Hes. apply HinS.
    + rewrite Hce. exact Hc.
  - destruct (run_steps_shape env accumulate false n) as (_ & _ & He & _).
    cbv zeta in He. unfold count. rewrite He. reflexivity.
  - intros Hacc tr N.
    destruct (train_steps_shape env args evaluate w accumulate Hacc)
      as (M & HM & Hb & Hs & He & Ho & _).
    fold tr in Hb, Hs, He, Ho.
    destruct (boundary_facts tr accumulate M Ha HM Hb Hs) as (HN & _ & HinS & Hc).
    fold N in HN. rewrite HN.
    split; [| split].
    + intros Hr. apply Z.eqb_eq in Hr. rewrite Hr in He.
      destruct (tracker_facts env tr accumulate M Hs He Ho) as (Hes & Hce & _).
      split; [exact Hes |]. split; [| split; [exact Hce |]].
      * intros k. rewrite Hes. apply HinS.
      * rewrite Hce. exact Hc.
    + intros Hr. apply Z.eqb_neq in Hr. rewrite Hr in He.
      unfold count. rewrite He. reflexivity.
    + intros k.
      rewrite (in_filter_count is_optimizer_step) by reflexivity.
      rewrite (in_filter_count is_scaler_step (ScalerStep k)) by reflexivity.
      rewrite Ho, Hs, !in_map_inj by (intros x y H; injection H; auto).
      rewrite !filter_In, andb_true_iff, negb_true_iff. tauto.
Qed.

Lemma C3_ema_update_at_every_attempt_witness :
  1 <= 2 /\
  accumulate_of (batch_size (Sample.args 0 1 32 2 "n")) (world_size (Sample.args 0 1 32 2 "n")) = inr 2 /\
  local_rank (Sample.args 0 1 32 2 "n") = 0 /\
  count is_ema_update
    (events_of (train_with Sample.env (Sample.args 0 1 32 2 "n")
                  (Sample.eval_of [3 # 10; 3 # 10]) Sample.world)) =
  count is_scaler_step
    (events_of (train_with Sample.env (Sample.args 0 1 32 2 "n")
                  (Sample.eval_of [3 # 10; 3 # 10]) Sample.world)).
Proof.
  assert (H : 1 <= 2) by lia.
  split; [exact H |]. split; [reflexivity |]. split; [reflexivity |].
  destruct (C3_ema_update_at_every_attempt Sample.env (Sample.args 0 1 32 2 "n")
              (Sample.eval_of [3 # 10; 3 # 10]) Sample.world 2 2 H) as (_ & _ & Htrain).
  destruct (Htrain eq_refl) as (Hrank0 & _ & _).
  destruct (Hrank0 eq_refl) as (_ & _ & Hc & _).
  exact Hc.
Defined.

(** C3, against the update being skipped with the optimizer step. With
    non-finite gradients at every step the scaler never calls
    [optimizer.step()], yet on local rank 0 the tracker is updated at
    steps 0 and 2 of the three steps of the first epoch; and two updates
    over three steps with [accumulate = 2] are not [3 / 2]. *)
Lemma C3_ema_updated_on_skipped_step :
  accumulate_of 32 1 = inr 2 /\
  overflow Sample.env_overflow 0 = true /\
  In (ScalerStep 0) (events_of (train Sample.env_overflow (Sample.args 0 1 32 1 "n") Sample.world)) /\
  ~ In (OptimizerStep 0) (events_of (train Sample.env_overflow (Sample.args 0 1 32 1 "n") Sample.world)) /\
  In (EmaUpdate 0) (events_of (train Sample.env_overflow (Sample.args 0 1 32 1 "n") Sample.world)) /\
  count is_optimizer_step (events_of (train Sample.env_overflow (Sample.args 0 1 32 1 "n") Sample.world)) = 0 /\
  count is_ema_update (events_of (train Sample.env_overflow (Sample.args 0 1 32 1 "n") Sample.world)) = 2 /\
  count is_backward (events_of (train Sample.env_overflow (Sample.args 0 1 32 1 "n") Sample.world)) = 3 /\
  2 <> 3 / 2.
Proof.
  repeat split; try (vm_compute; congruence).
  - vm_compute. tauto.
  - vm_compute. intros H. repeat (destruct H as [H | H]; [discriminate H |]). exact H.
  - vm_compute. tauto.
Qed.

(** ** The mosaic switch *)

Lemma for_fold_done {A St} (P : event -> bool) (g : A -> list event)
      (body : A -> St -> M St) :
  (forall x s w, filter P (events_of (body x s w)) = g x) ->
  forall l s w s', result_of (for_fold l s body w) = inr s' ->
    filter P (events_of (for_fold l s body w)) = flat_map g l.
Proof.
  intros Hg l s w s' Hr.
  destruct (for_fold_prefix P g body Hg l s w) as (l1 & l2 & Hl & Hf & Hdone).
  rewrite Hf, Hl, (Hdone s' Hr), app_nil_r. reflexivity.
Qed.

Lemma for_fold_world {A St B} (phi : World -> B) (h : A -> B -> B)
      (body : A -> St -> M St) :
  (forall x s w, phi (world_of (body x s w)) = h x (phi w)) ->
  forall l s w s', result_of (for_fold l s body w) = inr s' ->
    phi (world_of (for_fold l s body w)) = fold_left (fun b x => h x b) l (phi w).
Proof.
  intros Hh. induction l as [| x l IH]; intros s w s' Hr.
  - reflexivity.
  - cbn [for_fold fold_left] in *. rewrite bind_run in *.
    destruct (result_of (body x s w)) as [e | s1] eqn:E; out_simpl; [discriminate Hr |].
    rewrite (IH _ _ _ Hr), Hh. reflexivity.
Qed.

Lemma mosaic_off_once total n :
  flat_map (fun x => if total - x =? 10 then [MosaicOff x] else []) (range n) =
  if fired total n then [MosaicOff (total - 10)] else [].
Proof.
  destruct (Z.le_gt_cases 0 n) as [Hn | Hn].
  - revert n Hn. apply natlike_ind.
    + unfold fired. simpl.
      destruct (0 <=? total - 10) eqn:E1, (total - 10 <? 0) eqn:E2; try reflexivity. lia.
    + intros n Hn IH. change (Z.succ n) with (n + 1).
      rewrite range_succ, flat_map_app, IH by lia. unfold fired. simpl.
      destruct (Z.eqb_spec (total - n) 10) as [E | E].
      * replace (total - 10) with n by lia.
        replace (0 <=? n) with true by lia.
        replace (n <? n) with false by lia.
        replace (n <? n + 1) with true by lia. reflexivity.
      * rewrite app_nil_r.
        destruct (0 <=? total - 10); [| reflexivity]. simpl.
        destruct (Z.ltb_spec (total - 10) n), (Z.ltb_spec (total - 10) (n + 1));
          try reflexivity; lia.
  - rewrite range_nonpos by lia. unfold fired. simpl.
    destruct (Z.leb_spec 0 (total - 10)), (Z.ltb_spec (total - 10) n);
      try reflexivity; lia.
Qed.

Lemma mosaic_flag_fold total n b :
  fold_left (fun (b : bool) x => if total - x =? 10 then false else b) (range n) b =
  if fired total n then false else b.
Proof.
  destruct (Z.le_gt_cases 0 n) as [Hn | Hn].
  - revert n Hn. apply natlike_ind.
    + unfold fired. simpl.
      destruct (0 <=? total - 10) eqn:E1, (total - 10 <? 0) eqn:E2; try reflexivity. lia.
    + intros n Hn IH. change (Z.succ n) with (n + 1).
      rewrite range_succ, fold_left_app, IH by lia. unfold fired. simpl.
      destruct (Z.eqb_spec (total - n) 10) as [E | E].
      * replace (total - 10) with n by lia.
        replace (0 <=? n) with true by lia.
        replace (n <? n + 1) with true by lia. reflexivity.
      * destruct (0 <=? total - 10); [| reflexivity]. simpl.
        destruct (Z.ltb_spec (total - 10) n), (Z.ltb_spec (total - 10) (n + 1));
          try reflexivity; lia.
  - rewrite range_nonpos by lia. unfold fired. simpl.
    destruct (Z.leb_spec 0 (total - 10)), (Z.ltb_spec (total - 10) n);
      try reflexivity; lia.
Qed.

Lemma fired_whole total : fired total total = (10 <=? total).
Proof.
  unfold fired.
  destruct (Z.leb_spec 0 (total - 10)), (Z.ltb_spec (total - 10) total),
    (Z.leb_spec 10 total); try reflexivity; lia.
Qed.

(** Through the first [n] turns of the epoch loop, when they all
    return, the mosaic flag is switched off once, in the turn with index
    [epochs - 10] (ten epochs remain), if that turn is among them, and
    not at all otherwise; from that turn on the flag is false, before it
    the flag is what it was; no turn ever sets a false flag back. A run
    of [train] that returns has switched it off exactly once, at index
    [epochs - 10], and ends with the flag false, when [epochs >= 10]; a
    shorter run has no turn with ten epochs left and never switches. *)
Lemma mosaic_off_when_returning env args evaluate accumulate ema n w best' :
  n <= epochs args ->
  result_of (first_epochs env args evaluate n accumulate ema w) = inr best' ->
  filter is_mosaic_off (events_of (first_epochs env args evaluate n accumulate ema w)) =
    (if (0 <=? epochs args - 10) && (epochs args - 10 <? n)
     then [MosaicOff (epochs args - 10)] else []) /\
  mosaic (world_of (first_epochs env args evaluate n accumulate ema w)) =
    (if (0 <=? epochs args - 10) && (epochs args - 10 <? n) then false else mosaic w) /\
  (forall epoch best w',
      mosaic w' = false ->
      mosaic (world_of (epoch_body env args evaluate accumulate ema epoch best w')) = false) /\
  (forall w0 u,
      result_of (train_with env args evaluate w0) = inr u ->
      filter is_mosaic_off (events_of (train_with env args evaluate w0)) =
        (if 10 <=? epochs args then [MosaicOff (epochs args - 10)] else []) /\
      mosaic (world_of (train_with env args evaluate w0)) =
        (if 10 <=? epochs args then false else dataset_mosaic env)).
Proof.
  intros Hn Hr.
  assert (Hloop : forall m a e w1 b,
             result_of (first_epochs env args evaluate m a e w1) = inr b ->
             filter is_mosaic_off (events_of (first_epochs env args evaluate m a e w1)) =
               (if fired (epochs args) m then [MosaicOff (epochs args - 10)] else []) /\
             mosaic (world_of (first_epochs env args evaluate m a e w1)) =
               (if fired (epochs args) m then false else mosaic w1)).
  { intros m a e w1 b Hb. unfold first_epochs in *. split.
    - rewrite (for_fold_done is_mosaic_off
                 (fun x => if epochs args - x =? 10 then [MosaicOff x] else [])
                 _ (epoch_body_mosaic_off env args evaluate a e) _ _ _ _ Hb).
      apply mosaic_off_once.
    - rewrite (for_fold_world mosaic
                 (fun x (b : bool) => if epochs args - x =? 10 then false else b)
                 _ (epoch_body_mosaic env args evaluate a e) _ _ _ _ Hb).
      apply mosaic_flag_fold. }
  destruct (Hloop _ _ _ _ _ Hr) as [Hev Hflag]. unfold fired in Hev, Hflag.
  split; [exact Hev |]. split; [exact Hflag |]. split.
  - intros epoch best w' Hw. rewrite epoch_body_mosaic, Hw.
    destruct (epochs args - epoch =? 10); reflexivity.
  - intros w0 u Hu.
    destruct (supported (version args)) eqn:Hsup;
      [| destruct (train_with_early env args evaluate w0) as [[e He] _]; [auto | congruence]].
    destruct (accumulate_of (batch_size args) (world_size args)) as [e | a] eqn:Hacc;
      [destruct (train_with_early env args evaluate w0) as [[e' He] _]; [eauto | congruence] |].
    destruct (scale_weight_decay (weight_decay w0) (batch_size args) (world_size args) a)
      as [e | wd] eqn:Hscale;
      [destruct (train_with_early env args evaluate w0) as [[e' He] _]; [eauto 7 | congruence] |].
    destruct (weights_dir (fs w0)) eqn:Hdir;
      [| destruct (train_with_early env args evaluate w0) as [[e He] _]; [auto | congruence]].
    destruct (train_with_run env args evaluate a wd w0 Hsup Hacc Hscale Hdir) as (Hev' & Hres & Hm).
    cbv zeta in Hev', Hres, Hm. rewrite Hu in Hres.
    unfold epoch_loop in *.
    destruct (result_of (first_epochs env args evaluate (epochs args) a
                           (local_rank args =? 0) (start_world env args a w0)))
      as [e | b] eqn:Hb; [discriminate Hres |].
    destruct (Hloop _ _ _ _ _ Hb) as [Hev0 Hflag0]. rewrite fired_whole in Hev0, Hflag0.
    split.
    + rewrite Hev', !filter_app, Hev0.
      replace (filter is_mosaic_off
                 (MakeSGD wd
                  :: OpenWrite StepCsv :: (if local_rank args =? 0 then [WriteHeader] else [])))
        with (@nil event) by (destruct (local_rank args =? 0); reflexivity).
      replace (filter is_mosaic_off
                 (CloseLog :: (if local_rank args =? 0
                               then [StripOptimizer LastPt; StripOptimizer BestPt] else [])))
        with (@nil event) by (destruct (local_rank args =? 0); reflexivity).
      rewrite app_nil_r. reflexivity.
    + rewrite Hm, Hflag0.
      unfold start_world. destruct (local_rank args =? 0); reflexivity.
Qed.

(** With [epochs = 20] the switch is in the eleventh epoch (index 10) of
    a run on a secondary rank, and the flag is false when [train]
    returns. *)
Example mosaic_twenty_epochs :
  filter is_mosaic_off (events_of (train Sample.env (Sample.args 1 2 16 20 "n") Sample.world)) =
    [MosaicOff 10] /\
  mosaic (world_of (train Sample.env (Sample.args 1 2 16 20 "n") Sample.world)) = false /\
  result_of (train Sample.env (Sample.args 1 2 16 20 "n") Sample.world) = inr tt.
Proof. repeat split; vm_compute; reflexivity. Qed.

(** With [epochs = 5] no epoch has ten epochs left: the flag is never
    switched. *)
Example mosaic_five_epochs :
  filter is_mosaic_off (events_of (train Sample.env (Sample.args 1 2 16 5 "n") Sample.world)) = [] /\
  mosaic (world_of (train Sample.env (Sample.args 1 2 16 5 "n") Sample.world)) = true.
Proof. split; vm_compute; reflexivity. Qed.

(** ** Checkpoints *)

Lemma best_saved_iff best cur :
  Py.eq (update_best best cur) cur = true <-> (best <= cur)%Q.
Proof.
  unfold Py.eq, update_best, Py.gt.
  destruct (Qle_bool cur best) eqn:E; cbn [negb].
  - apply Qle_bool_iff in E. rewrite Qeq_bool_iff. split.
    + intros H. rewrite H. apply Qle_refl.
    + intros H. apply Qle_antisym; assumption.
  - assert (Hlt : (best < cur)%Q).
    { apply Qnot_le_lt. intros H. apply Qle_bool_iff in H. congruence. }
    rewrite Qeq_bool_iff. split.
    + intros _. apply Qlt_le_weak. exact Hlt.
    + intros _. reflexivity.
Qed.




(** The scenario of four epochs with mAP 0.10, 0.30, 0.25, 0.40, on an
    evaluation that returns these values: [best] is saved at epochs 1, 2
    and 4, [last] at every epoch. *)
Example four_epochs_scenario :
  filter is_best_save
    (events_of (train_with Sample.env (Sample.args 0 1 32 4 "n")
                  (Sample.eval_of [1 # 10; 3 # 10; 1 # 4; 2 # 5]) Sample.world)) =
    [TorchSave BestPt 1; TorchSave BestPt 2; TorchSave BestPt 4] /\
  best_pt (fs (world_of (train_with Sample.env (Sample.args 0 1 32 4 "n")
                           (Sample.eval_of [1 # 10; 3 # 10; 1 # 4; 2 # 5]) Sample.world))) =
    Some {| ck_epoch := 4; ck_stripped := true |} /\
  last_pt (fs (world_of (train_with Sample.env (Sample.args 0 1 32 4 "n")
                           (Sample.eval_of [1 # 10; 3 # 10; 1 # 4; 2 # 5]) Sample.world))) =
    Some {| ck_epoch := 4; ck_stripped := true |}.
Proof. repeat split; vm_compute; reflexivity. Qed.

(** ** A failure while plotting *)

Lemma for_fold_raise {A St} (x : A) (l : list A) (s : St) (body : A -> St -> M St) w e :
  result_of (body x s w) = inl e ->
  for_fold (x :: l) s body w = (events_of (body x s w), world_of (body x s w), inl e).
Proof. intros H. cbn [for_fold]. rewrite bind_run, H. reflexivity. Qed.

(** C7 (amended). An exception raised by [plot_mAP] is not handled:
    [test] raises it instead of returning its metrics, and on local rank
    0 the epoch loop of [train] stops in that epoch, with none of its
    batches' later records (no log row, no checkpoint) and no further
    epoch. *)
Theorem C7_plot_failure_propagates env args accumulate ema epoch rest best w e :
  snd (plot_mAP env (fs w)) = inl e ->
  local_rank args = 0 ->
  (forall ap, snd (test env true ap (fs w)) = inl e) /\
  (forall ap, best_pt (fs w) <> None -> snd (test env false ap (fs w)) = inl e) /\
  let body := epoch_body env args (fun ep => test env true (ap_result env ep)) accumulate ema in
  result_of (for_fold (epoch :: rest) best body w) = inl e /\
  events_of (for_fold (epoch :: rest) best body w) = events_of (body epoch best w) /\
  filter is_epoch_record (events_of (body epoch best w)) = [].
Proof.
  intros Hplot Hrank.
  assert (Htest : forall ap, snd (test env true ap (fs w)) = inl e).
  { intros ap. unfold test.
    destruct (plot_mAP env (fs w)) as [f' [e' | u]]; simpl in *; congruence. }
  split; [exact Htest |]. split.
  { intros ap Hbest. unfold test.
    destruct (best_pt (fs w)); [| congruence].
    destruct (plot_mAP env (fs w)) as [f' [e' | u]]; simpl in *; congruence. }
  intros body.
  assert (Hres : result_of (body epoch best w) = inl e).
  { subst body. rewrite epoch_body_result.
    apply Z.eqb_eq in Hrank. rewrite Hrank, (Htest (ap_result env epoch)).
    reflexivity. }
  rewrite (for_fold_raise _ _ _ _ _ _ Hres). out_simpl.
  split; [reflexivity |]. split; [reflexivity |].
  subst body. rewrite epoch_body_events.
  apply Z.eqb_eq in Hrank. rewrite Hrank, (Htest (ap_result env epoch)).
  rewrite !filter_app. cbn [filter is_epoch_record app end_events].
  rewrite filter_app.
  rewrite (filter_none is_epoch_record (epoch_steps _ _ _ _)).
  - destruct (distributed args), (epochs args - epoch =? 10); reflexivity.
  - eapply Forall_impl; [| apply epoch_steps_kinds].
    intros ev [H | ->]; [destruct ev; simpl in *; congruence | reflexivity].
Qed.

Lemma C7_plot_failure_propagates_witness :
  snd (plot_mAP Sample.env (fs (start_world Sample.env (Sample.args 0 1 32 2 "n") 2 Sample.world)))
    = inl ValueError /\
  local_rank (Sample.args 0 1 32 2 "n") = 0 /\
  result_of (for_fold [0; 1] 0%Q
               (epoch_body Sample.env (Sample.args 0 1 32 2 "n")
                  (fun ep => test Sample.env true (ap_result Sample.env ep)) 2 true)
               (start_world Sample.env (Sample.args 0 1 32 2 "n") 2 Sample.world))
    = inl ValueError.
Proof.
  split; [reflexivity |]. split; [reflexivity |].
  apply (C7_plot_failure_propagates Sample.env (Sample.args 0 1 32 2 "n") 2 true 0 [1] 0%Q
           (start_world Sample.env (Sample.args 0 1 32 2 "n") 2 Sample.world) ValueError
           eq_refl eq_refl).
Defined.

(** C7, against the failure being contained. Two executions in which
    plotting fails. Training two epochs on
    local rank 0 in an empty [weights] directory: at the first
    evaluation the log on disk has no row, [max(mAP_list)] raises
    [ValueError], [test] returns nothing and [train] stops with that
    error, epoch 2 never evaluated and nothing saved. And [test] on a log
    with a row when matplotlib fails. *)
Lemma C7_plot_failure_aborts :
  snd (plot_mAP Sample.env (fs (start_world Sample.env (Sample.args 0 1 32 2 "n") 2 Sample.world)))
    = inl ValueError /\
  snd (test Sample.env true (Sample.flat (3 # 10))
         (fs (start_world Sample.env (Sample.args 0 1 32 2 "n") 2 Sample.world)))
    = inl ValueError /\
  result_of (train Sample.env (Sample.args 0 1 32 2 "n") Sample.world) = inl ValueError /\
  In (Evaluate 0) (events_of (train Sample.env (Sample.args 0 1 32 2 "n") Sample.world)) /\
  ~ In (Evaluate 1) (events_of (train Sample.env (Sample.args 0 1 32 2 "n") Sample.world)) /\
  filter is_epoch_record (events_of (train Sample.env (Sample.args 0 1 32 2 "n") Sample.world)) = [] /\
  snd (test Sample.env_plt_fails true (Sample.flat (3 # 10))
         (with_step_csv (Some Sample.old_log) Sample.files))
    = inl RuntimeError.
Proof.
  repeat split; try (vm_compute; reflexivity).
  - vm_compute. tauto.
  - vm_compute. intros H. repeat (destruct H as [H | H]; [discriminate H |]). exact H.
Qed.

(** The first turn of the epoch loop on local rank 0, with [test] as
    the evaluation: the log on disk has no row while the header is in the
    buffer, so the evaluation raises the [ValueError] of line 231 and the
    turn ends there, with nothing written. *)
Lemma first_epoch_raises env args accumulate l w :
  local_rank args = 0 ->
  let body := epoch_body env args (fun ep => test env true (ap_result env ep)) accumulate
                         (local_rank args =? 0) in
  let w0 := start_world env args accumulate w in
  for_fold (0 :: l) 0%Q body w0 =
    ((if distributed args then [SamplerSetEpoch 0] else []) ++
     (if epochs args =? 10 then [MosaicOff 0] else []) ++
     ZeroGrad :: epoch_steps env accumulate true 0 ++ [Evaluate 0],
     (if epochs args =? 10 then set_mosaic false w0 else w0),
     inl ValueError).
Proof.
  intros Hrank. cbv zeta. apply Z.eqb_eq in Hrank. rewrite Hrank.
  cbn [for_fold]. unfold bind at 1.
  replace (epochs args =? 10) with (epochs args - 0 =? 10) by (f_equal; lia).
  unfold epoch_body, mosaic_switch, when. rewrite Hrank.
  unfold epoch_end, run_eval, test, plot_mAP.
  unfold start_world. rewrite Hrank.
  destruct (distributed args), (epochs args - 0 =? 10);
    unfold bind, emit, emits, modify, ret; out_simpl;
    cbn [fs set_fs set_mosaic set_log_buf set_weight_decay step_csv with_step_csv
         read_log read_rows tl app];
    rewrite ?app_nil_r; reflexivity.
Qed.

(** X1. On local rank 0 no run of [train] with at least one epoch
    returns: the first evaluation finds the log without a row (the header
    is still in the buffer) and the run ends in the [ValueError] of line
    231, unless it already ended in the [OverflowError] of line 44. *)
Theorem first_evaluation_raises env args accumulate w :
  supported (version args) = true ->
  accumulate_of (batch_size args) (world_size args) = inr accumulate ->
  weights_dir (fs w) = true ->
  local_rank args = 0 ->
  1 <= epochs args ->
  result_of (train env args w) =
    inl (match scale_weight_decay (weight_decay w) (batch_size args) (world_size args)
                 accumulate with
         | inl e => e
         | inr _ => ValueError
         end).
Proof.
  intros Hsup Hacc Hdir Hrank Hep. unfold train.
  destruct (scale_weight_decay (weight_decay w) (batch_size args) (world_size args) accumulate)
    as [e | wd] eqn:Hscale.
  { rewrite (train_with_overflow env args _ accumulate e w Hsup Hacc Hscale). reflexivity. }
  destruct (train_with_run env args (fun ep => test env true (ap_result env ep))
              accumulate wd w Hsup Hacc Hscale Hdir) as (_ & Hres & _).
  cbv zeta in Hres. rewrite Hres. clear Hres.
  unfold epoch_loop, first_epochs.
  assert (Hl : exists l, range (epochs args) = 0 :: l).
  { unfold range. destruct (Z.to_nat (epochs args)) eqn:E; [lia |].
    simpl. eexists; reflexivity. }
  destruct Hl as [l ->].
  pose proof (first_epoch_raises env args accumulate l w Hrank) as H. cbv zeta in H.
  rewrite H. reflexivity.
Qed.

Lemma first_evaluation_raises_witness :
  supported (version (Sample.args 0 1 32 2 "n")) = true /\
  accumulate_of (batch_size (Sample.args 0 1 32 2 "n")) (world_size (Sample.args 0 1 32 2 "n")) = inr 2 /\
  weights_dir (fs Sample.world) = true /\
  local_rank (Sample.args 0 1 32 2 "n") = 0 /\
  1 <= epochs (Sample.args 0 1 32 2 "n") /\
  result_of (train Sample.env (Sample.args 0 1 32 2 "n") Sample.world) = inl ValueError.
Proof.
  assert (H : 1 <= epochs (Sample.args 0 1 32 2 "n")) by (simpl; lia).
  split; [reflexivity |]. split; [reflexivity |]. split; [reflexivity |].
  split; [reflexivity |]. split; [exact H |].
  exact (first_evaluation_raises Sample.env (Sample.args 0 1 32 2 "n") 2 Sample.world
           eq_refl eq_refl eq_refl eq_refl H).
Defined.

(** ** The metric log *)

(** Within a run the log only grows: a flush appends the buffered lines
    to what is on disk. *)
Lemma flush_appends w d :
  step_csv (fs w) = Some d ->
  step_csv (fs (flush_world w)) = Some (d ++ log_buf w).
Proof. intros H. unfold flush_world. cbn. rewrite H. reflexivity. Qed.

(** C10. Once [train] has passed its preamble (supported variant,
    a batch size and world size with a product other than zero, a
    [weights] directory) and line 44, the log is opened in write mode
    before anything else touches a file: the epoch loop starts on an
    empty log whatever an earlier run left in it, and the whole run, its
    final log included, is the same as on a missing log; within the run a
    flush only appends. (When line 44 raises, for a product too large for
    a double, [train] ends there like in the rest of its preamble, before
    the log is opened.) *)
Theorem C10_log_truncated_at_start env args evaluate w accumulate old :
  supported (version args) = true ->
  accumulate_of (batch_size args) (world_size args) = inr accumulate ->
  weights_dir (fs w) = true ->
  match scale_weight_decay (weight_decay w) (batch_size args) (world_size args) accumulate with
  | inr wd =>
      (exists rest,
          events_of (train_with env args evaluate (put_csv (Some old) w)) =
          MakeSGD wd :: OpenWrite StepCsv :: rest) /\
      step_csv (fs (start_world env args accumulate (put_csv (Some old) w))) = Some [] /\
      train_with env args evaluate (put_csv (Some old) w) =
      train_with env args evaluate (put_csv None w)
  | inl e =>
      train_with env args evaluate (put_csv (Some old) w) = ([], put_csv (Some old) w, inl e)
  end /\
  (forall w' d, step_csv (fs w') = Some d ->
                step_csv (fs (flush_world w')) = Some (d ++ log_buf w')).
Proof.
  intros Hsup Hacc Hdir.
  assert (Hdir1 : forall c, weights_dir (fs (put_csv c w)) = true) by (intros c; exact Hdir).
  split; [| apply flush_appends].
  destruct (scale_weight_decay (weight_decay w) (batch_size args) (world_size args) accumulate)
    as [e | wd] eqn:Hscale.
  - apply (train_with_overflow env args evaluate accumulate e _ Hsup Hacc). exact Hscale.
  - assert (Hscale1 : forall c, scale_weight_decay (weight_decay (put_csv c w)) (batch_size args)
                                  (world_size args) accumulate = inr wd)
      by (intros c; exact Hscale).
    split; [| split].
    + destruct (train_with_run env args evaluate accumulate wd _ Hsup Hacc
                  (Hscale1 (Some old)) (Hdir1 (Some old)))
        as (Hev & _ & _).
      cbv zeta in Hev. rewrite Hev. cbn [app]. eexists. reflexivity.
    + unfold start_world. destruct (local_rank args =? 0); reflexivity.
    + rewrite (train_with_eq env args evaluate accumulate wd _ Hsup Hacc
                 (Hscale1 (Some old)) (Hdir1 (Some old))).
      rewrite (train_with_eq env args evaluate accumulate wd _ Hsup Hacc
                 (Hscale1 None) (Hdir1 None)).
      reflexivity.
Qed.

Lemma C10_log_truncated_at_start_witness :
  supported (version (Sample.args 1 2 16 2 "n")) = true /\
  accumulate_of (batch_size (Sample.args 1 2 16 2 "n")) (world_size (Sample.args 1 2 16 2 "n")) = inr 2 /\
  weights_dir (fs Sample.world) = true /\
  (exists rest,
      events_of (train Sample.env (Sample.args 1 2 16 2 "n")
                   (put_csv (Some Sample.old_log) Sample.world)) =
      MakeSGD Sample.wd :: OpenWrite StepCsv :: rest) /\
  train Sample.env (Sample.args 1 2 16 2 "n") (put_csv (Some Sample.old_log) Sample.world) =
  train Sample.env (Sample.args 1 2 16 2 "n") (put_csv None Sample.world).
Proof.
  split; [reflexivity |]. split; [reflexivity |]. split; [reflexivity |].
  destruct (C10_log_truncated_at_start Sample.env (Sample.args 1 2 16 2 "n")
              (fun ep => test Sample.env true (ap_result Sample.env ep))
              Sample.world 2 Sample.old_log eq_refl eq_refl eq_refl)
    as ((Hev & _ & Heq) & _).
  split; [exact Hev | exact Heq].
Defined.

(** ** Secondary processes *)

(** C4, at local rank 1 of two processes with [--train]: the process
    opens the metric log in write mode, so the header and row that were
    on disk are gone when it returns. *)
Lemma C4_secondary_truncates_log :
  resolve (Sample.cli 16 2 "n" true false) (Sample.os 1 2) = inr (Sample.args 1 2 16 2 "n") /\
  In (OpenWrite StepCsv)
     (events_of (main Sample.env (Sample.cli 16 2 "n" true false) (Sample.os 1 2)
                   (put_csv (Some Sample.old_log) Sample.world))) /\
  step_csv (fs (world_of (main Sample.env (Sample.cli 16 2 "n" true false) (Sample.os 1 2)
                            (put_csv (Some Sample.old_log) Sample.world)))) = Some [] /\
  result_of (main Sample.env (Sample.cli 16 2 "n" true false) (Sample.os 1 2)
               (put_csv (Some Sample.old_log) Sample.world)) = inr tt.
Proof.
  repeat split; try (vm_compute; reflexivity).
  vm_compute. tauto.
Qed.

(** The same process with [--test]: it evaluates the best checkpoint
    and saves the mAP figure. *)
Example secondary_saves_plot :
  map_png (fs (world_of
    (main Sample.env (Sample.cli 16 2 "n" false true) (Sample.os 1 2)
       (set_fs (fun f => with_best_pt (Some {| ck_epoch := 1; ck_stripped := true |})
                           (with_step_csv (Some Sample.old_log) f)) Sample.world)))) =
  Some [(1, 3 # 10)].
Proof. vm_compute. reflexivity. Qed.

(** ** [main] and the process group *)

Lemma flat_map_nil {A B} (l : list A) : flat_map (fun _ => @nil B) l = [].
Proof. induction l as [| x l IH]; simpl; [reflexivity | exact IH]. Qed.

Lemma epoch_body_no_main env args evaluate accumulate ema epoch best w :
  filter main_only (events_of (epoch_body env args evaluate accumulate ema epoch best w)) = [].
Proof.
  rewrite epoch_body_events. apply filter_none.
  repeat (apply Forall_app; split).
  - destruct (distributed args); repeat constructor.
  - destruct (epochs args - epoch =? 10); repeat constructor.
  - constructor; [reflexivity |]. apply Forall_app; split.
    + eapply Forall_impl; [| apply epoch_steps_kinds].
      intros e [H | ->]; [destruct e; simpl in *; congruence | reflexivity].
    + destruct (local_rank args =? 0); [| constructor].
      eapply Forall_impl; [| apply end_events_no_batch]. intros e H; apply H.
Qed.

(** [train] leaves the process group alone. *)
Lemma train_with_no_main_calls env args evaluate w e :
  In e (events_of (train_with env args evaluate w)) -> main_only e = false.
Proof.
  intros Hin.
  destruct (accumulate_of (batch_size args) (world_size args)) as [x | a] eqn:Hacc.
  - destruct (train_with_early env args evaluate w) as [_ Hall]; [eauto |].
    rewrite Forall_forall in Hall. specialize (Hall e Hin).
    destruct e; simpl in *; congruence.
  - destruct (train_with_proj env args evaluate main_only (fun _ => []) a w)
      as (n & _ & Hf & _).
    + intros e' He'. destruct e'; simpl in *; congruence.
    + exact Hacc.
    + intros x s w'. apply epoch_body_no_main.
    + rewrite flat_map_nil in Hf.
      destruct (main_only e) eqn:E; [| reflexivity].
      assert (Hin' : In e (filter main_only (events_of (train_with env args evaluate w))))
        by (apply filter_In; split; assumption).
      rewrite Hf in Hin'. destruct Hin'.
Qed.

(** The process group in a run of [main]: joined exactly when the
    resolved world size exceeds 1, left exactly when it was joined and
    nothing raised. *)
Lemma main_process_group env cli os w :
  match resolve cli os with
  | inl e => main env cli os w = ([], w, inl e)
  | inr args =>
      (In InitProcessGroup (events_of (main env cli os w)) <-> distributed args = true) /\
      (In DestroyProcessGroup (events_of (main env cli os w)) <->
       distributed args = true /\ result_of (main env cli os w) = inr tt)
  end.
Proof.
  remember (main env cli os w) as o eqn:Ho.
  unfold main in Ho.
  unfold bind at 1 in Ho. unfold lift at 1 in Ho.
  destruct (resolve cli os) as [e | args]; [exact Ho |].
  unfold bind at 1 in Ho.
  assert (Hjoin : exists j,
             when (distributed args)
                  (emit (SetDevice (local_rank args)) ;; emit InitProcessGroup) w = (j, w, inr tt) /\
             (In InitProcessGroup j <-> distributed args = true) /\
             ~ In DestroyProcessGroup j).
  { destruct (distributed args); eexists; (split; [reflexivity |]); simpl; intuition congruence. }
  destruct Hjoin as (j & Hj & HjI & HjD). rewrite Hj in Ho. clear Hj.
  unfold bind at 1 in Ho.
  assert (Hmk : exists k w1,
             when (local_rank args =? 0) makedirs w = (k, w1, inr tt) /\
             ~ In InitProcessGroup k /\ ~ In DestroyProcessGroup k).
  { unfold when, makedirs, ret.
    destruct (local_rank args =? 0); [destruct (weights_dir (fs w)) |];
      eexists; eexists; (split; [reflexivity |]); simpl; intuition congruence. }
  destruct Hmk as (k & w1 & Hk & HkI & HkD). rewrite Hk in Ho. clear Hk.
  unfold bind at 1 in Ho. unfold modify at 1 in Ho.
  unfold bind at 1 in Ho. unfold emit at 1 in Ho.
  unfold bind at 1 in Ho.
  set (w2 := set_weight_decay (yaml_weight_decay env) w1) in *.
  assert (Htr : exists t w3 r,
             when (do_train args) (train env args) w2 = (t, w3, r) /\
             ~ In InitProcessGroup t /\ ~ In DestroyProcessGroup t).
  { unfold when. destruct (do_train args).
    - exists (events_of (train env args w2)), (world_of (train env args w2)),
        (result_of (train env args w2)).
      split; [apply out_eta |].
      split; intros H; apply train_with_no_main_calls in H; discriminate H.
    - unfold ret. eexists; eexists; eexists.
      split; [reflexivity |]. simpl. tauto. }
  destruct Htr as (t & w3 & r & Ht & HtI & HtD). rewrite Ht in Ho. clear Ht.
  destruct r as [e | []].
  { subst o. out_simpl. rewrite !in_app_iff. simpl.
    split; [intuition congruence |].
    split; [intuition congruence | intros [_ H]; discriminate H]. }
  unfold bind at 1 in Ho.
  assert (Hte : exists w4 r,
             when (do_test args) (_ <- run_test env ;; ret tt) w3 = ([], w4, r)).
  { unfold when, bind, run_test, ret.
    destruct (do_test args); [| eexists; eexists; reflexivity].
    destruct (test env false (ap_best env) (fs w3)) as [f' [e | m]];
      eexists; eexists; reflexivity. }
  destruct Hte as (w4 & r & Hte). rewrite Hte in Ho. clear Hte.
  destruct r as [e | []].
  { subst o. out_simpl. rewrite !in_app_iff. simpl.
    split; [intuition congruence |].
    split; [intuition congruence | intros [_ H]; discriminate H]. }
  subst o. unfold when, bind, emit, ret.
  destruct (distributed args), (do_zip args); out_simpl;
    rewrite !in_app_iff; simpl; intuition congruence.
Qed.



(** ** Where the process identity comes from *)

(** C9. The local rank given on the command line changes nothing:
    [args.local_rank] is the integer [LOCAL_RANK] holds (0 when unset),
    [args.world_size] the integer [WORLD_SIZE] holds (1 when unset), and
    a text [int] rejects in either ends [main] in [ValueError] before
    anything is done; a whole run of [main] is the same for every
    command-line rank, and the process group is joined exactly when
    [LOCAL_RANK] is unset or an integer and [WORLD_SIZE] is an integer
    above 1. *)
Theorem C9_identity_from_environment env cli os w r :
  resolve (with_cli_local_rank r cli) os = resolve cli os /\
  main env (with_cli_local_rank r cli) os w = main env cli os w /\
  (forall args, resolve cli os = inr args ->
     local_rank args = match LOCAL_RANK os with Some (IntText z) => z | _ => 0 end /\
     world_size args = match WORLD_SIZE os with Some (IntText z) => z | _ => 1 end /\
     distributed args = (1 <? world_size args) /\
     LOCAL_RANK os <> Some BadText /\ WORLD_SIZE os <> Some BadText) /\
  (LOCAL_RANK os <> Some BadText -> WORLD_SIZE os <> Some BadText ->
   exists args, resolve cli os = inr args) /\
  (LOCAL_RANK os = Some BadText \/ WORLD_SIZE os = Some BadText ->
   main env cli os w = ([], w, inl ValueError)) /\
  (In InitProcessGroup (events_of (main env cli os w)) <->
   LOCAL_RANK os <> Some BadText /\
   exists ws, WORLD_SIZE os = Some (IntText ws) /\ 1 < ws).
Proof.
  assert (Hres : resolve (with_cli_local_rank r cli) os = resolve cli os).
  { unfold resolve.
    destruct (Py.int_getenv (LOCAL_RANK os) 0); [reflexivity |].
    destruct (Py.int_getenv (WORLD_SIZE os) 1); reflexivity. }
  split; [exact Hres |].
  split; [unfold main; rewrite Hres; reflexivity |].
  pose proof (main_process_group env cli os w) as Hmain.
  unfold resolve in *. unfold Py.int_getenv in *.
  destruct (LOCAL_RANK os) as [[lr |] |]; destruct (WORLD_SIZE os) as [[ws |] |];
    cbn [local_rank world_size distributed] in *;
    (split; [intros args H; try discriminate H; injection H as <-;
             cbn [local_rank world_size distributed];
             repeat split; (reflexivity || discriminate) |]);
    (split; [intros H1 H2; try congruence; eexists; reflexivity |]);
    (split; [intros [H | H]; try discriminate H; exact Hmain |]);
    try (rewrite Hmain; out_simpl; cbn [In]; split;
         [intros [] | intros [H1 (ws' & H2 & _)]; congruence]);
    destruct Hmain as [HI _]; rewrite HI, Z.ltb_lt;
    (split;
     [ intros Hlt; split; [discriminate |]; try (exists ws; split; [reflexivity | exact Hlt]); lia
     | intros [_ (ws' & H2 & Hlt)]; try discriminate H2; injection H2 as ->; exact Hlt ]).
Qed.

Lemma C9_identity_from_environment_witness :
  LOCAL_RANK (Sample.os 1 2) = Some (IntText 1) /\
  WORLD_SIZE (Sample.os 1 2) = Some (IntText 2) /\
  main Sample.env (with_cli_local_rank 7 (Sample.cli 16 2 "n" true false)) (Sample.os 1 2)
       Sample.world =
  main Sample.env (Sample.cli 16 2 "n" true false) (Sample.os 1 2) Sample.world /\
  (forall args, resolve (Sample.cli 16 2 "n" true false) (Sample.os 1 2) = inr args ->
                local_rank args = 1 /\ world_size args = 2) /\
  In InitProcessGroup
     (events_of (main Sample.env (Sample.cli 16 2 "n" true false) (Sample.os 1 2) Sample.world)).
Proof.
  destruct (C9_identity_from_environment Sample.env (Sample.cli 16 2 "n" true false)
              (Sample.os 1 2) Sample.world 7) as (_ & Hmain & Hid & _ & _ & Hjoin).
  split; [reflexivity |]. split; [reflexivity |]. split; [exact Hmain |]. split.
  - intros args H. destruct (Hid args H) as (Hl & Hw & _). split; assumption.
  - apply Hjoin. split; [discriminate |]. exists 2. split; [reflexivity | lia].
Defined.

(** C9 on a process started with [LOCAL_RANK=1] and [WORLD_SIZE=2]:
    whatever rank the command line gives, the run has local rank 1, world
    size 2 and joins the process group; with neither variable set it has
    local rank 0, world size 1 and joins none. *)
Example identity_of_a_started_process :
  (forall r, resolve (with_cli_local_rank r (Sample.cli 16 2 "n" true false)) (Sample.os 1 2) =
             inr (Sample.args 1 2 16 2 "n")) /\
  In InitProcessGroup
     (events_of (main Sample.env (with_cli_local_rank 0 (Sample.cli 16 2 "n" true false))
                   (Sample.os 1 2) Sample.world)) /\
  In (SetDevice 1)
     (events_of (main Sample.env (with_cli_local_rank 0 (Sample.cli 16 2 "n" true false))
                   (Sample.os 1 2) Sample.world)) /\
  resolve (with_cli_local_rank 1 (Sample.cli 16 2 "n" true false))
          {| LOCAL_RANK := None; WORLD_SIZE := None |} = inr (Sample.args 0 1 16 2 "n") /\
  ~ In InitProcessGroup
      (events_of (main Sample.env (with_cli_local_rank 1 (Sample.cli 16 2 "n" true false))
                    {| LOCAL_RANK := None; WORLD_SIZE := None |} Sample.world)).
Proof.
  split; [intros r; reflexivity |].
  split; [vm_compute; tauto |]. split; [vm_compute; tauto |].
  split; [reflexivity |].
  vm_compute. intros H. repeat (destruct H as [H | H]; [discriminate H |]). exact H.
Qed.

(** * More of the code *)

(** ** Text *)

Lemma text_length_app a b :
  String.length (a ++ b) = (String.length a + String.length b)%nat.
Proof. induction a as [| c a IH]; simpl; [reflexivity | rewrite IH; reflexivity]. Qed.

Lemma text_app_assoc a b c : ((a ++ b) ++ c = a ++ (b ++ c))%string.
Proof. induction a as [| x a IH]; simpl; [reflexivity | rewrite IH; reflexivity]. Qed.

Lemma prefix_app pat s : prefix pat (pat ++ s) = true.
Proof.
  induction pat as [| c pat IH]; simpl; [destruct s; reflexivity |].
  destruct (ascii_dec c c) as [_ | H]; [exact IH | congruence].
Qed.

Lemma contains_here pat s : prefix pat s = true -> Text.contains pat s = true.
Proof. intros H. destruct s; cbn [Text.contains]; rewrite H; reflexivity. Qed.

Lemma contains_tail pat c s :
  Text.contains pat s = true -> Text.contains pat (String c s) = true.
Proof. intros H. cbn [Text.contains]. rewrite H. apply orb_true_r. Qed.

Lemma contains_app pat a b : Text.contains pat (a ++ pat ++ b) = true.
Proof.
  induction a as [| c a IH]; cbn [append].
  - apply contains_here, prefix_app.
  - apply contains_tail. exact IH.
Qed.

Lemma slash_prefix s : prefix "/" s = true -> Text.contains "/" s = true.
Proof. apply contains_here. Qed.

Lemma basename_app a b :
  Text.contains "/" b = false -> Text.basename (a ++ "/" ++ b) = b.
Proof.
  intros Hb. induction a as [| c a IH].
  - cbn [append Text.basename]. rewrite Hb. reflexivity.
  - pose proof (contains_app "/" a b) as H.
    cbn [append Text.basename] in *. rewrite H. exact IH.
Qed.

Lemma basename_plain s : Text.contains "/" s = false -> Text.basename s = s.
Proof.
  destruct s as [| c s]; [reflexivity |].
  intros H. cbn [Text.basename].
  destruct (Text.contains "/" s) eqn:E.
  - rewrite (contains_tail _ c _ E) in H. discriminate H.
  - destruct (Ascii.eqb_spec c "/") as [-> | _]; [| reflexivity].
    destruct s; simpl in H; discriminate H.
Qed.

Lemma basename_no_slash s : Text.contains "/" (Text.basename s) = false.
Proof.
  induction s as [| c s IH]; [reflexivity |].
  cbn [Text.basename].
  destruct (Text.contains "/" s) eqn:E; [exact IH |].
  destruct (Ascii.eqb_spec c "/") as [-> | Hc]; [exact E |].
  cbn [Text.contains prefix]. rewrite E.
  destruct (ascii_dec "/" c) as [H | _]; [congruence | reflexivity].
Qed.

(** The base name is the end of the path. *)
Lemma basename_suffix s : exists d, s = (d ++ Text.basename s)%string.
Proof.
  induction s as [| c s [d IH]].
  - exists EmptyString. reflexivity.
  - cbn [Text.basename].
    destruct (Text.contains "/" s).
    + exists (String c d). cbn [append]. rewrite <- IH. reflexivity.
    + destruct (Ascii.eqb c "/").
      * exists (String c EmptyString). reflexivity.
      * exists EmptyString. reflexivity.
Qed.

Lemma rstrip_app a b :
  Text.rstrip (a ++ b) =
  match Text.rstrip b with
  | EmptyString => Text.rstrip a
  | r => (a ++ r)%string
  end.
Proof.
  induction a as [| c a IH]; cbn [append Text.rstrip].
  - destruct (Text.rstrip b); reflexivity.
  - rewrite IH. destruct (Text.rstrip b) as [| c' r]; [reflexivity |].
    destruct a; reflexivity.
Qed.

Lemma rstrip_idem s : Text.rstrip (Text.rstrip s) = Text.rstrip s.
Proof.
  induction s as [| c s IH]; [reflexivity |].
  cbn [Text.rstrip].
  destruct (Text.rstrip s) as [| c' r] eqn:E.
  - destruct (Text.is_space c) eqn:Ec; [reflexivity |].
    cbn [Text.rstrip]. rewrite Ec. reflexivity.
  - cbn [Text.rstrip] in *. rewrite IH. reflexivity.
Qed.

(** The end of a text without trailing blanks has none either. *)
Lemma rstrip_suffix a b :
  Text.rstrip (a ++ b) = (a ++ b)%string -> Text.rstrip b = b.
Proof.
  rewrite rstrip_app. destruct (Text.rstrip b) as [| c r] eqn:E.
  - intros H. destruct b as [| cb b]; [reflexivity |].
    exfalso.
    assert (Hlen : (String.length (Text.rstrip a) <= String.length a)%nat).
    { clear. induction a as [| c a IH]; cbn [Text.rstrip String.length]; [lia |].
      destruct (Text.rstrip a); [destruct (Text.is_space c) |];
        cbn [String.length] in *; lia. }
    rewrite H in Hlen. rewrite text_length_app in Hlen.
    cbn [String.length] in Hlen. lia.
  - intros H.
    assert (Hinj : forall x y z : string, (x ++ y = x ++ z)%string -> y = z).
    { induction x as [| c0 x IHx]; intros y z Hxy; [exact Hxy |].
      cbn [append] in Hxy. injection Hxy as Hxy. exact (IHx _ _ Hxy). }
    exact (Hinj _ _ _ H).
Qed.

Lemma endswith_split s suf :
  Text.endswith s suf = true -> exists pre, s = (pre ++ suf)%string.
Proof.
  induction s as [| c s IH]; cbn [Text.endswith].
  - rewrite orb_false_r. intros H. apply String.eqb_eq in H. subst suf.
    exists EmptyString. reflexivity.
  - intros H. apply orb_true_iff in H. destruct H as [H | H].
    + apply String.eqb_eq in H. subst suf. exists EmptyString. reflexivity.
    + destruct (IH H) as [pre ->]. exists (String c pre). reflexivity.
Qed.

(** ** The elapsed time *)

Lemma pad2_two_digits n : 0 <= n < 100 -> String.length (Text.pad2 n) = 2%nat.
Proof.
  intros Hn.
  assert (Hall : forallb (fun k => (String.length (Text.pad2 k) =? 2)%nat) (range 100) = true)
    by (vm_compute; reflexivity).
  rewrite forallb_forall in Hall.
  apply Nat.eqb_eq. apply Hall. apply in_range. exact Hn.
Qed.

(** X2. The elapsed time [main] prints: the hours, minutes and seconds
    are below 24, 60 and 60 and, with the days, add up to the whole
    seconds between the two instants; the clock part of the text is
    always eight characters; the days are negative exactly when the end
    precedes the start. *)
Theorem elapsed_time_fields time_start time_end :
  exists days seconds us hours minutes secs,
    timedelta time_start time_end = (days, seconds, us) /\
    clock seconds = (hours, minutes, secs) /\
    0 <= hours < 24 /\ 0 <= minutes < 60 /\ 0 <= secs < 60 /\ 0 <= us < 1000000 /\
    (days * 86400 + hours * 3600 + minutes * 60 + secs) * 1000000 + us
      = time_end - time_start /\
    (days < 0 <-> time_end < time_start) /\
    formatted_duration time_start time_end =
      (Text.str days ++ " Days " ++
       (Text.pad2 hours ++ ":" ++ Text.pad2 minutes ++ ":" ++ Text.pad2 secs))%string /\
    String.length (Text.pad2 hours ++ ":" ++ Text.pad2 minutes ++ ":" ++ Text.pad2 secs)
      = 8%nat.
Proof.
  set (d := time_end - time_start).
  exists (d / 86400000000), ((d / 1000000) mod 86400), (d mod 1000000).
  set (sec := (d / 1000000) mod 86400).
  exists (sec / 3600), ((sec mod 3600) / 60), ((sec mod 3600) mod 60).
  assert (Hsec : 0 <= sec < 86400) by (subst sec; apply Z.mod_pos_bound; lia).
  assert (Hh : 0 <= sec / 3600 < 24).
  { split; [apply Z.div_pos; lia | apply Z.div_lt_upper_bound; lia]. }
  assert (Hr : 0 <= sec mod 3600 < 3600) by (apply Z.mod_pos_bound; lia).
  assert (Hm : 0 <= (sec mod 3600) / 60 < 60).
  { split; [apply Z.div_pos; lia | apply Z.div_lt_upper_bound; lia]. }
  assert (Hs : 0 <= (sec mod 3600) mod 60 < 60) by (apply Z.mod_pos_bound; lia).
  assert (Hus : 0 <= d mod 1000000 < 1000000) by (apply Z.mod_pos_bound; lia).
  assert (Hd1 : d = 1000000 * (d / 1000000) + d mod 1000000) by (apply Z.div_mod; lia).
  assert (Hd2 : d / 1000000 = 86400 * ((d / 1000000) / 86400) + sec)
    by (subst sec; apply Z.div_mod; lia).
  assert (Hd3 : d / 86400000000 = (d / 1000000) / 86400).
  { change 86400000000 with (1000000 * 86400). rewrite Z.div_div by lia. reflexivity. }
  assert (Hd4 : sec = 3600 * (sec / 3600) + sec mod 3600) by (apply Z.div_mod; lia).
  assert (Hd5 : sec mod 3600 = 60 * ((sec mod 3600) / 60) + (sec mod 3600) mod 60)
    by (apply Z.div_mod; lia).
  split; [reflexivity |]. split; [reflexivity |].
  split; [exact Hh |]. split; [exact Hm |]. split; [exact Hs |]. split; [exact Hus |].
  split; [rewrite Hd3; lia |].
  split.
  { rewrite Hd3. split; intros H.
    - assert (d < 0) by lia. lia.
    - assert (Hneg : d < 0) by lia.
      assert (d / 1000000 < 0) by (apply Z.div_lt_upper_bound; lia).
      apply Z.div_lt_upper_bound; lia. }
  split.
  { unfold formatted_duration, timedelta, clock. fold d. fold sec. reflexivity. }
  rewrite !text_length_app.
  rewrite !pad2_two_digits by lia. reflexivity.
Qed.

(** ** The labels of the plot *)

Lemma gt_false_le x y : Py.gt x y = false -> (x <= y)%Q.
Proof.
  unfold Py.gt. intros H. apply negb_false_iff in H. apply Qle_bool_iff. exact H.
Qed.

Lemma gt_true_lt x y : Py.gt x y = true -> (y < x)%Q.
Proof.
  unfold Py.gt. intros H. apply negb_true_iff in H.
  apply Qnot_le_lt. intros Hle. apply Qle_bool_iff in Hle. congruence.
Qed.

Lemma max_from_ge cur l :
  (cur <= max_from cur l)%Q /\ (forall x, In x l -> (x <= max_from cur l)%Q).
Proof.
  revert cur. induction l as [| y l IH]; intros cur; cbn [max_from].
  - split; [apply Qle_refl | intros x []].
  - destruct (IH (if Py.gt y cur then y else cur)) as [H1 H2].
    destruct (Py.gt y cur) eqn:E.
    + apply gt_true_lt in E. split.
      * eapply Qle_trans; [apply Qlt_le_weak; exact E | exact H1].
      * intros x [<- | Hx]; [exact H1 | exact (H2 x Hx)].
    + apply gt_false_le in E. split; [exact H1 |].
      intros x [<- | Hx]; [eapply Qle_trans; [exact E | exact H1] | exact (H2 x Hx)].
Qed.

Lemma max_from_choice cur l : max_from cur l = cur \/ In (max_from cur l) l.
Proof.
  revert cur. induction l as [| y l IH]; intros cur; cbn [max_from]; [left; reflexivity |].
  destruct (IH (if Py.gt y cur then y else cur)) as [H | H].
  - rewrite H. destruct (Py.gt y cur); [right; left; reflexivity | left; reflexivity].
  - right. right. exact H.
Qed.

(** [index] stops at the first row whose value equals the one sought. *)
Lemma index_first v (series : list (Z * Q)) i :
  py_index v (map snd series) = inr i ->
  exists pre e x post,
    series = pre ++ (e, x) :: post /\
    nth_error (map fst series) i = Some e /\
    (x == v)%Q /\
    (forall p, In p pre -> ~ (snd p == v)%Q).
Proof.
  revert i. induction series as [| [e x] series IH]; intros i; cbn [map py_index fst snd].
  - discriminate.
  - unfold Py.eq. destruct (Qeq_bool x v) eqn:E.
    + intros H. injection H as <-.
      exists [], e, x, series. repeat split.
      * apply Qeq_bool_iff. exact E.
      * intros p [].
    + destruct (py_index v (map snd series)) as [err | j] eqn:Ej; [discriminate |].
      intros H. injection H as <-.
      destruct (IH j eq_refl) as (pre & e' & x' & post & Hs & Hn & Hx & Hpre).
      exists ((e, x) :: pre), e', x', post. repeat split.
      * rewrite Hs. reflexivity.
      * exact Hn.
      * exact Hx.
      * intros p [<- | Hp]; [| exact (Hpre p Hp)].
        cbn [snd]. intros Heq. apply Qeq_bool_iff in Heq. congruence.
Qed.

Lemma index_found v l x : In x l -> (x == v)%Q -> exists i, py_index v l = inr i.
Proof.
  induction l as [| y l IH]; intros Hin Hx; [destruct Hin |].
  cbn [py_index]. unfold Py.eq. destruct (Qeq_bool y v) eqn:E; [eauto |].
  destruct Hin as [-> | Hin].
  - apply Qeq_bool_iff in Hx. congruence.
  - destruct (IH Hin Hx) as [i Hi]. fold (Py.eq) in *. rewrite Hi. eauto.
Qed.

Lemma last_some {A} (l : list A) x :
  List.last (map Some l) None = Some x -> exists init, l = init ++ [x].
Proof.
  induction l as [| y l IH]; cbn [map List.last]; [discriminate |].
  destruct l as [| z l].
  - intros H. injection H as ->. exists []. reflexivity.
  - intros H. destruct (IH H) as [init ->]. exists (y :: init). reflexivity.
Qed.

Lemma last_some_exists {A} (l : list A) :
  l <> [] -> exists x, List.last (map Some l) None = Some x.
Proof.
  induction l as [| y l IH]; [congruence |]. intros _.
  destruct l as [| z l]; [exists y; reflexivity |].
  destruct IH as [x Hx]; [discriminate |]. exists x. exact Hx.
Qed.

Lemma plot_labels_split series :
  series <> [] ->
  exists L pre v post init,
    plot_labels series = inr L /\
    series = pre ++ (best_epoch L, v) :: post /\
    (v == best_mAP L)%Q /\
    (forall e x, In (e, x) pre -> (x < best_mAP L)%Q) /\
    (forall e x, In (e, x) series -> (x <= best_mAP L)%Q) /\
    series = init ++ [(last_epoch L, last_mAP L)].
Proof.
  intros Hne.
  destruct series as [| [e0 x0] rest] eqn:Hs; [congruence |]. rewrite <- Hs in *.
  set (best := max_from x0 (map snd rest)).
  assert (Hmax : py_max (map snd series) = inr best) by (rewrite Hs; reflexivity).
  assert (Hge : forall e x, In (e, x) series -> (x <= best)%Q).
  { intros e x Hin. rewrite Hs in Hin. destruct (max_from_ge x0 (map snd rest)) as [H1 H2].
    destruct Hin as [H | Hin]; [injection H as _ <-; exact H1 |].
    apply H2. apply (in_map snd) in Hin. exact Hin. }
  assert (Hin : In best (map snd series)).
  { rewrite Hs. cbn [map snd]. subst best.
    destruct (max_from_choice x0 (map snd rest)) as [-> | H]; [left; reflexivity | right; exact H]. }
  destruct (index_found best _ best Hin (Qeq_refl _)) as [i Hi].
  destruct (index_first best series i Hi) as (pre & e & x & post & Hsplit & Hnth & Hx & Hpre).
  destruct (last_some_exists series Hne) as [[le lm] Hlast].
  destruct (last_some series _ Hlast) as [init Hinit].
  exists {| best_mAP := best; best_epoch := e; last_mAP := lm; last_epoch := le |},
         pre, x, post, init.
  cbn [best_mAP best_epoch last_mAP last_epoch].
  split.
  { unfold plot_labels. rewrite Hmax, Hi, Hnth, Hlast. reflexivity. }
  split; [exact Hsplit |]. split; [exact Hx |]. split.
  - intros e' x' Hin'.
    assert (Hle : (x' <= best)%Q).
    { apply (Hge e'). rewrite Hsplit. apply in_or_app. left. exact Hin'. }
    destruct (Qlt_le_dec x' best) as [Hlt | Hge']; [exact Hlt |].
    exfalso. apply (Hpre (e', x') Hin'). cbn [snd]. apply Qle_antisym; assumption.
  - split; [exact Hge | exact Hinit].
Qed.

(** X3. [plot_mAP] needs at least one row: on an empty list the
    [max] of line 231 raises [ValueError]. Otherwise the value it labels
    best is at least every mAP of the log, the epoch it marks is that of
    the first row reaching it (every earlier row is strictly below, so
    among equal maxima the earliest epoch is marked), and the last
    labels are those of the last row. *)
Theorem plot_labels_first_best series :
  (series = [] -> plot_labels series = inl ValueError) /\
  (series <> [] ->
   exists L pre v post init,
     plot_labels series = inr L /\
     series = pre ++ (best_epoch L, v) :: post /\
     (v == best_mAP L)%Q /\
     (forall e x, In (e, x) pre -> (x < best_mAP L)%Q) /\
     (forall e x, In (e, x) series -> (x <= best_mAP L)%Q) /\
     series = init ++ [(last_epoch L, last_mAP L)]).
Proof.
  split; [intros ->; reflexivity | apply plot_labels_split].
Qed.

(** ** The metrics [test] collects *)

Lemma image_entry_arrays im :
  List.length (computed_metric im) = List.length (output im) ->
  match image_entry im with
  | Some e =>
      List.length (e_metric e) = List.length (output im) /\
      e_conf e = map det_conf (output im) /\
      e_pred e = map det_cls (output im) /\
      e_target e = target_cls im
  | None => output im = [] /\ target_cls im = []
  end.
Proof.
  intros Hm. unfold image_entry.
  destruct (output im) as [| d ds] eqn:Ho.
  - destruct (target_cls im) as [| t ts]; [split; reflexivity |].
    cbn. repeat split; reflexivity.
  - cbn [e_metric e_conf e_pred e_target].
    destruct (target_cls im) as [| t ts]; repeat split; try reflexivity.
    + apply repeat_length.
    + exact Hm.
Qed.

Lemma collect_arrays images :
  (forall im, In im images -> List.length (computed_metric im) = List.length (output im)) ->
  List.length (List.concat (map e_metric (collect images))) =
    List.length (List.concat (map output images)) /\
  List.concat (map e_conf (collect images)) =
    map det_conf (List.concat (map output images)) /\
  List.concat (map e_pred (collect images)) =
    map det_cls (List.concat (map output images)) /\
  List.concat (map e_target (collect images)) = List.concat (map target_cls images).
Proof.
  induction images as [| im images IH]; intros Hall.
  - repeat split; reflexivity.
  - destruct IH as (H1 & H2 & H3 & H4); [intros x Hx; apply Hall; right; exact Hx |].
    pose proof (image_entry_arrays im (Hall im (or_introl eq_refl))) as He.
    cbn [collect map List.concat].
    destruct (image_entry im) as [e |].
    + destruct He as (E1 & E2 & E3 & E4).
      cbn [map List.concat].
      rewrite !length_app, !map_app, E1, E2, E3, E4, H1, H2, H3, H4.
      repeat split; reflexivity.
    + destruct He as [E1 E2]. rewrite E1, E2. cbn [app].
      repeat split; assumption.
Qed.

(** X4. The arrays [test] hands to [util.compute_ap] line up: when
    [util.compute_metric] answers one row per detection, the match
    matrix, the confidences and the predicted classes have one entry per
    detection of the whole validation set, in order, and the target
    classes are those of every image, also of the images without a
    detection; nothing is collected only when no image has a detection or
    a target. *)
Theorem collected_metrics_line_up images :
  (forall im, In im images -> List.length (computed_metric im) = List.length (output im)) ->
  match cat_metrics (collect images) with
  | Some all =>
      List.length (e_metric all) = List.length (List.concat (map output images)) /\
      e_conf all = map det_conf (List.concat (map output images)) /\
      e_pred all = map det_cls (List.concat (map output images)) /\
      e_target all = List.concat (map target_cls images)
  | None =>
      forall im, In im images -> output im = [] /\ target_cls im = []
  end.
Proof.
  intros Hall.
  destruct (collect images) as [| e es] eqn:Hc.
  - cbn [cat_metrics]. clear Hall.
    induction images as [| im images IH]; intros x Hin; [destruct Hin |].
    cbn [collect] in Hc.
    pose proof (image_entry_arrays im) as He.
    unfold image_entry in *.
    destruct (output im) as [| d ds] eqn:Ho.
    + destruct (target_cls im) as [| t ts] eqn:Ht; [| discriminate Hc].
      destruct Hin as [<- | Hin]; [split; assumption | exact (IH Hc x Hin)].
    + discriminate Hc.
  - cbn [cat_metrics e_metric e_conf e_pred e_target]. rewrite <- Hc.
    exact (collect_arrays images Hall).
Qed.

Lemma collected_metrics_line_up_witness :
  (forall im,
      In im [ {| output := [ {| det_conf := 9 # 10; det_cls := 1 |} ];
                 target_cls := [1];
                 computed_metric := [repeat true n_iou] |};
              {| output := []; target_cls := [2]; computed_metric := [] |} ] ->
      List.length (computed_metric im) = List.length (output im)) /\
  match cat_metrics (collect
          [ {| output := [ {| det_conf := 9 # 10; det_cls := 1 |} ];
               target_cls := [1];
               computed_metric := [repeat true n_iou] |};
            {| output := []; target_cls := [2]; computed_metric := [] |} ]) with
  | Some all => e_target all = [1; 2] /\ e_conf all = [9 # 10]
  | None => False
  end.
Proof.
  assert (H : forall im,
             In im [ {| output := [ {| det_conf := 9 # 10; det_cls := 1 |} ];
                        target_cls := [1];
                        computed_metric := [repeat true n_iou] |};
                     {| output := []; target_cls := [2]; computed_metric := [] |} ] ->
             List.length (computed_metric im) = List.length (output im)).
  { intros im [<- | [<- | []]]; reflexivity. }
  split; [exact H |].
  pose proof (collected_metrics_line_up _ H) as T.
  cbn in T. cbn. destruct T as (_ & Hc & _ & Ht). split; [exact Ht | exact Hc].
Defined.

Lemma collect_any images :
  existsb (existsb (fun b : bool => b)) (List.concat (map e_metric (collect images))) =
  existsb has_match images.
Proof.
  assert (Hz : forall n, existsb (existsb (fun b : bool => b)) (repeat (repeat false n_iou) n) = false).
  { induction n as [| n IH]; [reflexivity |]. cbn [repeat existsb]. rewrite IH. reflexivity. }
  induction images as [| im images IH]; [reflexivity |].
  cbn [collect existsb]. unfold image_entry, has_match.
  destruct (output im) as [| d ds]; destruct (target_cls im) as [| t ts];
    cbn [map List.concat e_metric List.length]; rewrite ?existsb_app, ?Hz, ?IH; reflexivity.
Qed.

(** X5. [test] asks [util.compute_ap] only when some image has
    detections, targets and a true match; otherwise, and in particular
    when nothing was detected or nothing collected, it returns zero for
    precision, recall and both mAP values. *)
Theorem test_metrics_zero_without_match compute_ap images :
  test_metrics compute_ap images =
    (if existsb has_match images
     then match cat_metrics (collect images) with
          | Some all => compute_ap all
          | None => zero_metrics
          end
     else zero_metrics) /\
  ((forall im, In im images -> output im = []) ->
   test_metrics compute_ap images = zero_metrics).
Proof.
  assert (Heq : test_metrics compute_ap images =
                (if existsb has_match images
                 then match cat_metrics (collect images) with
                      | Some all => compute_ap all
                      | None => zero_metrics
                      end
                 else zero_metrics)).
  { unfold test_metrics. rewrite <- collect_any.
    destruct (collect images) as [| e es] eqn:Hc; cbn [cat_metrics e_metric].
    - reflexivity.
    - reflexivity. }
  split; [exact Heq |].
  intros Hnone. rewrite Heq.
  replace (existsb has_match images) with false; [reflexivity |].
  symmetry. apply not_true_is_false. intros H.
  apply existsb_exists in H. destruct H as (im & Hin & Hm).
  unfold has_match in Hm. rewrite (Hnone im Hin) in Hm. discriminate Hm.
Qed.

(** ** The file lists *)

Lemma count_files_sum exists_ filenames :
  fst (count_files exists_ filenames) = Z.of_nat (List.length (filter exists_ filenames)) /\
  snd (count_files exists_ filenames) =
    Z.of_nat (List.length (filter (fun f => negb (exists_ f)) filenames)).
Proof.
  induction filenames as [| f rest [IH1 IH2]]; [split; reflexivity |].
  cbn [count_files filter].
  destruct (count_files exists_ rest) as [e n]. cbn [fst snd] in *.
  destruct (exists_ f); cbn [negb fst snd List.length]; split; lia.
Qed.

(** X6. Every line of the list file gives one file name, placed
    directly in the image directory whatever directory the line named:
    the name appended has no slash and no trailing blank, and is empty for
    a blank line. Every name is counted once, as existing or as missing,
    and a missing file is neither dropped nor an error. *)
Theorem list_filenames_flat image_dir lines exists_ :
  List.length (list_filenames image_dir lines) = List.length lines /\
  (forall f, In f (list_filenames image_dir lines) ->
     exists line name,
       In line lines /\ f = (image_dir ++ name)%string /\
       name = Text.basename (Text.rstrip line) /\
       Text.contains "/" name = false /\
       Text.rstrip name = name /\
       (Text.rstrip line = EmptyString -> f = (image_dir ++ "")%string)) /\
  fst (count_files exists_ (list_filenames image_dir lines)) +
  snd (count_files exists_ (list_filenames image_dir lines)) = Z.of_nat (List.length lines) /\
  fst (count_files exists_ (list_filenames image_dir lines)) =
    Z.of_nat (List.length (filter exists_ (list_filenames image_dir lines))).
Proof.
  split; [apply length_map |]. split.
  - intros f Hin. unfold list_filenames in Hin. apply in_map_iff in Hin.
    destruct Hin as (line & <- & Hin).
    exists line, (Text.basename (Text.rstrip line)).
    split; [exact Hin |]. split; [reflexivity |]. split; [reflexivity |].
    split; [apply basename_no_slash |]. split.
    + destruct (basename_suffix (Text.rstrip line)) as [d Hd].
      apply (rstrip_suffix d). rewrite <- Hd. apply rstrip_idem.
    + intros ->. reflexivity.
  - destruct (count_files_sum exists_ (list_filenames image_dir lines)) as [H1 H2].
    split; [| exact H1].
    rewrite H1, H2, <- Nat2Z.inj_add. f_equal.
    rewrite <- (length_map (fun filename => (image_dir ++ Text.basename (Text.rstrip filename))%string) lines).
    fold (list_filenames image_dir lines).
    generalize (list_filenames image_dir lines) as l.
    induction l as [| x l IH]; [reflexivity |].
    cbn [filter]. destruct (exists_ x); cbn [negb List.length]; lia.
Qed.

(** ** [file_directory.py] *)

Lemma texts_written_app a b :
  texts_written (a ++ b) = (texts_written a ++ texts_written b)%list.
Proof.
  induction a as [| e a IH]; [reflexivity |].
  destruct e; cbn [app texts_written]; rewrite IH; reflexivity.
Qed.

Lemma one_subdir_cases P subdir :
  (one_subdir P subdir =
     ([Opened (output_file P subdir);
       Wrote (output_file P subdir) (snd (text_of P subdir));
       Printed ("Saved " ++
                Text.str (Z.of_nat (List.length
                  (relative_paths subdir
                     (match listed P subdir with inr names => names | inl _ => [] end)))) ++
                " image paths to " ++ output_file P subdir)%string], None) /\
   (exists names, listed P subdir = inr names) /\
   open_w P (output_file P subdir) = None /\
   write_text P (output_file P subdir) (snd (text_of P subdir)) = None) \/
  (exists e, one_subdir P subdir = ([], Some e) /\ listed P subdir = inl e) \/
  (exists e, one_subdir P subdir = ([], Some e) /\
             (exists names, listed P subdir = inr names) /\
             open_w P (output_file P subdir) = Some e) \/
  (exists e, one_subdir P subdir = ([Opened (output_file P subdir)], Some e) /\
             (exists names, listed P subdir = inr names) /\
             open_w P (output_file P subdir) = None /\
             write_text P (output_file P subdir) (snd (text_of P subdir)) = Some e).
Proof.
  unfold one_subdir, text_of. cbn [snd].
  destruct (listed P subdir) as [e | names]; [right; left; eauto |].
  destruct (open_w P (output_file P subdir)) as [e |]; [right; right; left; eauto |].
  destruct (write_text P (output_file P subdir) (paths_text subdir names)) as [e |].
  - right; right; right. exists e. eauto.
  - left. eauto.
Qed.

Lemma for_subdirs_writes P l :
  (snd (for_subdirs P l) = None ->
   texts_written (fst (for_subdirs P l)) = map (text_of P) l) /\
  (forall e, snd (for_subdirs P l) = Some e ->
     exists done subdir rest,
       l = (done ++ subdir :: rest)%list /\
       texts_written (fst (for_subdirs P l)) = map (text_of P) done /\
       (listed P subdir = inl e \/
        open_w P (output_file P subdir) = Some e \/
        write_text P (output_file P subdir) (snd (text_of P subdir)) = Some e)).
Proof.
  induction l as [| subdir rest [IHok IHerr]]; cbn [for_subdirs].
  - split; [reflexivity | discriminate].
  - destruct (one_subdir_cases P subdir)
      as [(-> & _) | [(e & -> & H) | [(e & -> & _ & H) | (e & -> & _ & _ & H)]]].
    + destruct (for_subdirs P rest) as [events' r] eqn:E. cbn [fst snd] in *. split.
      * intros ->. cbn [app texts_written map]. rewrite (IHok eq_refl). reflexivity.
      * intros e ->. destruct (IHerr e eq_refl) as (done & sd & rest' & -> & Hw & Hwhy).
        exists (subdir :: done), sd, rest'. cbn [app texts_written map]. rewrite Hw.
        repeat split; assumption.
    + cbn [fst snd]. split; [discriminate |]. intros e' [= <-].
      exists [], subdir, rest. repeat split; auto.
    + cbn [fst snd]. split; [discriminate |]. intros e' [= <-].
      exists [], subdir, rest. repeat split; auto.
    + cbn [fst snd]. split; [discriminate |]. intros e' [= <-].
      exists [], subdir, rest. repeat split; auto.
Qed.

(** X7. The files [file_directory.py] writes are [train2017_paths.txt],
    [val2017_paths.txt] and [test2017_paths.txt] under the base
    directory, in this order. The text of each holds one path
    [./<subdir>/<name>] per listed name ending in [.jpg], [.png] or
    [.jpeg], in listing order, and no other; an image directory that
    does not exist gives an empty text, not an error. The script stops at
    the first exception of a listing, of opening an output file or of
    writing it, with the texts of the subdirectories before it written and
    none after: when the first output file cannot be opened, as when the
    base directory is missing, nothing is written at all. *)
Theorem path_files_written (P : Platform) :
  map (output_file P) subdirs =
    [os_path_join P base_dir "train2017_paths.txt";
     os_path_join P base_dir "val2017_paths.txt";
     os_path_join P base_dir "test2017_paths.txt"] /\
  (forall subdir names,
     List.length (relative_paths subdir names) = List.length (filter is_image_name names) /\
     (forall p, In p (relative_paths subdir names) <->
        exists filename, In filename names /\ is_image_name filename = true /\
                         p = ("./" ++ subdir ++ "/" ++ filename)%string)) /\
  (forall subdir,
     os_path_exists P (full_path P subdir) = false ->
     open_w P (output_file P subdir) = None ->
     write_text P (output_file P subdir) EmptyString = None ->
     one_subdir P subdir =
       ([Opened (output_file P subdir); Wrote (output_file P subdir) EmptyString;
         Printed ("Saved 0 image paths to " ++ output_file P subdir)%string], None)) /\
  (snd (file_directory P) = None ->
   texts_written (fst (file_directory P)) = map (text_of P) subdirs) /\
  (forall e, snd (file_directory P) = Some e ->
     exists done subdir rest,
       subdirs = (done ++ subdir :: rest)%list /\
       texts_written (fst (file_directory P)) = map (text_of P) done /\
       (listed P subdir = inl e \/
        open_w P (output_file P subdir) = Some e \/
        write_text P (output_file P subdir) (snd (text_of P subdir)) = Some e)) /\
  (forall e,
     os_path_exists P (full_path P "images/train2017") = false ->
     open_w P (os_path_join P base_dir "train2017_paths.txt") = Some e ->
     file_directory P = ([], Some e)).
Proof.
  split; [reflexivity |]. split; [| split; [| split; [| split]]].
  - intros subdir names. split; [apply length_map |].
    intros p. unfold relative_paths. rewrite in_map_iff. split.
    + intros (fn & <- & Hin). apply filter_In in Hin. destruct Hin as [Hin Him].
      exists fn. repeat split; assumption.
    + intros (fn & Hin & Him & ->). exists fn. split; [reflexivity |].
      apply filter_In. split; assumption.
  - intros subdir Hex Hopen Hwrite. unfold one_subdir, listed. rewrite Hex, Hopen.
    change (paths_text subdir []) with EmptyString. rewrite Hwrite. reflexivity.
  - apply (for_subdirs_writes P subdirs).
  - apply (for_subdirs_writes P subdirs).
  - intros e Hex Hopen. unfold file_directory, subdirs. cbn [for_subdirs].
    unfold one_subdir at 1, listed. rewrite Hex.
    change (output_file P "images/train2017")
      with (os_path_join P base_dir "train2017_paths.txt").
    rewrite Hopen. reflexivity.
Qed.

(** On a POSIX disk without the base directory nothing is written and
    the script ends in [FileNotFoundError]; on one that holds two images
    and a text file in [images/train2017] and no other image directory,
    the first file lists the two images and the other two are empty. *)
Example path_files_on_two_disks :
  file_directory
    {| os_path_join := Text.path_join;
       os_path_exists := fun _ => false;
       os_listdir := fun _ => inl FileNotFoundError;
       open_w := fun _ => Some FileNotFoundError;
       write_text := fun _ _ => None |} = ([], Some FileNotFoundError) /\
  texts_written (fst (file_directory
    {| os_path_join := Text.path_join;
       os_path_exists := String.eqb "D:/dataset_d/mscoco_yolo/images/train2017";
       os_listdir := fun _ => inr ["1.jpg"; "notes.txt"; "2.jpeg"]%string;
       open_w := fun _ => None;
       write_text := fun _ _ => None |})) =
    [("D:/dataset_d/mscoco_yolo/train2017_paths.txt",
      "./images/train2017/1.jpg" ++ String "010"%char "./images/train2017/2.jpeg");
     ("D:/dataset_d/mscoco_yolo/val2017_paths.txt", EmptyString);
     ("D:/dataset_d/mscoco_yolo/test2017_paths.txt", EmptyString)]%string.
Proof. split; vm_compute; reflexivity. Qed.

(** ** The archive *)

Lemma zip_match_artifact a version epochs :
  zip_match version epochs (artifact_name a version epochs) = true.
Proof.
  unfold zip_match, artifact_name. apply orb_true_iff. left.
  destruct a.
  - replace ("step_" ++ version ++ "_" ++ Text.str epochs ++ ".csv")%string
      with ("step" ++ ("_" ++ version ++ "_" ++ Text.str epochs ++ ".") ++ "csv")%string
      by (rewrite !text_app_assoc; reflexivity).
    apply contains_app.
  - replace ("last_" ++ version ++ "_" ++ Text.str epochs ++ ".pt")%string
      with ("last" ++ ("_" ++ version ++ "_" ++ Text.str epochs ++ ".") ++ "pt")%string
      by (rewrite !text_app_assoc; reflexivity).
    apply contains_app.
  - replace ("best_" ++ version ++ "_" ++ Text.str epochs ++ ".pt")%string
      with ("best" ++ ("_" ++ version ++ "_" ++ Text.str epochs ++ ".") ++ "pt")%string
      by (rewrite !text_app_assoc; reflexivity).
    apply contains_app.
  - replace ("mAP_vs_epochs_" ++ version ++ "_" ++ Text.str epochs ++ ".png")%string
      with ("mAP_vs_epochs" ++ ("_" ++ version ++ "_" ++ Text.str epochs ++ ".") ++ "png")%string
      by (rewrite !text_app_assoc; reflexivity).
    apply contains_app.
Qed.

Lemma path_join_weights filename :
  Text.contains "/" filename = false ->
  Text.path_join "./weights/" filename = ("./weights/" ++ filename)%string /\
  Text.basename (Text.path_join "./weights/" filename) = filename.
Proof.
  intros H.
  assert (Hp : prefix "/" filename = false).
  { destruct (prefix "/" filename) eqn:E; [| reflexivity].
    apply slash_prefix in E. congruence. }
  assert (Hj : Text.path_join "./weights/" filename = ("./weights/" ++ filename)%string).
  { unfold Text.path_join. rewrite Hp. reflexivity. }
  split; [exact Hj |]. rewrite Hj.
  change ("./weights/" ++ filename)%string with ("./weights" ++ "/" ++ filename)%string.
  apply basename_app. exact H.
Qed.

Lemma zip_members_all W files :
  (forall file, In file files -> zip_write W file = None) ->
  zip_members W files = (map (member_of W) files, None).
Proof.
  induction files as [| file rest IH]; intros H; cbn [zip_members map]; [reflexivity |].
  rewrite (H file (or_introl eq_refl)), IH; [reflexivity |].
  intros f Hf. apply H. right. exact Hf.
Qed.

Lemma zip_members_until W done file rest e :
  (forall f, In f done -> zip_write W f = None) ->
  zip_write W file = Some e ->
  zip_members W (done ++ file :: rest) = (map (member_of W) done, Some e).
Proof.
  induction done as [| d done IH]; intros H He; cbn [zip_members map app].
  - rewrite He. reflexivity.
  - rewrite (H d (or_introl eq_refl)), IH; [reflexivity | | exact He].
    intros f Hf. apply H. right. exact Hf.
Qed.

Lemma member_of_weights W filename :
  Text.contains "/" filename = false ->
  member_of W (Text.path_join "./weights/" filename) =
    {| read_from := ("./weights/" ++ filename)%string;
       stored_as := if isdir W ("./weights/" ++ filename)%string
                    then (filename ++ "/")%string else filename;
       has_contents := negb (isdir W ("./weights/" ++ filename)%string) |}.
Proof.
  intros H. destruct (path_join_weights filename H) as [Hj Hb].
  unfold member_of. rewrite Hb, Hj.
  destruct (isdir W ("./weights/" ++ filename)%string); reflexivity.
Qed.

(** X8. [zip_weights_directory] writes no archive when [./weights/]
    is missing, cannot be listed or holds no matching name, or when the
    archive cannot be opened. Otherwise the archive
    [result_<version>_<epochs>.zip] holds the listed names that match, in
    listing order, each read from [./weights/]: a regular file under its
    bare name with its contents, a directory as its name followed by a
    slash and without contents. A member that cannot be written ends the
    function with its exception and leaves the archive with the members
    before it. The log, the two checkpoints and the mAP figure of the
    run's own version and epoch count always match, and are stored with
    their contents when they are regular files. *)
Theorem zip_holds_run_artifacts (W : Weights) version epochs :
  (forall a, zip_match version epochs (artifact_name a version epochs) = true) /\
  (weights_exists W = false -> zip_weights_directory W version epochs = (None, None)) /\
  (forall e, weights_exists W = true -> weights_listdir W = inl e ->
     zip_weights_directory W version epochs = (None, Some e)) /\
  (forall names,
     weights_exists W = true -> weights_listdir W = inr names ->
     (forall filename, In filename names -> Text.contains "/" filename = false) ->
     let matching := filter (zip_match version epochs) names in
     let output_zip := ("result_" ++ version ++ "_" ++ Text.str epochs ++ ".zip")%string in
     let stored filename :=
       {| read_from := ("./weights/" ++ filename)%string;
          stored_as := if isdir W ("./weights/" ++ filename)%string
                       then (filename ++ "/")%string else filename;
          has_contents := negb (isdir W ("./weights/" ++ filename)%string) |} in
     (matching = [] -> zip_weights_directory W version epochs = (None, None)) /\
     (forall e, matching <> [] -> zip_open W output_zip = Some e ->
        zip_weights_directory W version epochs = (None, Some e)) /\
     (matching <> [] -> zip_open W output_zip = None ->
      (forall filename, In filename matching ->
         zip_write W ("./weights/" ++ filename)%string = None) ->
      zip_weights_directory W version epochs =
        (Some (output_zip, map stored matching), None)) /\
     (forall done filename rest e,
        matching = (done ++ filename :: rest)%list -> zip_open W output_zip = None ->
        (forall f, In f done -> zip_write W ("./weights/" ++ f)%string = None) ->
        zip_write W ("./weights/" ++ filename)%string = Some e ->
        zip_weights_directory W version epochs =
          (Some (output_zip, map stored done), Some e)) /\
     (forall a, In (artifact_name a version epochs) names ->
        zip_open W output_zip = None ->
        (forall filename, In filename matching ->
           zip_write W ("./weights/" ++ filename)%string = None) ->
        isdir W ("./weights/" ++ artifact_name a version epochs)%string = false ->
        exists members,
          zip_weights_directory W version epochs = (Some (output_zip, members), None) /\
          In {| read_from := ("./weights/" ++ artifact_name a version epochs)%string;
                stored_as := artifact_name a version epochs;
                has_contents := true |} members)).
Proof.
  split; [intros a; apply zip_match_artifact |].
  split; [intros H; unfold zip_weights_directory; rewrite H; reflexivity |].
  split; [intros e H He; unfold zip_weights_directory; rewrite H, He; reflexivity |].
  intros names Hex Hlist Hflat matching output_zip stored.
  assert (Hin : forall f, In f matching -> Text.contains "/" f = false).
  { intros f Hf. apply filter_In in Hf. apply Hflat, Hf. }
  assert (Hjoin : forall l, (forall f, In f l -> Text.contains "/" f = false) ->
                    map (Text.path_join "./weights/") l =
                    map (fun f => ("./weights/" ++ f)%string) l).
  { intros l Hl. apply map_ext_in. intros f Hf.
    apply (path_join_weights f (Hl f Hf)). }
  assert (Hstored : forall l, (forall f, In f l -> Text.contains "/" f = false) ->
                      map (member_of W) (map (Text.path_join "./weights/") l) = map stored l).
  { intros l Hl. rewrite map_map. apply map_ext_in. intros f Hf.
    apply member_of_weights, Hl, Hf. }
  assert (Hshape : zip_weights_directory W version epochs =
                   match matching with
                   | [] => (None, None)
                   | _ =>
                       match zip_open W output_zip with
                       | Some e => (None, Some e)
                       | None =>
                           let '(members, r) :=
                             zip_members W (map (Text.path_join "./weights/") matching) in
                           (Some (output_zip, members), r)
                       end
                   end).
  { unfold zip_weights_directory. rewrite Hex, Hlist. cbv zeta. fold matching.
    destruct matching; reflexivity. }
  assert (Hall : matching <> [] -> zip_open W output_zip = None ->
                 (forall filename, In filename matching ->
                    zip_write W ("./weights/" ++ filename)%string = None) ->
                 zip_weights_directory W version epochs =
                   (Some (output_zip, map stored matching), None)).
  { intros Hne Hopen Hw. rewrite Hshape, Hopen.
    rewrite zip_members_all.
    - rewrite (Hstored matching Hin). destruct matching; [congruence | reflexivity].
    - intros file Hfile. rewrite (Hjoin matching Hin) in Hfile.
      apply in_map_iff in Hfile. destruct Hfile as (f & <- & Hf). apply Hw, Hf. }
  split; [| split; [| split; [| split]]].
  - intros H. rewrite Hshape, H. reflexivity.
  - intros e Hne Hopen. rewrite Hshape, Hopen. destruct matching; [congruence | reflexivity].
  - exact Hall.
  - intros done filename rest e Hsplit Hopen Hdone He.
    assert (Hd : forall f, In f done -> Text.contains "/" f = false).
    { intros f Hf. apply Hin. rewrite Hsplit. apply in_or_app. left. exact Hf. }
    assert (Hfn : Text.contains "/" filename = false).
    { apply Hin. rewrite Hsplit. apply in_or_app. right. left. reflexivity. }
    rewrite Hshape, Hopen, Hsplit, map_app. cbn [map].
    rewrite (zip_members_until W _ _ _ e).
    + rewrite (Hstored done Hd). destruct done; reflexivity.
    + intros f Hf. rewrite (Hjoin done Hd) in Hf.
      apply in_map_iff in Hf. destruct Hf as (f' & <- & Hf'). apply Hdone, Hf'.
    + rewrite (proj1 (path_join_weights filename Hfn)). exact He.
  - intros a Hina Hopen Hw Hfile.
    assert (Hf : In (artifact_name a version epochs) matching).
    { apply filter_In. split; [exact Hina | apply zip_match_artifact]. }
    exists (map stored matching). split.
    + apply Hall; [| exact Hopen | exact Hw]. intros H. rewrite H in Hf. destruct Hf.
    + apply in_map_iff. exists (artifact_name a version epochs).
      split; [| exact Hf]. unfold stored. rewrite Hfile. reflexivity.
Qed.

(** A [./weights/] that holds the two checkpoints of a run and a
    directory with a matching name: the directory is stored as an empty
    entry. *)
Example zip_with_a_directory :
  zip_weights_directory
    {| weights_exists := true;
       weights_listdir := inr ["best_n_5.pt"; "old_n_5.d"; "last_n_5.pt"; "notes.txt"]%string;
       isdir := String.eqb "./weights/old_n_5.d";
       zip_open := fun _ => None;
       zip_write := fun _ => None |} "n" 5 =
    (Some ("result_n_5.zip",
           [{| read_from := "./weights/best_n_5.pt"; stored_as := "best_n_5.pt";
               has_contents := true |};
            {| read_from := "./weights/old_n_5.d"; stored_as := "old_n_5.d/";
               has_contents := false |};
            {| read_from := "./weights/last_n_5.pt"; stored_as := "last_n_5.pt";
               has_contents := true |}]), None)%string.
Proof. vm_compute. reflexivity. Qed.

(** ** What an evaluation writes *)

(** What [plot_mAP] does, by outcome. *)
Lemma plot_mAP_cases env f :
  match snd (plot_mAP env f) with
  | inr _ =>
      plt_raises env = false /\
      exists rows series,
        step_csv f = Some (Header :: rows) /\ read_rows rows = inr series /\
        series <> [] /\ fst (plot_mAP env f) = with_map_png (Some series) f
  | inl _ => fst (plot_mAP env f) = f
  end.
Proof.
  unfold plot_mAP.
  destruct (step_csv f) as [[| [| e0 b0 c0 d0 m0] rest] |] eqn:Es; cbn [read_log snd fst];
    try reflexivity.
  - destruct (read_rows rest) as [err | [| p series]] eqn:Er; cbn [snd fst]; try reflexivity.
    destruct (plt_raises env) eqn:Ep; cbn [snd fst]; [reflexivity |].
    split; [reflexivity |]. exists rest, (p :: series).
    repeat split; (reflexivity || assumption || discriminate).
  - destruct rest; reflexivity.
Qed.

(** X9. [test] writes nothing but the mAP figure: the [weights]
    directory, the log and both checkpoints are as before, whatever the
    outcome; when it raises, no file at all has changed; it returns only
    on a log that starts with the header and has at least one row, all
    readable, and then the figure holds the rows of the log and the result
    is what the AP computation gave. Without a model it raises
    [FileNotFoundError] unless a best checkpoint exists; on a log without
    its header it raises [KeyError] at the second line, and on a log
    without a row the [ValueError] of line 231. *)
Theorem test_writes_only_the_figure env model_given ap f :
  weights_dir (fst (test env model_given ap f)) = weights_dir f /\
  step_csv (fst (test env model_given ap f)) = step_csv f /\
  last_pt (fst (test env model_given ap f)) = last_pt f /\
  best_pt (fst (test env model_given ap f)) = best_pt f /\
  (forall e, snd (test env model_given ap f) = inl e -> fst (test env model_given ap f) = f) /\
  (forall m, snd (test env model_given ap f) = inr m ->
     m = ap /\ plt_raises env = false /\
     (model_given = false -> best_pt f <> None) /\
     exists rows series,
       step_csv f = Some (Header :: rows) /\ read_rows rows = inr series /\ series <> [] /\
       map_png (fst (test env model_given ap f)) = Some series) /\
  (model_given = false -> best_pt f = None ->
   snd (test env model_given ap f) = inl FileNotFoundError) /\
  (forall e0 b c d m0 line rest,
     step_csv f = Some (Row e0 b c d m0 :: line :: rest) ->
     snd (test env true ap f) = inl KeyError) /\
  (step_csv f = Some [] \/ step_csv f = Some [Header] \/
   (exists e0 b c d m0, step_csv f = Some [Row e0 b c d m0]) ->
   snd (test env true ap f) = inl ValueError).
Proof.
  pose proof (plot_mAP_cases env f) as Hp.
  assert (Hkeep : weights_dir (fst (plot_mAP env f)) = weights_dir f /\
                  step_csv (fst (plot_mAP env f)) = step_csv f /\
                  last_pt (fst (plot_mAP env f)) = last_pt f /\
                  best_pt (fst (plot_mAP env f)) = best_pt f).
  { destruct (snd (plot_mAP env f)) as [e | u].
    - rewrite Hp. repeat split; reflexivity.
    - destruct Hp as (_ & rows & series & _ & _ & _ & ->). repeat split; reflexivity. }
  destruct Hkeep as (K1 & K2 & K3 & K4).
  assert (Hload : model_given = true \/ best_pt f <> None ->
                  test env model_given ap f =
                  (fst (plot_mAP env f),
                   match snd (plot_mAP env f) with inl e => inl e | inr _ => inr ap end)).
  { intros H. unfold test.
    destruct model_given; [| destruct (best_pt f); [| destruct H; congruence]];
      destruct (plot_mAP env f) as [f' [e | u]]; reflexivity. }
  assert (Hnone : model_given = false -> best_pt f = None ->
                  test env model_given ap f = (f, inl FileNotFoundError)).
  { intros -> Hb. unfold test. rewrite Hb. reflexivity. }
  assert (Hcase : (model_given = true \/ best_pt f <> None) \/
                  (model_given = false /\ best_pt f = None)).
  { destruct model_given; [left; left; reflexivity |].
    destruct (best_pt f); [left; right; discriminate | right; split; reflexivity]. }
  split; [| split; [| split; [| split]]].
  1-4: destruct Hcase as [H | [H1 H2]];
       [rewrite (Hload H); cbn [fst]; assumption | rewrite (Hnone H1 H2); reflexivity].
  split; [| split; [| split; [| split]]].
  - intros e. destruct Hcase as [H | [H1 H2]].
    + rewrite (Hload H). cbn [fst snd].
      destruct (snd (plot_mAP env f)) as [e' | u]; [intros _; exact Hp | discriminate].
    + rewrite (Hnone H1 H2). reflexivity.
  - intros m. destruct Hcase as [H | [H1 H2]].
    + rewrite (Hload H). cbn [fst snd].
      destruct (snd (plot_mAP env f)) as [e' | u]; [discriminate |].
      intros Hm. injection Hm as <-.
      destruct Hp as (Hplt & rows & series & Hcsv & Hread & Hne & Hfst).
      split; [reflexivity |]. split; [exact Hplt |]. split.
      * intros Hmg. destruct H as [H | H]; [congruence | exact H].
      * exists rows, series. rewrite Hfst. repeat split; assumption.
    + rewrite (Hnone H1 H2). discriminate.
  - intros H1 H2. rewrite (Hnone H1 H2). reflexivity.
  - intros e0 b c d m0 line rest Hcsv. unfold test, plot_mAP. rewrite Hcsv. reflexivity.
  - intros [Hcsv | [Hcsv | (e0 & b & c & d & m0 & Hcsv)]];
      unfold test, plot_mAP; rewrite Hcsv; reflexivity.
Qed.

Lemma test_keeps_records env (ap : Z -> Metrics) :
  keeps_records (fun epoch => test env true (ap epoch)).
Proof.
  intros epoch f. unfold test.
  pose proof (plot_mAP_cases env f) as Hp.
  destruct (plot_mAP env f) as [f' [e | u]]; cbn [fst snd] in *.
  - subst f'. repeat split; reflexivity.
  - destruct Hp as (_ & rows & series & _ & _ & _ & ->). repeat split; reflexivity.
Qed.

(** ** The log and the checkpoints through the epochs *)

Lemma flush_world_csv w : step_csv (fs (flush_world w)) = Some (log_view w).
Proof. reflexivity. Qed.

Lemma strip_keeps_csv a w :
  step_csv (fs (world_of (strip_optimizer a w))) = step_csv (fs w).
Proof.
  unfold strip_optimizer. out_simpl. cbn [fs set_fs].
  destruct (ckpt_of a (fs w)); [| reflexivity].
  destruct a; reflexivity.
Qed.

Lemma strip_keeps_epochs a w :
  option_map ck_epoch (last_pt (fs (world_of (strip_optimizer a w)))) =
    option_map ck_epoch (last_pt (fs w)) /\
  option_map ck_epoch (best_pt (fs (world_of (strip_optimizer a w)))) =
    option_map ck_epoch (best_pt (fs w)) /\
  map_png (fs (world_of (strip_optimizer a w))) = map_png (fs w).
Proof.
  unfold strip_optimizer. out_simpl. cbn [fs set_fs].
  destruct a; cbn [ckpt_of with_ckpt]; try (repeat split; reflexivity).
  - destruct (last_pt (fs w)) eqn:E; [| rewrite E; repeat split; reflexivity].
    cbn [with_last_pt last_pt best_pt map_png option_map ck_epoch]. repeat split; reflexivity.
  - destruct (best_pt (fs w)) eqn:E; [| rewrite E; repeat split; reflexivity].
    cbn [with_best_pt last_pt best_pt map_png option_map ck_epoch]. repeat split; reflexivity.
Qed.

Lemma log_at_snoc env evals p :
  Header :: map (epoch_row env) evals ++ [epoch_row env p] = log_at env (evals ++ [p]).
Proof.
  unfold log_at. destruct (evals ++ [p]) eqn:E.
  - destruct evals; discriminate E.
  - rewrite <- E, map_app. reflexivity.
Qed.

Lemma checkpoints_track_step series best f f' e m :
  (0 <= m)%Q ->
  checkpoints_track series best f ->
  option_map ck_epoch (last_pt f') = Some e ->
  option_map ck_epoch (best_pt f') =
    (if Py.eq (update_best best m) m then Some e else option_map ck_epoch (best_pt f)) ->
  checkpoints_track (series ++ [(e, m)]) (update_best best m) f'.
Proof.
  intros Hm (Hzero & Hle & Hne) Hlast Hbest.
  assert (Hup : (best <= update_best best m)%Q /\ (m <= update_best best m)%Q).
  { unfold update_best. destruct (Py.gt m best) eqn:E.
    - apply gt_true_lt in E. split; [apply Qlt_le_weak; exact E | apply Qle_refl].
    - apply gt_false_le in E. split; [apply Qle_refl | exact E]. }
  destruct Hup as [Hup1 Hup2].
  split; [intros H; destruct series; discriminate H |]. split.
  - intros e' x Hin. apply in_app_or in Hin. destruct Hin as [Hin | [Heq | []]].
    + eapply Qle_trans; [eapply Hle; exact Hin | exact Hup1].
    + injection Heq as _ <-. exact Hup2.
  - intros _. split; [| exists series, (e, m); split; [reflexivity | exact Hlast]].
    destruct (Py.eq (update_best best m) m) eqn:Eeq.
    + exists series, e, m, []. split; [reflexivity |]. split.
      * unfold Py.eq in Eeq. apply Qeq_bool_iff in Eeq. symmetry. exact Eeq.
      * split; [exact Hbest |]. intros e' x [].
    + assert (Hlt : (m < best)%Q).
      { apply Qnot_le_lt. intros H. apply best_saved_iff in H. congruence. }
      assert (Hsame : update_best best m = best).
      { unfold update_best. destruct (Py.gt m best) eqn:E; [| reflexivity].
        apply gt_true_lt in E. exfalso. eapply Qlt_irrefl. eapply Qlt_trans; eassumption. }
      rewrite Hsame.
      destruct series as [| p series'].
      { exfalso. specialize (Hzero eq_refl). rewrite Hzero in Hlt.
        eapply Qlt_irrefl. eapply Qlt_le_trans; eassumption. }
      destruct Hne as [(pre & k & v & post & Hs & Hv & Hk & Hpost) _]; [discriminate |].
      exists pre, k, v, (post ++ [(e, m)]).
      split; [rewrite Hs, <- app_assoc; reflexivity |]. split; [exact Hv |].
      split; [rewrite Hbest; exact Hk |].
      intros e' x Hin. apply in_app_or in Hin. destruct Hin as [Hin | [Heq | []]].
      * eapply Hpost; exact Hin.
      * injection Heq as _ <-. exact Hlt.
Qed.

Lemma range_next n m k l2 :
  0 <= m -> range n = range m ++ k :: l2 -> k = m /\ m < n.
Proof.
  intros Hm H.
  assert (H' : range n = (range m ++ [k]) ++ l2) by (rewrite <- app_assoc; exact H).
  destruct (range_prefix _ _ _ H') as (m' & Hm' & Heq & _).
  assert (Hlen : m' = m + 1).
  { pose proof (length_range m') as L1. rewrite <- Heq in L1.
    rewrite length_app, Nat2Z.inj_add, length_range in L1. cbn in L1. lia. }
  subst m'. rewrite range_succ in Heq by exact Hm.
  apply app_inj_tail in Heq. destruct Heq as [_ ->]. split; [reflexivity | lia].
Qed.

Section Records.

Variable env : Env.
Variable args : Args.
Variable evaluate : Z -> FS -> FS * (exn + Metrics).
Hypothesis quiet : keeps_records evaluate.
Hypothesis primary : local_rank args = 0.

(** What a turn of the loop on local rank 0 leaves in the files. *)
Lemma epoch_body_files accumulate ema epoch best w :
  let o := epoch_body env args evaluate accumulate ema epoch best w in
  match snd (evaluate epoch (fs w)) with
  | inl e =>
      result_of o = inl e /\ step_csv (fs (world_of o)) = step_csv (fs w) /\
      log_buf (world_of o) = log_buf w /\
      last_pt (fs (world_of o)) = last_pt (fs w) /\
      best_pt (fs (world_of o)) = best_pt (fs w)
  | inr m =>
      result_of o = inr (update_best best (mean_ap m)) /\
      step_csv (fs (world_of o)) = Some (log_view w ++ [epoch_row env (epoch, m)]) /\
      log_buf (world_of o) = [] /\
      last_pt (fs (world_of o)) = Some {| ck_epoch := epoch + 1; ck_stripped := false |} /\
      best_pt (fs (world_of o)) =
        (if Py.eq (update_best best (mean_ap m)) (mean_ap m)
         then Some {| ck_epoch := epoch + 1; ck_stripped := false |}
         else best_pt (fs w))
  end.
Proof.
  cbv zeta.
  destruct (quiet epoch (fs w)) as (_ & Hcsv & Hlast & Hbest).
  assert (Hr : (local_rank args =? 0) = true) by (apply Z.eqb_eq; exact primary).
  unfold epoch_body, mosaic_switch, when. rewrite Hr.
  assert (Hstep : forall w0 : World,
             fs w0 = fs w -> log_buf w0 = log_buf w ->
             let o := epoch_end env evaluate epoch best w0 in
             match snd (evaluate epoch (fs w)) with
             | inl e =>
                 result_of o = inl e /\ step_csv (fs (world_of o)) = step_csv (fs w) /\
                 log_buf (world_of o) = log_buf w /\
                 last_pt (fs (world_of o)) = last_pt (fs w) /\
                 best_pt (fs (world_of o)) = best_pt (fs w)
             | inr m =>
                 result_of o = inr (update_best best (mean_ap m)) /\
                 step_csv (fs (world_of o)) =
                   Some (log_view w ++ [epoch_row env (epoch, m)]) /\
                 log_buf (world_of o) = [] /\
                 last_pt (fs (world_of o)) =
                   Some {| ck_epoch := epoch + 1; ck_stripped := false |} /\
                 best_pt (fs (world_of o)) =
                   (if Py.eq (update_best best (mean_ap m)) (mean_ap m)
                    then Some {| ck_epoch := epoch + 1; ck_stripped := false |}
                    else best_pt (fs w))
             end).
  { intros w0 Hfs Hbuf. cbv zeta.
    unfold epoch_end, run_eval, write_row, flush, save_checkpoints,
      when, bind, torch_save, ret. rewrite Hfs.
    destruct (evaluate epoch (fs w)) as [f' [e | m]]; cbn [fst snd] in *.
    - out_simpl. cbn [fs set_fs log_buf]. repeat split; assumption.
    - unfold epoch_row. cbn [fst snd].
      destruct (avg_losses env epoch) as [[box cls] dfl].
      destruct (Py.eq (update_best best (mean_ap m)) (mean_ap m)); out_simpl;
        unfold log_view, flush_world;
        cbn [fs set_fs log_buf set_log_buf step_csv with_step_csv with_ckpt
             with_last_pt with_best_pt last_pt best_pt];
        rewrite ?Hcsv, ?Hbuf, ?app_nil_r, ?app_assoc;
        repeat split; try reflexivity; assumption. }
  rewrite !bind_run.
  destruct (distributed args), (epochs args - epoch =? 10);
    unfold emit, emits, modify, ret, bind; out_simpl;
    apply Hstep; reflexivity.
Qed.

(** The epochs a loop gets through, however it ends: each evaluation
    that returned gave a row, on the log as it was on disk then; the
    loop ends with the list or in the evaluation that raised. With
    evaluations that return no negative mAP the checkpoints follow. *)
Lemma loop_records accumulate ema l :
  forall evals best w,
    step_csv (fs w) = Some (log_at env evals) ->
    log_view w = Header :: map (epoch_row env) evals ->
    exists evals' l2 best',
      l = map fst evals' ++ l2 /\
      step_csv (fs (world_of (for_fold l best (epoch_body env args evaluate accumulate ema) w)))
        = Some (log_at env (evals ++ evals')) /\
      log_view (world_of (for_fold l best (epoch_body env args evaluate accumulate ema) w))
        = Header :: map (epoch_row env) (evals ++ evals') /\
      (forall pre k m post, evals' = pre ++ (k, m) :: post ->
         exists f, step_csv f = Some (log_at env (evals ++ pre)) /\
                   snd (evaluate k f) = inr m) /\
      (forall b, result_of (for_fold l best (epoch_body env args evaluate accumulate ema) w)
                 = inr b -> l2 = []) /\
      (forall e, result_of (for_fold l best (epoch_body env args evaluate accumulate ema) w)
                 = inl e ->
         exists k l2', l2 = k :: l2' /\
           exists f, step_csv f = Some (log_at env (evals ++ evals')) /\
                     snd (evaluate k f) = inl e) /\
      ((forall k f m, snd (evaluate k f) = inr m -> (0 <= mean_ap m)%Q) ->
       checkpoints_track (map exact_point evals) best (fs w) ->
       checkpoints_track (map exact_point (evals ++ evals')) best'
         (fs (world_of (for_fold l best (epoch_body env args evaluate accumulate ema) w)))).
Proof.
  induction l as [| x l IH]; intros evals best w Hdisk Hview.
  - exists [], [], best. cbn [for_fold]. unfold ret. out_simpl. rewrite !app_nil_r.
    split; [reflexivity |]. split; [exact Hdisk |]. split; [exact Hview |].
    split; [intros pre k m post H; destruct pre; discriminate H |].
    split; [reflexivity |]. split; [intros e H; discriminate H |].
    intros _ H. exact H.
  - cbn [for_fold]. rewrite bind_run.
    pose proof (epoch_body_files accumulate ema x best w) as Hb. cbv zeta in Hb.
    destruct (snd (evaluate x (fs w))) as [e | m] eqn:Em.
    + destruct Hb as (Hres & Hcsv & Hbuf & Hlast & Hbest). rewrite Hres. out_simpl.
      exists [], (x :: l), best. rewrite !app_nil_r.
      split; [reflexivity |]. split; [rewrite Hcsv; exact Hdisk |]. split.
      { unfold log_view in *. rewrite Hcsv, Hbuf. exact Hview. }
      split; [intros pre k m post H; destruct pre; discriminate H |].
      split; [intros b H; discriminate H |]. split.
      * intros e' H. injection H as <-. exists x, l. split; [reflexivity |].
        exists (fs w). split; [exact Hdisk | exact Em].
      * intros _ (Hz & Hle & Hne). split; [exact Hz |]. split; [exact Hle |].
        rewrite Hlast, Hbest. exact Hne.
    + destruct Hb as (Hres & Hcsv & Hbuf & Hlast & Hbest). rewrite Hres. out_simpl.
      set (w1 := world_of (epoch_body env args evaluate accumulate ema x best w)) in *.
      assert (Hdisk1 : step_csv (fs w1) = Some (log_at env (evals ++ [(x, m)]))).
      { rewrite Hcsv, Hview. cbn [app]. rewrite log_at_snoc. reflexivity. }
      assert (Hview1 : log_view w1 = Header :: map (epoch_row env) (evals ++ [(x, m)])).
      { unfold log_view. rewrite Hcsv, Hbuf, app_nil_r, Hview, map_app. reflexivity. }
      destruct (IH (evals ++ [(x, m)]) (update_best best (mean_ap m)) w1 Hdisk1 Hview1)
        as (evals' & l2 & best' & Hl & Hd & Hv & Hjust & Hdone & Hraise & Htrack).
      exists ((x, m) :: evals'), l2, best'.
      rewrite <- app_assoc in Hd, Hv, Hraise, Htrack. cbn [app] in Hd, Hv, Hraise, Htrack.
      split; [cbn [map fst app]; rewrite Hl; reflexivity |].
      split; [exact Hd |]. split; [exact Hv |]. split.
      { intros pre k m' post H. destruct pre as [| p pre].
        - injection H as <- <- _. rewrite app_nil_r. exists (fs w).
          split; [exact Hdisk | exact Em].
        - injection H as <- H. destruct (Hjust pre k m' post H) as (f & Hf & He).
          rewrite <- app_assoc in Hf. exists f. split; assumption. }
      split; [exact Hdone |]. split; [exact Hraise |].
      intros Hpos Htr. apply (Htrack Hpos).
      rewrite map_app. cbn [map exact_point fst snd].
      apply (checkpoints_track_step _ best (fs w) (fs w1) (x + 1) (mean_ap m)).
      * eapply Hpos. exact Em.
      * exact Htr.
      * rewrite Hlast. reflexivity.
      * rewrite Hbest. destruct (Py.eq _ _); reflexivity.
Qed.

(** The same for a run of [train] past its preamble. *)
Lemma train_records accumulate wd w :
  supported (version args) = true ->
  accumulate_of (batch_size args) (world_size args) = inr accumulate ->
  scale_weight_decay (weight_decay w) (batch_size args) (world_size args) accumulate = inr wd ->
  weights_dir (fs w) = true ->
  exists n evals best',
    0 <= n <= Z.max 0 (epochs args) /\
    map fst evals = range n /\
    step_csv (fs (world_of (train_with env args evaluate w))) =
      Some (Header :: map (epoch_row env) evals) /\
    (forall pre k m post, evals = pre ++ (k, m) :: post ->
       exists f, step_csv f = Some (log_at env pre) /\ snd (evaluate k f) = inr m) /\
    (forall u, result_of (train_with env args evaluate w) = inr u ->
               n = Z.max 0 (epochs args)) /\
    (forall e, result_of (train_with env args evaluate w) = inl e ->
       n < epochs args /\
       exists f, step_csv f = Some (log_at env evals) /\ snd (evaluate n f) = inl e) /\
    ((forall k f m, snd (evaluate k f) = inr m -> (0 <= mean_ap m)%Q) ->
     exists f0,
       checkpoints_track (map exact_point evals) best' f0 /\
       option_map ck_epoch (last_pt (fs (world_of (train_with env args evaluate w)))) =
         option_map ck_epoch (last_pt f0) /\
       option_map ck_epoch (best_pt (fs (world_of (train_with env args evaluate w)))) =
         option_map ck_epoch (best_pt f0)).
Proof.
  intros Hsup Hacc Hscale Hdir.
  rewrite (train_with_eq env args evaluate accumulate wd w Hsup Hacc Hscale Hdir). cbv zeta.
  assert (Hr : (local_rank args =? 0) = true) by (apply Z.eqb_eq; exact primary).
  unfold epoch_loop, first_epochs.
  assert (Hdisk : step_csv (fs (start_world env args accumulate w)) = Some (log_at env [])).
  { unfold start_world. rewrite Hr. reflexivity. }
  assert (Hview : log_view (start_world env args accumulate w) = Header :: map (epoch_row env) []).
  { unfold start_world. rewrite Hr. reflexivity. }
  destruct (loop_records accumulate (local_rank args =? 0) (range (epochs args)) [] 0%Q
              (start_world env args accumulate w) Hdisk Hview)
    as (evals & l2 & best' & Hl & _ & Hv & Hjust & Hdone & Hraise & Htrack).
  cbn [app] in Hv, Hjust, Hraise, Htrack.
  destruct (range_prefix _ _ _ Hl) as (n & Hn & Hfst & Hfull).
  assert (Hinit : checkpoints_track (map exact_point []) 0%Q
                    (fs (start_world env args accumulate w))).
  { split; [reflexivity |]. split; [intros e x [] | intros H; exfalso; apply H; reflexivity]. }
  exists n, evals, best'. split; [exact Hn |]. split; [exact Hfst |].
  destruct (for_fold (range (epochs args)) 0%Q
              (epoch_body env args evaluate accumulate (local_rank args =? 0))
              (start_world env args accumulate w)) as [[ev w2] [e | b]] eqn:Eo;
    out_simpl.
  - split; [rewrite flush_world_csv, Hv; reflexivity |]. split; [exact Hjust |].
    split; [intros u H; discriminate H |]. split.
    + intros e' H. injection H as <-.
      destruct (Hraise e eq_refl) as (k & l2' & -> & f & Hf & He).
      rewrite Hfst in Hl.
      destruct (range_next (epochs args) n k l2' (proj1 Hn) Hl) as [-> Hlt].
      split; [exact Hlt |]. exists f. split; assumption.
    + intros Hpos. exists (fs w2). split; [exact (Htrack Hpos Hinit) |].
      split; reflexivity.
  - rewrite Hr. out_simpl. unfold bind.
    destruct (strip_optimizer LastPt (flush_world w2)) as [[ev1 w3] r1] eqn:E1.
    assert (Hr1 : r1 = inr tt).
    { unfold strip_optimizer in E1. injection E1 as _ _ <-. reflexivity. }
    subst r1.
    pose proof (strip_keeps_csv LastPt (flush_world w2)) as Hc1.
    pose proof (strip_keeps_epochs LastPt (flush_world w2)) as (Hl1 & Hb1 & _).
    rewrite E1 in Hc1, Hl1, Hb1. out_simpl.
    destruct (strip_optimizer BestPt w3) as [[ev2 w4] r2] eqn:E2.
    pose proof (strip_keeps_csv BestPt w3) as Hc2.
    pose proof (strip_keeps_epochs BestPt w3) as (Hl2 & Hb2 & _).
    rewrite E2 in Hc2, Hl2, Hb2. out_simpl.
    split; [rewrite Hc2, Hc1, flush_world_csv, Hv; reflexivity |]. split; [exact Hjust |].
    split; [intros u _; apply Hfull; eapply Hdone; reflexivity |].
    split; [intros e H; discriminate H |].
    intros Hpos. exists (fs w2). split; [exact (Htrack Hpos Hinit) |].
    split; [rewrite Hl2, Hl1; reflexivity | rewrite Hb2, Hb1; reflexivity].
Qed.

End Records.

(** X10. On local rank 0, with an evaluation that leaves the log
    alone (as [test] does), the log [train] leaves on disk is the header
    followed by one row per epoch whose evaluation returned, for the
    epochs 0, 1, ... in order, each row holding the epoch's number and,
    with three decimals, the metrics that evaluation returned on the log
    as it was on disk then (empty at the first epoch, the header still
    being in the buffer). A run that returns has a row for every epoch; a
    run that raised did so in the evaluation of the first epoch without a
    row, and the rows flushed before are kept: the file is closed on the
    way out. *)
Theorem log_has_a_row_per_epoch env args evaluate w accumulate wd :
  keeps_records evaluate ->
  local_rank args = 0 ->
  supported (version args) = true ->
  accumulate_of (batch_size args) (world_size args) = inr accumulate ->
  scale_weight_decay (weight_decay w) (batch_size args) (world_size args) accumulate = inr wd ->
  weights_dir (fs w) = true ->
  exists n evals,
    0 <= n <= Z.max 0 (epochs args) /\
    map fst evals = range n /\
    step_csv (fs (world_of (train_with env args evaluate w))) =
      Some (Header :: map (epoch_row env) evals) /\
    (forall pre k m post, evals = pre ++ (k, m) :: post ->
       exists f, step_csv f = Some (log_at env pre) /\ snd (evaluate k f) = inr m) /\
    (forall u, result_of (train_with env args evaluate w) = inr u ->
               n = Z.max 0 (epochs args)) /\
    (forall e, result_of (train_with env args evaluate w) = inl e ->
       n < epochs args /\
       exists f, step_csv f = Some (log_at env evals) /\ snd (evaluate n f) = inl e).
Proof.
  intros Hq Hrank Hsup Hacc Hscale Hdir.
  destruct (train_records env args evaluate Hq Hrank accumulate wd w Hsup Hacc Hscale Hdir)
    as (n & evals & best' & Hn & Hfst & Hcsv & Hjust & Hdone & Hraise & _).
  exists n, evals. repeat split; try assumption; try apply Hn.
  - apply (Hraise e H).
  - apply (Hraise e H).
Qed.

Lemma log_has_a_row_per_epoch_witness :
  keeps_records (fun ep => test Sample.env true (ap_result Sample.env ep)) /\
  local_rank (Sample.args 0 1 32 2 "n") = 0 /\
  supported (version (Sample.args 0 1 32 2 "n")) = true /\
  accumulate_of (batch_size (Sample.args 0 1 32 2 "n")) (world_size (Sample.args 0 1 32 2 "n")) = inr 2 /\
  scale_weight_decay (weight_decay Sample.world) (batch_size (Sample.args 0 1 32 2 "n"))
    (world_size (Sample.args 0 1 32 2 "n")) 2 = inr Sample.wd /\
  weights_dir (fs Sample.world) = true /\
  exists n evals,
    0 <= n <= Z.max 0 (epochs (Sample.args 0 1 32 2 "n")) /\
    map fst evals = range n /\
    step_csv (fs (world_of (train Sample.env (Sample.args 0 1 32 2 "n") Sample.world)))
      = Some (Header :: map (epoch_row Sample.env) evals).
Proof.
  pose proof (test_keeps_records Sample.env (ap_result Sample.env)) as Hq.
  split; [exact Hq |]. split; [reflexivity |]. split; [reflexivity |].
  split; [reflexivity |]. split; [reflexivity |]. split; [reflexivity |].
  destruct (log_has_a_row_per_epoch Sample.env (Sample.args 0 1 32 2 "n")
              (fun ep => test Sample.env true (ap_result Sample.env ep)) Sample.world 2 Sample.wd
              Hq eq_refl eq_refl eq_refl eq_refl eq_refl)
    as (n & evals & Hn & Hfst & Hcsv & _).
  exists n, evals. split; [exact Hn |]. split; [exact Hfst | exact Hcsv].
Defined.

(** ** Which epochs the checkpoints are of *)






(** Two epochs evaluated to an mAP of 0.3004 and then 0.3001: [best.pt]
    is of the first, and both rows of the log read 0.300. With 0.3 twice,
    [best.pt] is of the second. *)
Example checkpoints_and_rounded_rows :
  best_pt (fs (world_of (train_with Sample.env (Sample.args 0 1 32 2 "n")
                           (Sample.eval_of [3004 # 10000; 3001 # 10000]) Sample.world))) =
    Some {| ck_epoch := 1; ck_stripped := true |} /\
  option_map (map (fun l => match l with
                            | Header => None
                            | Row e _ _ _ m => Some (e, Qred (mean_ap m))
                            end))
             (step_csv (fs (world_of (train_with Sample.env (Sample.args 0 1 32 2 "n")
                                        (Sample.eval_of [3004 # 10000; 3001 # 10000])
                                        Sample.world)))) =
    Some [None; Some (1, 3 # 10); Some (2, 3 # 10)] /\
  best_pt (fs (world_of (train_with Sample.env (Sample.args 0 1 32 2 "n")
                           (Sample.eval_of [3 # 10; 3 # 10]) Sample.world))) =
    Some {| ck_epoch := 2; ck_stripped := true |}.
Proof. repeat split; vm_compute; reflexivity. Qed.

(** ** A process of another local rank *)

Lemma micro_step_secondary env accumulate step :
  filter primary_call (micro_step env accumulate false step) = [].
Proof.
  unfold micro_step, scaler_step.
  destruct (step mod accumulate =? 0); [| reflexivity].
  destruct (overflow env step); reflexivity.
Qed.

Lemma epoch_steps_secondary env accumulate epoch :
  filter primary_call (epoch_steps env accumulate false epoch) = [].
Proof.
  unfold epoch_steps. induction (range (num_steps env)) as [| i l IH]; [reflexivity |].
  cbn [flat_map]. rewrite filter_app, micro_step_secondary, IH. reflexivity.
Qed.

Lemma epoch_body_secondary env args evaluate accumulate epoch best w :
  (local_rank args =? 0) = false ->
  result_of (epoch_body env args evaluate accumulate false epoch best w) = inr best /\
  fs (world_of (epoch_body env args evaluate accumulate false epoch best w)) = fs w /\
  log_buf (world_of (epoch_body env args evaluate accumulate false epoch best w)) = log_buf w /\
  filter primary_call (events_of (epoch_body env args evaluate accumulate false epoch best w)) = [].
Proof.
  intros Hr. unfold epoch_body, mosaic_switch, when. rewrite Hr.
  pose proof (epoch_steps_secondary env accumulate epoch) as Hs.
  destruct (distributed args), (epochs args - epoch =? 10);
    unfold bind, emit, emits, modify, ret; out_simpl;
    cbn [app filter primary_call]; rewrite ?filter_app, ?Hs;
    repeat split; reflexivity.
Qed.

Lemma loop_secondary env args evaluate accumulate l :
  (local_rank args =? 0) = false ->
  forall best w,
    result_of (for_fold l best (epoch_body env args evaluate accumulate false) w) = inr best /\
    fs (world_of (for_fold l best (epoch_body env args evaluate accumulate false) w)) = fs w /\
    log_buf (world_of (for_fold l best (epoch_body env args evaluate accumulate false) w))
      = log_buf w /\
    filter primary_call
      (events_of (for_fold l best (epoch_body env args evaluate accumulate false) w)) = [].
Proof.
  intros Hr. induction l as [| x l IH]; intros best w.
  - repeat split; reflexivity.
  - cbn [for_fold]. rewrite bind_run.
    destruct (epoch_body_secondary env args evaluate accumulate x best w Hr)
      as (Hres & Hfs & Hbuf & Hev).
    rewrite Hres. out_simpl.
    destruct (IH best (world_of (epoch_body env args evaluate accumulate false x best w)))
      as (Hres' & Hfs' & Hbuf' & Hev').
    rewrite Hres', Hfs', Hbuf', filter_app, Hev, Hev', Hfs, Hbuf.
    repeat split; reflexivity.
Qed.

(** [train] on another local rank, past its preamble: the whole of the
    loop runs and returns. *)
Lemma train_with_secondary env args evaluate w accumulate wd :
  local_rank args <> 0 ->
  supported (version args) = true ->
  accumulate_of (batch_size args) (world_size args) = inr accumulate ->
  scale_weight_decay (weight_decay w) (batch_size args) (world_size args) accumulate = inr wd ->
  weights_dir (fs w) = true ->
  result_of (first_epochs env args evaluate (epochs args) accumulate false
               (start_world env args accumulate w)) = inr 0%Q /\
  result_of (train_with env args evaluate w) = inr tt /\
  filter primary_call (events_of (train_with env args evaluate w)) = [] /\
  fs (world_of (train_with env args evaluate w)) = with_step_csv (Some []) (fs w).
Proof.
  intros Hrank Hsup Hacc Hscale Hdir.
  assert (Hr : (local_rank args =? 0) = false) by (apply Z.eqb_neq; exact Hrank).
  rewrite (train_with_eq env args evaluate accumulate wd w Hsup Hacc Hscale Hdir). cbv zeta.
  unfold epoch_loop, first_epochs. rewrite Hr.
  destruct (loop_secondary env args evaluate accumulate (range (epochs args)) Hr 0%Q
              (start_world env args accumulate w)) as (Hres & Hfs & Hbuf & Hev).
  destruct (for_fold (range (epochs args)) 0%Q
              (epoch_body env args evaluate accumulate false)
              (start_world env args accumulate w)) as [[ev w2] r].
  out_simpl. subst r. out_simpl.
  split; [reflexivity |]. split; [reflexivity |]. split.
  - cbn [app filter primary_call]. rewrite filter_app, Hev. reflexivity.
  - unfold flush_world. cbn [fs set_fs set_log_buf]. rewrite Hfs, Hbuf.
    unfold start_world. rewrite Hr. reflexivity.
Qed.

(** X11. A process whose local rank is not 0 goes through [train]
    without evaluating, without touching the EMA, and without writing a
    header, a row or a checkpoint; once the weight decay is scaled it
    returns normally whatever the evaluation would have done, and the
    only change it makes to the files is that the log it opened for
    writing is left empty. When the scaling of line 44 raises, [train]
    ends there with nothing called and no file touched. *)
Theorem secondary_rank_writes_nothing env args evaluate w accumulate :
  local_rank args <> 0 ->
  supported (version args) = true ->
  accumulate_of (batch_size args) (world_size args) = inr accumulate ->
  weights_dir (fs w) = true ->
  filter primary_call (events_of (train_with env args evaluate w)) = [] /\
  match scale_weight_decay (weight_decay w) (batch_size args) (world_size args) accumulate with
  | inr _ =>
      result_of (train_with env args evaluate w) = inr tt /\
      fs (world_of (train_with env args evaluate w)) = with_step_csv (Some []) (fs w)
  | inl e => train_with env args evaluate w = ([], w, inl e)
  end.
Proof.
  intros Hrank Hsup Hacc Hdir.
  destruct (scale_weight_decay (weight_decay w) (batch_size args) (world_size args) accumulate)
    as [e | wd] eqn:Hscale.
  - rewrite (train_with_overflow env args evaluate accumulate e w Hsup Hacc Hscale).
    split; reflexivity.
  - destruct (train_with_secondary env args evaluate w accumulate wd Hrank Hsup Hacc Hscale Hdir)
      as (_ & Hres & Hev & Hfs).
    split; [exact Hev |]. split; [exact Hres | exact Hfs].
Qed.

Lemma secondary_rank_writes_nothing_witness :
  local_rank (Sample.args 1 2 32 3 "n") <> 0 /\
  result_of (train_with Sample.env (Sample.args 1 2 32 3 "n")
               (Sample.eval_of [1 # 10]) (set_fs (with_step_csv (Some Sample.old_log)) Sample.world)) = inr tt /\
  filter primary_call
    (events_of (train_with Sample.env (Sample.args 1 2 32 3 "n")
                  (Sample.eval_of [1 # 10]) (set_fs (with_step_csv (Some Sample.old_log)) Sample.world))) = [] /\
  fs (world_of (train_with Sample.env (Sample.args 1 2 32 3 "n")
                  (Sample.eval_of [1 # 10]) (set_fs (with_step_csv (Some Sample.old_log)) Sample.world)))
    = with_step_csv (Some []) (fs (set_fs (with_step_csv (Some Sample.old_log)) Sample.world)).
Proof.
  split; [discriminate |].
  destruct (secondary_rank_writes_nothing Sample.env (Sample.args 1 2 32 3 "n")
              (Sample.eval_of [1 # 10]) (set_fs (with_step_csv (Some Sample.old_log)) Sample.world) 1
              ltac:(discriminate) eq_refl eq_refl eq_refl) as [Hev [Hres Hfs]].
  split; [exact Hres |]. split; [exact Hev | exact Hfs].
Defined.

(** ** The mosaic switch in a run of [train] *)

Lemma epoch_steps_no_switch env accumulate ema epoch :
  filter is_mosaic_off (epoch_steps env accumulate ema epoch) = [].
Proof.
  apply filter_none. eapply Forall_impl; [| apply epoch_steps_kinds].
  intros e [H | ->]; [destruct e; simpl in *; congruence | reflexivity].
Qed.

(** C6, in the runs of [train] as it is written. On local rank 0 a run
    with at least one epoch ends in its first epoch, in the [ValueError]
    of the first evaluation: the turn with ten epochs left is reached only
    when it is the first one ([epochs = 10]), and otherwise the flag is
    never switched and stays what the data set was built with. On every
    other local rank the loop runs to its end: the flag is switched off
    once, in the turn of index [epochs - 10], when [epochs >= 10], and
    never when [epochs < 10]. *)
Theorem C6_switch_reached_off_rank_zero_only env args accumulate wd w :
  supported (version args) = true ->
  accumulate_of (batch_size args) (world_size args) = inr accumulate ->
  scale_weight_decay (weight_decay w) (batch_size args) (world_size args) accumulate = inr wd ->
  weights_dir (fs w) = true ->
  (local_rank args = 0 -> 1 <= epochs args ->
   result_of (train env args w) = inl ValueError /\
   filter is_mosaic_off (events_of (train env args w)) =
     (if epochs args =? 10 then [MosaicOff 0] else []) /\
   mosaic (world_of (train env args w)) =
     (if epochs args =? 10 then false else dataset_mosaic env) /\
   (forall k, In (Evaluate k) (events_of (train env args w)) <-> k = 0)) /\
  (local_rank args <> 0 ->
   result_of (train env args w) = inr tt /\
   filter is_mosaic_off (events_of (train env args w)) =
     (if 10 <=? epochs args then [MosaicOff (epochs args - 10)] else []) /\
   mosaic (world_of (train env args w)) =
     (if 10 <=? epochs args then false else dataset_mosaic env)).
Proof.
  intros Hsup Hacc Hscale Hdir. unfold train. split.
  - intros Hrank Hep.
    assert (Hr : (local_rank args =? 0) = true) by (apply Z.eqb_eq; exact Hrank).
    rewrite (train_with_eq env args _ accumulate wd w Hsup Hacc Hscale Hdir). cbv zeta.
    unfold epoch_loop, first_epochs.
    assert (Hl : exists l, range (epochs args) = 0 :: l).
    { unfold range. destruct (Z.to_nat (epochs args)) eqn:E; [lia |].
      simpl. eexists; reflexivity. }
    destruct Hl as [l ->].
    pose proof (first_epoch_raises env args accumulate l w Hrank) as H. cbv zeta in H.
    rewrite H. clear H. rewrite Hr. out_simpl.
    split; [reflexivity |]. split; [| split].
    + cbn [app filter is_mosaic_off]. rewrite !filter_app.
      cbn [filter is_mosaic_off]. rewrite filter_app, epoch_steps_no_switch.
      destruct (distributed args), (epochs args =? 10); reflexivity.
    + unfold start_world. rewrite Hr. destruct (epochs args =? 10); reflexivity.
    + intros k.
      assert (Hsteps : ~ In (Evaluate k) (epoch_steps env accumulate true 0)).
      { intros Hin. pose proof (epoch_steps_kinds env accumulate true 0) as Hk.
        rewrite Forall_forall in Hk. destruct (Hk _ Hin) as [Hb | Hb]; discriminate Hb. }
      assert (HA : ~ In (Evaluate k) (if distributed args then [SamplerSetEpoch 0] else []))
        by (destruct (distributed args); cbn [In]; intuition discriminate).
      assert (HB : ~ In (Evaluate k) (if epochs args =? 10 then [MosaicOff 0] else []))
        by (destruct (epochs args =? 10); cbn [In]; intuition discriminate).
      cbn [app]. repeat (rewrite in_app_iff || cbn [In]).
      split.
      * intuition (try discriminate); congruence.
      * intros ->. intuition.
  - intros Hrank.
    destruct (train_with_secondary env args (fun ep => test env true (ap_result env ep))
                w accumulate wd Hrank Hsup Hacc Hscale Hdir) as (Hloop & Hres & _ & _).
    split; [exact Hres |].
    destruct (mosaic_off_when_returning env args (fun ep => test env true (ap_result env ep))
                accumulate false (epochs args) (start_world env args accumulate w) 0%Q
                (Z.le_refl _) Hloop) as (_ & _ & _ & Hrun).
    exact (Hrun w tt Hres).
Qed.

Lemma C6_switch_reached_off_rank_zero_only_witness :
  supported (version (Sample.args 0 1 32 20 "n")) = true /\
  accumulate_of (batch_size (Sample.args 0 1 32 20 "n")) (world_size (Sample.args 0 1 32 20 "n"))
    = inr 2 /\
  scale_weight_decay (weight_decay Sample.world) (batch_size (Sample.args 0 1 32 20 "n"))
    (world_size (Sample.args 0 1 32 20 "n")) 2 = inr Sample.wd /\
  weights_dir (fs Sample.world) = true /\
  local_rank (Sample.args 0 1 32 20 "n") = 0 /\
  1 <= epochs (Sample.args 0 1 32 20 "n") /\
  result_of (train Sample.env (Sample.args 0 1 32 20 "n") Sample.world) = inl ValueError /\
  filter is_mosaic_off (events_of (train Sample.env (Sample.args 0 1 32 20 "n") Sample.world)) = [] /\
  mosaic (world_of (train Sample.env (Sample.args 0 1 32 20 "n") Sample.world)) = true.
Proof.
  assert (Hep : 1 <= epochs (Sample.args 0 1 32 20 "n")) by (simpl; lia).
  destruct (C6_switch_reached_off_rank_zero_only Sample.env (Sample.args 0 1 32 20 "n") 2
              Sample.wd Sample.world eq_refl eq_refl eq_refl eq_refl) as [Hprimary _].
  destruct (Hprimary eq_refl Hep) as (Hres & Hev & Hm & _).
  split; [reflexivity |]. split; [reflexivity |]. split; [reflexivity |].
  split; [reflexivity |]. split; [reflexivity |]. split; [exact Hep |].
  split; [exact Hres |]. split; [exact Hev | exact Hm].
Defined.

(** ** Which batches an update uses *)

Lemma feeds_app p a b : feeds p (a ++ b) = feeds p a ++ feeds (grads p a) b.
Proof.
  revert p. induction a as [| e a IH]; intros p; [reflexivity |].
  destruct e; cbn [app feeds grads]; rewrite ?IH; reflexivity.
Qed.

Lemma grads_app p a b : grads p (a ++ b) = grads (grads p a) b.
Proof.
  revert p. induction a as [| e a IH]; intros p; [reflexivity |].
  destruct e; cbn [app grads]; rewrite ?IH; reflexivity.
Qed.

Lemma micro_step_feeds env accumulate ema p k :
  feeds p (micro_step env accumulate ema k) =
    (if (k mod accumulate =? 0) && negb (overflow env k) then [(k, k :: p)] else []) /\
  grads p (micro_step env accumulate ema k) =
    (if k mod accumulate =? 0 then [] else k :: p).
Proof.
  unfold micro_step, scaler_step.
  destruct (k mod accumulate =? 0), (overflow env k), ema; split; reflexivity.
Qed.

Lemma descending_nil lo hi : hi <= lo -> descending lo hi = [].
Proof. intros H. unfold descending. rewrite range_nonpos by lia. reflexivity. Qed.

Lemma descending_cons lo hi : lo <= hi -> descending lo (hi + 1) = hi :: descending lo hi.
Proof.
  intros H. unfold descending.
  replace (hi + 1 - lo) with ((hi - lo) + 1) by lia.
  rewrite range_succ by lia. rewrite map_app, rev_app_distr. cbn [map rev app].
  f_equal. lia.
Qed.

Lemma in_descending lo hi k : In k (descending lo hi) <-> lo <= k < hi.
Proof.
  unfold descending. rewrite <- in_rev, in_map_iff. split.
  - intros (d & <- & Hd). apply in_range in Hd. lia.
  - intros H. exists (k - lo). split; [lia | apply in_range; lia].
Qed.

Lemma div_before_multiple a k :
  0 < a -> k mod a = 0 -> (k - 1) / a * a = k - a.
Proof.
  intros Ha Hk. pose proof (Z.div_mod k a ltac:(lia)) as Hd. rewrite Hk in Hd.
  assert (Hq : (k - 1) / a = k / a - 1).
  { symmetry. apply (Z.div_unique (k - 1) a (k / a - 1) (a - 1)); lia. }
  rewrite Hq. lia.
Qed.

Lemma div_between_multiples a k :
  0 < a -> k mod a <> 0 -> (k - 1) / a = k / a.
Proof.
  intros Ha Hk. pose proof (Z.div_mod k a ltac:(lia)) as Hd.
  pose proof (Z.mod_pos_bound k a Ha) as Hb.
  symmetry. apply (Z.div_unique (k - 1) a (k / a) (k mod a - 1)); lia.
Qed.

Lemma steps_feeds env accumulate ema base n :
  0 < accumulate -> 0 <= n ->
  feeds [] (flat_map (fun i => micro_step env accumulate ema (i + base)) (range n)) =
    map (fun j => (j, descending (Z.max base (j - accumulate + 1)) (j + 1)))
        (filter (fun j => (j mod accumulate =? 0) && negb (overflow env j))
                (map (fun i => i + base) (range n))) /\
  grads [] (flat_map (fun i => micro_step env accumulate ema (i + base)) (range n)) =
    descending (since accumulate base (n + base)) (n + base).
Proof.
  intros Ha Hn. revert n Hn. apply natlike_ind.
  - cbn. split; [reflexivity |]. symmetry. apply descending_nil. unfold since. lia.
  - intros n Hn [IHf IHg]. unfold Z.succ. rewrite range_succ by exact Hn.
    rewrite flat_map_app, map_app, filter_app, map_app, feeds_app, grads_app.
    cbn [flat_map map filter]. rewrite app_nil_r, IHf, IHg.
    destruct (micro_step_feeds env accumulate ema
                (descending (since accumulate base (n + base)) (n + base)) (n + base))
      as [Hf Hg].
    rewrite Hf, Hg.
    pose proof (Z.div_mod (n + base) accumulate ltac:(lia)) as Hd.
    pose proof (Z.mod_pos_bound (n + base) accumulate Ha) as Hb.
    destruct ((n + base) mod accumulate =? 0) eqn:Eb.
    + apply Z.eqb_eq in Eb.
      assert (Hs : since accumulate base (n + base) = Z.max base (n + base - accumulate + 1)).
      { unfold since. rewrite (div_before_multiple accumulate (n + base) Ha Eb). lia. }
      split.
      * f_equal. destruct (overflow env (n + base)); cbn [andb negb map]; [reflexivity |].
        rewrite descending_cons by lia. rewrite Hs. reflexivity.
      * symmetry. apply descending_nil. unfold since.
        replace (n + 1 + base - 1) with (n + base) by lia.
        rewrite Eb in Hd. nia.
    + apply Z.eqb_neq in Eb. cbn [andb map]. split; [reflexivity |].
      replace (n + 1 + base) with ((n + base) + 1) by lia.
      assert (Hs : since accumulate base (n + base + 1) = since accumulate base (n + base)).
      { unfold since. replace (n + base + 1 - 1) with (n + base) by lia.
        rewrite (div_between_multiples accumulate (n + base) Ha Eb). reflexivity. }
      rewrite Hs. symmetry. apply descending_cons.
      unfold since. rewrite (div_between_multiples accumulate (n + base) Ha Eb). nia.
Qed.

Lemma end_events_grads epoch best r p :
  feeds p (end_events epoch best r) = [] /\ grads p (end_events epoch best r) = p.
Proof.
  unfold end_events. destruct r as [e | m]; [split; reflexivity |].
  destruct (Py.eq (update_best best (mean_ap m)) (mean_ap m)); split; reflexivity.
Qed.

(** X13. The batches behind each optimizer step of an epoch. With
    PyTorch's gradients ([backward] adds, [zero_grad] clears,
    [optimizer.step] uses what is held), the optimizer steps of an epoch
    are at the steps that are multiples of [accumulate] without overflow;
    the step at [j] uses the batches of the steps [j - accumulate + 1 .. j]
    that belong to this epoch, and nothing of what was held before the
    epoch, which the [zero_grad] of line 128 clears. What is held when the
    epoch ends are the batches after its last multiple of [accumulate]:
    the next epoch clears them unused. *)
Theorem update_uses_batches_of_its_epoch env args evaluate accumulate ema epoch best w pending :
  1 <= accumulate ->
  let tr := events_of (epoch_body env args evaluate accumulate ema epoch best w) in
  let first := num_steps env * epoch in
  map fst (feeds pending tr) =
    filter (fun j => (j mod accumulate =? 0) && negb (overflow env j))
           (map (fun i => i + first) (range (num_steps env))) /\
  (forall j g, In (j, g) (feeds pending tr) ->
               forall k, In k g <-> first <= k <= j /\ j - accumulate < k) /\
  (forall k, In k (grads pending tr) <->
             first <= k < first + num_steps env /\
             (first + num_steps env - 1) / accumulate * accumulate < k).
Proof.
  intros Ha. cbv zeta.
  rewrite epoch_body_events.
  set (first := num_steps env * epoch).
  set (tail := if local_rank args =? 0
               then end_events epoch best (snd (evaluate epoch (fs w))) else []).
  assert (Htail : forall p, feeds p tail = [] /\ grads p tail = p).
  { intros p. unfold tail. destruct (local_rank args =? 0);
      [apply end_events_grads | split; reflexivity]. }
  assert (Hshape : feeds pending
                     ((if distributed args then [SamplerSetEpoch epoch] else []) ++
                      (if epochs args - epoch =? 10 then [MosaicOff epoch] else []) ++
                      ZeroGrad :: epoch_steps env accumulate ema epoch ++ tail)
                   = feeds [] (epoch_steps env accumulate ema epoch) /\
                   grads pending
                     ((if distributed args then [SamplerSetEpoch epoch] else []) ++
                      (if epochs args - epoch =? 10 then [MosaicOff epoch] else []) ++
                      ZeroGrad :: epoch_steps env accumulate ema epoch ++ tail)
                   = grads [] (epoch_steps env accumulate ema epoch)).
  { destruct (distributed args), (epochs args - epoch =? 10);
      cbn [app feeds grads]; rewrite feeds_app, grads_app;
      destruct (Htail (grads [] (epoch_steps env accumulate ema epoch))) as [-> ->];
      rewrite app_nil_r; split; reflexivity. }
  destruct Hshape as [-> ->]. unfold epoch_steps. fold first.
  destruct (Z_lt_le_dec (num_steps env) 0) as [Hneg | Hpos].
  - rewrite range_nonpos by lia. cbn. split; [reflexivity |].
    split; [intros j g [] |]. intros k. split; [intros [] | lia].
  - destruct (steps_feeds env accumulate ema first (num_steps env) ltac:(lia) Hpos)
      as [Hf Hg].
    rewrite Hf, Hg. split; [| split].
    + rewrite map_map. cbn [fst]. apply map_id.
    + intros j g Hin k. apply in_map_iff in Hin. destruct Hin as (j' & Heq & Hj).
      injection Heq as -> <-. rewrite in_descending.
      apply filter_In in Hj. destruct Hj as [Hj _].
      apply in_map_iff in Hj. destruct Hj as (i & <- & Hi). apply in_range in Hi. lia.
    + intros k. rewrite in_descending. unfold since.
      replace (num_steps env + first - 1) with (first + num_steps env - 1) by lia.
      lia.
Qed.

Lemma update_uses_batches_of_its_epoch_witness :
  1 <= 2 /\
  feeds [7]
    (events_of (epoch_body Sample.env (Sample.args 0 1 32 3 "n")
                  (Sample.eval_of [1 # 10]) 2 true 1 0%Q Sample.world))
    = [(4, [4; 3])] /\
  forall k,
    In k (grads [7]
            (events_of (epoch_body Sample.env (Sample.args 0 1 32 3 "n")
                          (Sample.eval_of [1 # 10]) 2 true 1 0%Q Sample.world))) <->
    num_steps Sample.env * 1 <= k < num_steps Sample.env * 1 + num_steps Sample.env /\
    (num_steps Sample.env * 1 + num_steps Sample.env - 1) / 2 * 2 < k.
Proof.
  split; [lia |]. split; [reflexivity |].
  exact (proj2 (proj2 (update_uses_batches_of_its_epoch Sample.env (Sample.args 0 1 32 3 "n")
                         (Sample.eval_of [1 # 10]) 2 true 1 0%Q Sample.world [7]
                         ltac:(lia)))).
Defined.

(** ** The [weights] directory *)

Lemma train_without_directory env args evaluate w accumulate wd :
  supported (version args) = true ->
  accumulate_of (batch_size args) (world_size args) = inr accumulate ->
  scale_weight_decay (weight_decay w) (batch_size args) (world_size args) accumulate = inr wd ->
  weights_dir (fs w) = false ->
  train_with env args evaluate w =
    ([MakeSGD wd], set_mosaic (dataset_mosaic env) (set_weight_decay wd w),
     inl FileNotFoundError).
Proof.
  intros Hsup Hacc Hscale Hdir.
  unfold train_with. rewrite Hsup. cbn [negb].
  unfold bind at 1. unfold lift at 1. rewrite Hacc.
  unfold bind at 1. cbv beta. rewrite Hscale.
  unfold bind at 1. unfold lift at 1. unfold modify at 1.
  unfold bind at 1. unfold emit at 1.
  unfold bind at 1. unfold modify at 1.
  unfold bind at 1. unfold with_log, open_log.
  cbn [fs set_mosaic set_weight_decay set_fs weight_decay]. rewrite Hdir.
  reflexivity.
Qed.

(** X14. [train] does not create the [weights] directory, and
    [main] creates it on local rank 0 only. A process of another local
    rank that finds no such directory gets through the profile and the
    construction of the optimizer, then raises [FileNotFoundError] when it
    opens the log: [main] ends with that error, has written nothing, and
    the process group, when one was initialised, is not destroyed. (When
    the weight decay of the configuration cannot be scaled, the run ends
    before that, in the [OverflowError] of line 44, with no optimizer
    constructed.) *)
Theorem other_rank_needs_the_directory env cli os w args accumulate :
  resolve cli os = inr args ->
  local_rank args <> 0 ->
  do_train args = true ->
  supported (version args) = true ->
  accumulate_of (batch_size args) (world_size args) = inr accumulate ->
  weights_dir (fs w) = false ->
  fs (world_of (main env cli os w)) = fs w /\
  match scale_weight_decay (yaml_weight_decay env) (batch_size args) (world_size args)
          accumulate with
  | inr wd =>
      result_of (main env cli os w) = inl FileNotFoundError /\
      events_of (main env cli os w) =
        (if distributed args then [SetDevice (local_rank args); InitProcessGroup] else []) ++
        [Profile; MakeSGD wd]
  | inl e =>
      result_of (main env cli os w) = inl e /\
      events_of (main env cli os w) =
        (if distributed args then [SetDevice (local_rank args); InitProcessGroup] else []) ++
        [Profile]
  end.
Proof.
  intros Hres Hrank Htrain Hsup Hacc Hdir.
  assert (Hr : (local_rank args =? 0) = false) by (apply Z.eqb_neq; exact Hrank).
  assert (Ht : exists tr w1 e,
             train env args (set_weight_decay (yaml_weight_decay env) w) = (tr, w1, inl e) /\
             fs w1 = fs w /\
             match scale_weight_decay (yaml_weight_decay env) (batch_size args)
                     (world_size args) accumulate with
             | inr wd => e = FileNotFoundError /\ tr = [MakeSGD wd]
             | inl e' => e = e' /\ tr = []
             end).
  { unfold train.
    destruct (scale_weight_decay (yaml_weight_decay env) (batch_size args) (world_size args)
                accumulate) as [e | wd] eqn:Hscale.
    - rewrite (train_with_overflow env args _ accumulate e
                 (set_weight_decay (yaml_weight_decay env) w) Hsup Hacc Hscale).
      eexists. eexists. eexists. split; [reflexivity |]. split; [reflexivity |].
      split; reflexivity.
    - rewrite (train_without_directory env args _
                 (set_weight_decay (yaml_weight_decay env) w) accumulate wd Hsup Hacc Hscale Hdir).
      eexists. eexists. eexists. split; [reflexivity |]. split; [reflexivity |].
      split; reflexivity. }
  destruct Ht as (tr & w1 & e & Ht & Hfs & Hcase).
  enough (Heq : main env cli os w =
                ((if distributed args
                  then [SetDevice (local_rank args); InitProcessGroup] else []) ++
                 Profile :: tr, w1, inl e)).
  { rewrite Heq. out_simpl. split; [exact Hfs |].
    destruct (scale_weight_decay (yaml_weight_decay env) (batch_size args) (world_size args)
                accumulate) as [e' | wd];
      destruct Hcase as [-> ->]; split; reflexivity. }
  unfold main. unfold bind at 1. unfold lift at 1. rewrite Hres.
  unfold bind at 1.
  assert (Hpre : forall w0,
             when (distributed args)
                  (emit (SetDevice (local_rank args));; emit InitProcessGroup) w0 =
             (if distributed args then [SetDevice (local_rank args); InitProcessGroup] else [],
              w0, inr tt)).
  { intros w0. unfold when. destruct (distributed args); reflexivity. }
  rewrite Hpre.
  unfold bind at 1. rewrite Hr. unfold when at 1. unfold ret at 1.
  unfold bind at 1. unfold modify at 1.
  unfold bind at 1. unfold emit at 1.
  unfold bind at 1. rewrite Htrain. unfold when at 1. rewrite Ht.
  reflexivity.
Qed.

Lemma other_rank_needs_the_directory_witness :
  resolve (Sample.cli 32 3 "n" true false) (Sample.os 1 2) = inr (Sample.args 1 2 32 3 "n") /\
  local_rank (Sample.args 1 2 32 3 "n") <> 0 /\
  weights_dir (fs (set_fs (with_weights_dir false) Sample.world)) = false /\
  result_of (main Sample.env (Sample.cli 32 3 "n" true false) (Sample.os 1 2)
               (set_fs (with_weights_dir false) Sample.world)) = inl FileNotFoundError.
Proof.
  split; [reflexivity |]. split; [discriminate |]. split; [reflexivity |].
  destruct (other_rank_needs_the_directory Sample.env (Sample.cli 32 3 "n" true false)
              (Sample.os 1 2) (set_fs (with_weights_dir false) Sample.world)
              (Sample.args 1 2 32 3 "n") 1
              eq_refl ltac:(discriminate) eq_refl eq_refl eq_refl eq_refl) as [_ [Hres _]].
  exact Hres.
Defined.

(** ** What a run of [train] records *)

Lemma train_with_early_fs env args evaluate w :
  supported (version args) = false \/
  (exists e, accumulate_of (batch_size args) (world_size args) = inl e) \/
  (exists a e, accumulate_of (batch_size args) (world_size args) = inr a /\
               scale_weight_decay (weight_decay w) (batch_size args) (world_size args) a = inl e) \/
  weights_dir (fs w) = false ->
  fs (world_of (train_with env args evaluate w)) = fs w.
Proof.
  destruct (supported (version args)) eqn:Hsup.
  - destruct (accumulate_of (batch_size args) (world_size args)) as [e | a] eqn:Hacc.
    + intros _. unfold train_with. rewrite Hsup, Hacc. reflexivity.
    + destruct (scale_weight_decay (weight_decay w) (batch_size args) (world_size args) a)
        as [e | wd] eqn:Hscale.
      * intros _. rewrite (train_with_overflow env args evaluate a e w Hsup Hacc Hscale).
        reflexivity.
      * intros [H | [[e H] | [(a' & e & Ha & H) | H]]]; try discriminate.
        { injection Ha as <-. congruence. }
        rewrite (train_without_directory env args evaluate w a wd Hsup Hacc Hscale H).
        reflexivity.
  - intros _. unfold train_with. rewrite Hsup. reflexivity.
Qed.

Lemma no_record_around_loop e : around_loop e = true -> is_epoch_record e = false.
Proof. destruct e; simpl; congruence. Qed.

(** X16. No run of [train], on any rank and for any arguments,
    writes a row of the log or saves a checkpoint: a process of another
    local rank never does, and on local rank 0 the first evaluation
    raises before line 184. The checkpoints a run finds are at most
    stripped, the figure is as it was, and the log is left as it was (when
    the preamble fails), empty (another local rank) or with the header
    alone (local rank 0). *)
Theorem train_records_nothing env args w :
  filter is_epoch_record (events_of (train env args w)) = [] /\
  option_map ck_epoch (last_pt (fs (world_of (train env args w)))) =
    option_map ck_epoch (last_pt (fs w)) /\
  option_map ck_epoch (best_pt (fs (world_of (train env args w)))) =
    option_map ck_epoch (best_pt (fs w)) /\
  map_png (fs (world_of (train env args w))) = map_png (fs w) /\
  (step_csv (fs (world_of (train env args w))) = step_csv (fs w) \/
   (local_rank args <> 0 /\ step_csv (fs (world_of (train env args w))) = Some []) \/
   (local_rank args = 0 /\ step_csv (fs (world_of (train env args w))) = Some [Header])).
Proof.
  unfold train. set (evaluate := fun ep => test env true (ap_result env ep)).
  assert (Hearly :
            supported (version args) = false \/
            (exists e, accumulate_of (batch_size args) (world_size args) = inl e) \/
            (exists a e, accumulate_of (batch_size args) (world_size args) = inr a /\
                         scale_weight_decay (weight_decay w) (batch_size args)
                           (world_size args) a = inl e) \/
            weights_dir (fs w) = false ->
            filter is_epoch_record (events_of (train_with env args evaluate w)) = [] /\
            option_map ck_epoch (last_pt (fs (world_of (train_with env args evaluate w)))) =
              option_map ck_epoch (last_pt (fs w)) /\
            option_map ck_epoch (best_pt (fs (world_of (train_with env args evaluate w)))) =
              option_map ck_epoch (best_pt (fs w)) /\
            map_png (fs (world_of (train_with env args evaluate w))) = map_png (fs w) /\
            (step_csv (fs (world_of (train_with env args evaluate w))) = step_csv (fs w) \/
             (local_rank args <> 0 /\
              step_csv (fs (world_of (train_with env args evaluate w))) = Some []) \/
             (local_rank args = 0 /\
              step_csv (fs (world_of (train_with env args evaluate w))) = Some [Header]))).
  { intros H. rewrite (train_with_early_fs env args evaluate w H).
    destruct (train_with_early env args evaluate w H) as [_ Hall].
    split; [| repeat split; left; reflexivity].
    apply filter_none. eapply Forall_impl; [| exact Hall].
    intros e. apply no_record_around_loop. }
  destruct (supported (version args)) eqn:Hsup; [| apply Hearly; auto].
  destruct (accumulate_of (batch_size args) (world_size args)) as [e | accumulate] eqn:Hacc;
    [apply Hearly; eauto |].
  destruct (scale_weight_decay (weight_decay w) (batch_size args) (world_size args) accumulate)
    as [e | wd] eqn:Hscale; [apply Hearly; eauto 7 |].
  destruct (weights_dir (fs w)) eqn:Hdir; [| apply Hearly; auto].
  clear Hearly.
  destruct (Z.eq_dec (local_rank args) 0) as [Hrank | Hrank].
  - assert (Hr : (local_rank args =? 0) = true) by (apply Z.eqb_eq; exact Hrank).
    rewrite (train_with_eq env args evaluate accumulate wd w Hsup Hacc Hscale Hdir). cbv zeta.
    unfold epoch_loop, first_epochs. rewrite Hr.
    destruct (Z_lt_le_dec (epochs args) 1) as [Hep | Hep].
    + rewrite range_nonpos by lia. cbn [for_fold]. unfold ret.
      unfold bind, strip_optimizer. out_simpl.
      split; [reflexivity |].
      unfold start_world, flush_world. rewrite Hr.
      cbn [fs set_fs set_log_buf set_mosaic set_weight_decay log_buf step_csv with_step_csv
           ckpt_of with_ckpt last_pt best_pt map_png].
      destruct (last_pt (fs w)) as [cl |] eqn:El; simpl; rewrite ?El;
        destruct (best_pt (fs w)) as [cb |] eqn:Eb; simpl; rewrite ?El, ?Eb;
        repeat split; right; right; split; (exact Hrank || reflexivity).
    + assert (Hl : exists l, range (epochs args) = 0 :: l).
      { unfold range. destruct (Z.to_nat (epochs args)) eqn:E; [lia |].
        simpl. eexists; reflexivity. }
      destruct Hl as [l ->].
      pose proof (first_epoch_raises env args accumulate l w Hrank) as H. cbv zeta in H.
      rewrite Hr in H. fold evaluate in H. rewrite H. clear H. out_simpl.
      split.
      * cbn [app filter is_epoch_record]. rewrite !filter_app.
        cbn [filter is_epoch_record]. rewrite filter_app.
        rewrite (filter_none is_epoch_record (epoch_steps _ _ _ _)).
        -- destruct (distributed args), (epochs args =? 10); reflexivity.
        -- eapply Forall_impl; [| apply epoch_steps_kinds].
           intros ev [Hb | ->]; [destruct ev; simpl in *; congruence | reflexivity].
      * unfold start_world, flush_world. rewrite Hr.
        destruct (epochs args =? 10);
          cbn [fs set_fs set_log_buf set_mosaic set_weight_decay log_buf step_csv
               with_step_csv last_pt best_pt map_png];
          repeat split; right; right; split; (exact Hrank || reflexivity).
  - destruct (train_with_secondary env args evaluate w accumulate wd Hrank Hsup Hacc Hscale Hdir)
      as (_ & _ & Hev & Hfs).
    rewrite Hfs. split.
    + rewrite <- (filter_sub is_epoch_record primary_call), Hev; [reflexivity |].
      intros e He. destruct e; simpl in *; congruence.
    + repeat split. right. left. split; [exact Hrank | reflexivity].
Qed.
